(** * ubuntu-drive-folder-sync: the sync decision engine of [main.py]

  A shallow embedding of the daemon's core ([is_drive_available],
  [mount_google_drive], the two hashers, [sync_file], [sync_all_files])
  as programs over the platform interface they consume (Gio volumes and
  files, the local file system, the log), followed by the properties the
  specification states about them. *)

From Stdlib Require Import String Ascii List ZArith Lia Bool Arith Permutation.
From Stdlib Require Import Init.Byte Strings.Byte.
Import ListNotations.
Open Scope string_scope.
Open Scope list_scope.

(** ** Python [str] operations used by the source *)

Module Str.

(** [s.startswith(p)] *)
Fixpoint startswith (s p : string) {struct p} : bool :=
  match p, s with
  | EmptyString, _ => true
  | String a p', String b s' => Ascii.eqb a b && startswith s' p'
  | String _ _, EmptyString => false
  end.

(** [s.endswith("/")] *)
Fixpoint endswith_sep (s : string) : bool :=
  match s with
  | EmptyString => false
  | String c EmptyString => Ascii.eqb c "/"
  | String _ rest => endswith_sep rest
  end.

(** [sub in s] *)
Fixpoint contains (sub s : string) : bool :=
  startswith s sub ||
  match s with
  | EmptyString => false
  | String _ rest => contains sub rest
  end.

(** [s.lstrip('/')] *)
Fixpoint lstrip_sep (s : string) : string :=
  match s with
  | String c rest => if Ascii.eqb c "/" then lstrip_sep rest else s
  | EmptyString => EmptyString
  end.

(** [s.split('/')]: the pieces between separators; never the empty
    list ([''.split('/')] is [['']]). *)
Fixpoint split_sep (s : string) : list string :=
  match s with
  | EmptyString => [EmptyString]
  | String c rest =>
      if Ascii.eqb c "/" then EmptyString :: split_sep rest
      else match split_sep rest with
           | piece :: pieces => String c piece :: pieces
           | [] => [String c EmptyString]
           end
  end.

(** ['/'.join(l)] *)
Fixpoint sep_join (l : list string) : string :=
  match l with
  | [] => EmptyString
  | [x] => x
  | x :: rest => x ++ "/" ++ sep_join rest
  end.

(** Truth value of a string: [if s] holds for the non-empty ones. *)
Definition truthy (s : string) : bool :=
  match s with EmptyString => false | String _ _ => true end.

(** [s.rstrip('/')] *)
Fixpoint rstrip_sep (s : string) : string :=
  match s with
  | EmptyString => EmptyString
  | String c rest =>
      match rstrip_sep rest with
      | EmptyString => if Ascii.eqb c "/" then EmptyString else String c EmptyString
      | kept => String c kept
      end
  end.

(** [(s[:i], s[i:])] for [i = s.find('/')], or [len(s)] when there is no
    separator. *)
Fixpoint break_at_sep (s : string) : string * string :=
  match s with
  | EmptyString => (EmptyString, EmptyString)
  | String c rest =>
      if Ascii.eqb c "/" then (EmptyString, s)
      else let (name, tail) := break_at_sep rest in (String c name, tail)
  end.

End Str.

(** ** [os.path] (posixpath) as the source uses it *)

Definition exn := string.

(** What a call that may raise produces. *)
Inductive result (A : Type) : Type :=
| Ok (a : A)
| Raise (e : exn).
Arguments Ok {A} a.
Arguments Raise {A} e.

Module posixpath.
Import Str.

Definition isabs (s : string) : bool := startswith s "/".

(** [join(a, b)] *)
Definition join (a b : string) : string :=
  if startswith b "/" then b
  else if negb (truthy a) || endswith_sep a then a ++ b
  else a ++ "/" ++ b.

(** [join] applied to the unpacked, non-empty list [l] *)
Definition join_all (l : list string) : string :=
  match l with
  | [] => EmptyString
  | a :: p => fold_left join p a
  end.

(** The loop of [normpath] over the components; [new_comps] is kept in
    reverse, so that its last element is at the head. *)
Fixpoint normpath_comps (initial_slashes : nat) (comps : list string)
         (rev_new_comps : list string) : list string :=
  match comps with
  | [] => rev rev_new_comps
  | comp :: rest =>
      if String.eqb comp "" || String.eqb comp "." then
        normpath_comps initial_slashes rest rev_new_comps
      else if negb (String.eqb comp "..")
              || (Nat.eqb initial_slashes 0
                  && match rev_new_comps with [] => true | _ => false end)
              || match rev_new_comps with
                 | lst :: _ => String.eqb lst ".."
                 | [] => false
                 end
      then normpath_comps initial_slashes rest (comp :: rev_new_comps)
      else match rev_new_comps with
           | _ :: popped => normpath_comps initial_slashes rest popped
           | [] => normpath_comps initial_slashes rest rev_new_comps
           end
  end.

Definition or_dot (p : string) : string := if truthy p then p else ".".

Definition normpath (path : string) : string :=
  if String.eqb path "" then "."
  else
    let initial_slashes :=
      if startswith path "/" then
        if startswith path "//" && negb (startswith path "///") then 2 else 1
      else 0 in
    let comps := normpath_comps initial_slashes (split_sep path) [] in
    let p := sep_join comps in
    or_dot (match initial_slashes with
            | 0 => p
            | 1 => "/" ++ p
            | _ => "//" ++ p
            end).

(** [abspath]; [cwd] is what [os.getcwd()] returns.  The daemon never
    changes its working directory. *)
Definition abspath (cwd path : string) : string :=
  normpath (if isabs path then path else join cwd path).

(** [len(commonprefix([l1, l2]))] on two lists of components *)
Fixpoint common_len (l1 l2 : list string) : nat :=
  match l1, l2 with
  | x :: r1, y :: r2 => if String.eqb x y then S (common_len r1 r2) else 0
  | _, _ => 0
  end.

Definition nonempty_comps (p : string) : list string :=
  filter truthy (split_sep p).

(** [relpath(path, start)]; raises [ValueError] on the empty path. *)
Definition relpath (cwd path start : string) : result string :=
  if negb (truthy path) then Raise "no path specified"
  else
    let start_list := nonempty_comps (abspath cwd start) in
    let path_list := nonempty_comps (abspath cwd path) in
    let i := common_len start_list path_list in
    let rel_list := repeat ".." (length start_list - i) ++ skipn i path_list in
    match rel_list with
    | [] => Ok "."
    | _ => Ok (join_all rel_list)
    end.

(** [s or '/'] *)
Definition or_root (s : string) : string :=
  if truthy s then s else "/".

(** What [expanduser] consults: [$HOME], the home directory of the
    process's user in the password database, and the home directories of
    users by name ([None] where Python gets a [KeyError]). *)
Record environment := Env {
  HOME : option string;
  pw_dir : option string;
  getpwnam : string -> option string
}.

(** [expanduser(path)] *)
Definition expanduser (env : environment) (path : string) : string :=
  match path with
  | String "~" rest =>
      let (name, tail) := break_at_sep rest in
      let userhome :=
        if truthy name then getpwnam env name
        else match HOME env with
             | Some home => Some home
             | None => pw_dir env
             end in
      match userhome with
      | None => path
      | Some home => or_root (rstrip_sep home ++ tail)%string
      end
  | _ => path
  end.

End posixpath.

(** ** [hashlib.sha256]

    The digest both hashers use (FIPS 180-4), on 32-bit words held in [Z]
    with the wrap-around written out. *)

Definition bytes := list byte.

Module hashlib.
Open Scope Z_scope.

Definition w32 (x : Z) : Z := x mod 4294967296.

Definition rotr (n x : Z) : Z :=
  Z.lor (Z.shiftr x n) (w32 (Z.shiftl x (32 - n))).

Definition not32 (x : Z) : Z := Z.lxor x 4294967295.

Definition Ch (x y z : Z) : Z := Z.lxor (Z.land x y) (Z.land (not32 x) z).
Definition Maj (x y z : Z) : Z :=
  Z.lxor (Z.lxor (Z.land x y) (Z.land x z)) (Z.land y z).
Definition Sigma0 (x : Z) : Z := Z.lxor (Z.lxor (rotr 2 x) (rotr 13 x)) (rotr 22 x).
Definition Sigma1 (x : Z) : Z := Z.lxor (Z.lxor (rotr 6 x) (rotr 11 x)) (rotr 25 x).
Definition sigma0 (x : Z) : Z := Z.lxor (Z.lxor (rotr 7 x) (rotr 18 x)) (Z.shiftr x 3).
Definition sigma1 (x : Z) : Z := Z.lxor (Z.lxor (rotr 17 x) (rotr 19 x)) (Z.shiftr x 10).

(** The constants of the standard are read off the first primes: the
    round constants are the first 32 bits of the fractional parts of the
    cube roots of the first 64 primes, the initial hash value those of the
    square roots of the first 8. *)
Definition is_prime (n : nat) : bool :=
  forallb (fun d => negb (Nat.eqb (Nat.modulo n d) 0)) (seq 2 (n - 2)).

Definition primes : list Z :=
  map Z.of_nat (filter is_prime (seq 2 310)).

(** The largest [r + d] with [d < 2 ^ bits] and [(r + d) ^ 3 <= n]. *)
Fixpoint cube_root (bits : nat) (n r : Z) : Z :=
  match bits with
  | O => r
  | S b =>
      let r' := r + 2 ^ Z.of_nat b in
      if r' * r' * r' <=? n then cube_root b n r' else cube_root b n r
  end.

Definition K : list Z :=
  Eval vm_compute in map (fun p => w32 (cube_root 36 (p * 2 ^ 96) 0)) primes.

(** The eight working variables, and the hash value between blocks. *)
Record state := State { sa : Z; sb : Z; sc : Z; sd : Z; se : Z; sf : Z; sg : Z; sh : Z }.

Definition H0 : state :=
  Eval vm_compute in
    match map (fun p => w32 (Z.sqrt (p * 2 ^ 64))) (firstn 8 primes) with
    | [a; b; c; d; e; f; g; h] => State a b c d e f g h
    | _ => State 0 0 0 0 0 0 0 0
    end.

Definition byteZ (b : byte) : Z := Z.of_N (Byte.to_N b).

(** Big-endian 32-bit words of a block. *)
Fixpoint words (bs : list Z) : list Z :=
  match bs with
  | b0 :: b1 :: b2 :: b3 :: rest =>
      (b0 * 16777216 + b1 * 65536 + b2 * 256 + b3) :: words rest
  | _ => []
  end.

(** The message schedule, most recent word first: [n] further words
    after the ones in [rev_w]. *)
Fixpoint schedule (n : nat) (rev_w : list Z) : list Z :=
  match n with
  | O => rev_w
  | S n' =>
      let w := w32 (sigma1 (nth 1 rev_w 0) + nth 6 rev_w 0
                    + sigma0 (nth 14 rev_w 0) + nth 15 rev_w 0) in
      schedule n' (w :: rev_w)
  end.

Definition round (s : state) (kw : Z * Z) : state :=
  let (k, w) := kw in
  let t1 := sh s + Sigma1 (se s) + Ch (se s) (sf s) (sg s) + k + w in
  let t2 := Sigma0 (sa s) + Maj (sa s) (sb s) (sc s) in
  State (w32 (t1 + t2)) (sa s) (sb s) (sc s) (w32 (sd s + t1)) (se s) (sf s) (sg s).

Definition compress (h : state) (block : list Z) : state :=
  let w := rev (schedule 48 (rev (words block))) in
  let s := fold_left round (combine K w) h in
  State (w32 (sa h + sa s)) (w32 (sb h + sb s)) (w32 (sc h + sc s))
        (w32 (sd h + sd s)) (w32 (se h + se s)) (w32 (sf h + sf s))
        (w32 (sg h + sg s)) (w32 (sh h + sh s)).

(** Big-endian bytes of [x], [n] of them. *)
Fixpoint be_bytes (n : nat) (x : Z) : list Z :=
  match n with
  | O => []
  | S n' => be_bytes n' (x / 256) ++ [x mod 256]
  end.

Definition pad (msg : list Z) : list Z :=
  let len := Z.of_nat (length msg) in
  let zeros := Z.to_nat ((55 - len) mod 64) in
  msg ++ [128] ++ repeat 0 zeros ++ be_bytes 8 (len * 8).

(** Processes [n] blocks of 64 bytes. *)
Fixpoint blocks (n : nat) (h : state) (padded : list Z) : state :=
  match n with
  | O => h
  | S n' => blocks n' (compress h (firstn 64 padded)) (skipn 64 padded)
  end.

Definition hex_digit (x : Z) : ascii :=
  nth (Z.to_nat x)
      ["0"; "1"; "2"; "3"; "4"; "5"; "6"; "7";
       "8"; "9"; "a"; "b"; "c"; "d"; "e"; "f"]%char "0"%char.

Definition hex32 (x : Z) (tail : string) : string :=
  String (hex_digit (x / 268435456 mod 16))
  (String (hex_digit (x / 16777216 mod 16))
  (String (hex_digit (x / 1048576 mod 16))
  (String (hex_digit (x / 65536 mod 16))
  (String (hex_digit (x / 4096 mod 16))
  (String (hex_digit (x / 256 mod 16))
  (String (hex_digit (x / 16 mod 16))
  (String (hex_digit (x mod 16)) tail))))))).

Definition hex_state (s : state) : string :=
  hex32 (sa s) (hex32 (sb s) (hex32 (sc s) (hex32 (sd s)
  (hex32 (se s) (hex32 (sf s) (hex32 (sg s) (hex32 (sh s) ""%string))))))).

(** [sha256(data).hexdigest()] *)
Definition sha256_hexdigest (data : bytes) : string :=
  let padded := pad (map byteZ data) in
  hex_state (blocks (length padded / 64) H0 padded).

(** A hasher object is the data fed to it so far: [sha256()] is the empty
    one, [update] appends, [hexdigest] digests the whole. *)
Definition sha256 : bytes := [].
Definition update (hasher chunk : bytes) : bytes := (hasher ++ chunk)%list.
Definition hexdigest (hasher : bytes) : string := sha256_hexdigest hasher.

End hashlib.

(** ** The platform interface

    The daemon reaches its collaborators (the Gio volume monitor, Gio files
    on the mounted drive, the local file system, the GLib main loop, the
    log) through the calls below.  A program is a tree of such calls; the
    platform answers each one. *)

(** Handles of [Gio.Mount] and [Gio.Volume] objects and of the
    [Gio.AsyncResult] passed to the mount callback. *)
Definition mount := nat.
Definition volume := nat.
Definition async_result := nat.

(** [Gio.File] objects: built from a local path, from a URI, or obtained
    as the parent of another one. *)
Inductive gfile : Type :=
| new_for_path (path : string)
| new_for_uri (uri : string)
| parent_of (f : gfile).

(** An opened byte stream ([Gio.FileInputStream] or a Python file object):
    what its successive reads of at most 4096 bytes produce, every read
    after those producing no bytes, and what closing it produces. *)
Record stream := Stream {
  reads : list (result bytes);
  on_close : result unit
}.

Inductive level := INFO | WARNING | ERROR.

Inductive call : Type -> Type :=
(* Gio.VolumeMonitor.get().get_mounts() *)
| get_mounts : call (list mount)
(* mount.get_root().get_uri() *)
| get_root_uri (m : mount) : call string
(* Gio.VolumeMonitor.get().get_volumes() *)
| get_volumes : call (list volume)
| enumerate_identifiers (v : volume) : call (list string)
| get_identifier (v : volume) (kind : string) : call string
(* volume.mount(Gio.MountMountFlags.NONE, callback=on_mount_done) *)
| volume_mount (v : volume) : call (result unit)
(* loop.run(), up to the point where it hands the AsyncResult of the
   finished mount operation to the callback *)
| loop_run : call async_result
| mount_finish (v : volume) (r : async_result) : call (result bool)
| loop_quit : call unit
(* dest_file.get_parent(): whether there is a parent (None at a root);
   the parent object is [parent_of f] *)
| get_parent (f : gfile) : call bool
| get_uri (f : gfile) : call string
| query_exists (f : gfile) : call bool
| make_directory_with_parents (f : gfile) : call (result unit)
(* dest_file.read(None) and the stream it opens *)
| file_read (f : gfile) : call (result stream)
| file_delete (f : gfile) : call (result unit)
(* src_file.copy(dest_file, Gio.FileCopyFlags.OVERWRITE) *)
| file_copy (src dest : gfile) : call (result unit)
(* open(file_path, "rb") and the file object it opens *)
| open_rb (path : string) : call (result stream)
(* list(os.walk(top)): the (dirpath, dirnames, filenames) triples *)
| os_walk (top : string) : call (list (string * list string * list string))
(* logging.info / warning / error *)
| log (lvl : level) (msg : string) : call unit.

(** Programs: return a value, raise an exception nobody catches, or make
    a call and go on with its answer. *)
Inductive Prog (A : Type) : Type :=
| Ret (a : A)
| Throw (e : exn)
| Vis {X : Type} (c : call X) (k : X -> Prog A).
Arguments Ret {A} a.
Arguments Throw {A} e.
Arguments Vis {A X} c k.

Fixpoint bind {A B : Type} (p : Prog A) (f : A -> Prog B) : Prog B :=
  match p with
  | Ret a => f a
  | Throw e => Throw e
  | Vis c k => Vis c (fun x => bind (k x) f)
  end.

Definition perform {X : Type} (c : call X) : Prog X := Vis c Ret.

Declare Scope prog_scope.
Delimit Scope prog_scope with prog.
Notation "x <- p ;; q" := (bind p (fun x => q))
  (at level 61, p at next level, right associativity) : prog_scope.
Notation "p ;; q" := (bind p (fun _ => q))
  (at level 61, right associativity) : prog_scope.
Open Scope prog_scope.

Definition info (msg : string) : Prog unit := perform (log INFO msg).
Definition warning (msg : string) : Prog unit := perform (log WARNING msg).
Definition error (msg : string) : Prog unit := perform (log ERROR msg).

(** What an observer of the platform sees of a program: each call with
    its answer, in order. *)
Inductive event : Type :=
| E_get_mounts (ms : list mount)
| E_get_root_uri (m : mount) (uri : string)
| E_get_volumes (vs : list volume)
| E_enumerate_identifiers (v : volume) (kinds : list string)
| E_get_identifier (v : volume) (kind : string) (value : string)
| E_volume_mount (v : volume) (r : result unit)
| E_loop_run (r : async_result)
| E_mount_finish (v : volume) (r : async_result) (res : result bool)
| E_loop_quit
| E_get_parent (f : gfile) (some : bool)
| E_get_uri (f : gfile) (uri : string)
| E_query_exists (f : gfile) (b : bool)
| E_make_directory_with_parents (f : gfile) (r : result unit)
| E_file_read (f : gfile) (r : result stream)
| E_file_delete (f : gfile) (r : result unit)
| E_file_copy (src dest : gfile) (r : result unit)
| E_open_rb (path : string) (r : result stream)
| E_os_walk (top : string) (triples : list (string * list string * list string))
| E_log (lvl : level) (msg : string).

Definition trace := list event.

Definition observe {X : Type} (c : call X) : X -> event :=
  match c in call X return X -> event with
  | get_mounts => E_get_mounts
  | get_root_uri m => E_get_root_uri m
  | get_volumes => E_get_volumes
  | enumerate_identifiers v => E_enumerate_identifiers v
  | get_identifier v kind => E_get_identifier v kind
  | volume_mount v => E_volume_mount v
  | loop_run => E_loop_run
  | mount_finish v r => E_mount_finish v r
  | loop_quit => fun _ => E_loop_quit
  | get_parent f => E_get_parent f
  | get_uri f => E_get_uri f
  | query_exists f => E_query_exists f
  | make_directory_with_parents f => E_make_directory_with_parents f
  | file_read f => E_file_read f
  | file_delete f => E_file_delete f
  | file_copy src dest => E_file_copy src dest
  | open_rb path => E_open_rb path
  | os_walk top => E_os_walk top
  | log lvl msg => fun _ => E_log lvl msg
  end.

(** How a run ends. *)
Inductive completion (A : Type) : Type :=
| Returned (a : A)
| Raised (e : exn).
Arguments Returned {A} a.
Arguments Raised {A} e.

(** A platform over states [W] answers every call and moves to a next
    state. *)
Definition platform (W : Type) : Type := forall X : Type, call X -> W -> X * W.

(** Running a program on a platform: how it ends, the platform state it
    leaves, and the calls it made. *)
Fixpoint run {W A : Type} (h : platform W) (p : Prog A) (w : W)
  : completion A * W * trace :=
  match p with
  | Ret a => (Returned a, w, [])
  | Throw e => (Raised e, w, [])
  | Vis c k =>
      let (x, w1) := h _ c w in
      let '(r, w2, t) := run h (k x) w1 in
      (r, w2, observe c x :: t)
  end.

(** ** The daemon *)

Definition GOOGLE_DRIVE_PREFIX : string := "google-drive://".

(** What [load_config] returns, bound at module level for the life of the
    process. *)
Record config := Config {
  LOCAL_FOLDER : string;
  GOOGLE_DRIVE_FOLDER : string;
  DRIVE_USER : string
}.

(** [for x in l: body(x)], for the loops that no [return] leaves. *)
Fixpoint for_each {A : Type} (l : list A) (body : A -> Prog unit) : Prog unit :=
  match l with
  | [] => Ret tt
  | x :: rest => body x ;; for_each rest body
  end.

(** The read loops of the two hashers, over the reads of the opened stream:
    each chunk is fed to the hasher until a read produces no bytes. *)
Fixpoint read_chunks (rs : list (result bytes)) (hasher : bytes) : result bytes :=
  match rs with
  | [] => Ok hasher
  | Raise e :: _ => Raise e
  | Ok buffer :: rest =>
      if Nat.eqb (length buffer) 0 then Ok hasher
      else read_chunks rest (hashlib.update hasher buffer)
  end.

Section Daemon.

Variable cfg : config.

(** The working directory of the process ([os.getcwd()]), which
    [path.relpath] consults for relative paths. *)
Variable cwd : string.

(** The test of lines 61 and 94, on a mount's URI and on a volume's
    identifier. *)
Definition is_google_drive_uri (uri : string) : bool :=
  Str.startswith uri GOOGLE_DRIVE_PREFIX && Str.contains (DRIVE_USER cfg) uri.

Fixpoint is_drive_available_loop (mounts : list mount) : Prog bool :=
  match mounts with
  | [] => Ret false
  | m :: rest =>
      mount_uri <- perform (get_root_uri m) ;;
      if is_google_drive_uri mount_uri then Ret true
      else is_drive_available_loop rest
  end.

Definition is_drive_available : Prog bool :=
  mounts <- perform get_mounts ;;
  is_drive_available_loop mounts.

(** The callback handed to [volume.mount]; the main loop runs it with the
    result of the mount operation. *)
Definition on_mount_done (v : volume) (result : async_result) : Prog unit :=
  res <- perform (mount_finish v result) ;;
  match res with
  | Ok true => info "Google Drive mounted successfully."
  | Ok false => error "Failed to mount Google Drive."
  | Raise e => error ("Failed to mount Google Drive: " ++ e)
  end ;;
  perform loop_quit.

(** The inner loop of [mount_google_drive]; the answer is [true] when the
    function returned from inside the loop. *)
Fixpoint mount_identifiers (v : volume) (identifiers : list string) : Prog bool :=
  match identifiers with
  | [] => Ret false
  | identifier :: rest =>
      identifier_value <- perform (get_identifier v identifier) ;;
      if is_google_drive_uri identifier_value then
        r <- perform (volume_mount v) ;;
        match r with
        | Ok _ =>
            result <- perform loop_run ;;
            on_mount_done v result ;;
            Ret true
        | Raise e =>
            error ("Failed to mount Google Drive: " ++ e) ;;
            Ret true
        end
      else mount_identifiers v rest
  end.

(** The outer loop, with the same convention. *)
Fixpoint mount_volumes (volumes : list volume) : Prog bool :=
  match volumes with
  | [] => Ret false
  | v :: rest =>
      identifiers <- perform (enumerate_identifiers v) ;;
      returned <- mount_identifiers v identifiers ;;
      if returned then Ret true else mount_volumes rest
  end.

Definition mount_google_drive : Prog unit :=
  info "Attempting to mount Google Drive..." ;;
  volumes <- perform get_volumes ;;
  returned <- mount_volumes volumes ;;
  if returned then Ret tt
  else warning "No Google Drive volume found to mount.".

(** The [try] block of [get_remote_file_hash] on what [dest_file.read]
    produced: the digest, or the exception that reaches the [except]
    clause.  A read that raises leaves the stream unclosed. *)
Definition remote_digest (opened : result stream) : result string :=
  match opened with
  | Raise e => Raise e
  | Ok stream =>
      match read_chunks (reads stream) hashlib.sha256 with
      | Raise e => Raise e
      | Ok hasher =>
          match on_close stream with
          | Raise e => Raise e
          | Ok _ => Ok (hashlib.hexdigest hasher)
          end
      end
  end.

Definition get_remote_file_hash (dest_file : gfile) : Prog string :=
  opened <- perform (file_read dest_file) ;;
  match remote_digest opened with
  | Ok digest => Ret digest
  | Raise e => error ("Failed to compute remote file hash: " ++ e) ;; Ret ""
  end.

(** The [try] block of [compute_file_hash] on what [open] produced.
    Leaving the [with] block closes the file, also when a read raised; an
    exception of the close is the one that goes on. *)
Definition local_digest (opened : result stream) : result string :=
  match opened with
  | Raise e => Raise e
  | Ok f =>
      match read_chunks (reads f) hashlib.sha256, on_close f with
      | _, Raise e => Raise e
      | Raise e, Ok _ => Raise e
      | Ok hasher, Ok _ => Ok (hashlib.hexdigest hasher)
      end
  end.

Definition compute_file_hash (file_path : string) : Prog string :=
  opened <- perform (open_rb file_path) ;;
  match local_digest opened with
  | Ok digest => Ret digest
  | Raise e => error ("Failed to compute local file hash: " ++ e) ;; Ret ""
  end.

(** Line 151. *)
Definition drive_file_path_of (rel_path : string) : string :=
  GOOGLE_DRIVE_PREFIX ++ DRIVE_USER cfg ++ "/"
  ++ Str.lstrip_sep (posixpath.join (GOOGLE_DRIVE_FOLDER cfg) rel_path).

(** Lines 188-193: the copy. *)
Definition sync_file_copy (file_path drive_file_path : string)
           (src_file dest_file : gfile) : Prog unit :=
  r <- perform (file_copy src_file dest_file) ;;
  match r with
  | Raise e =>
      warning ("Failed to copy " ++ file_path ++ " to " ++ drive_file_path ++ ": " ++ e)
  | Ok _ => info ("Synced: " ++ file_path ++ " -> " ++ drive_file_path)
  end.

(** Lines 172-193: the comparison with an existing remote file, then the
    copy. *)
Definition sync_file_transfer (file_path drive_file_path : string)
           (src_file dest_file : gfile) : Prog unit :=
  dest_exists <- perform (query_exists dest_file) ;;
  if dest_exists then
    remote_hash <- get_remote_file_hash dest_file ;;
    local_hash <- compute_file_hash file_path ;;
    if Str.truthy remote_hash && String.eqb remote_hash local_hash then
      info ("Skipping " ++ file_path ++ ": No changes detected.")
    else
      r <- perform (file_delete dest_file) ;;
      match r with
      | Ok _ =>
          info ("Deleted existing file: " ++ drive_file_path) ;;
          sync_file_copy file_path drive_file_path src_file
                         (new_for_uri drive_file_path)
      | Raise e =>
          error ("Failed to delete existing file " ++ drive_file_path ++ ": " ++ e)
      end
  else sync_file_copy file_path drive_file_path src_file dest_file.

(** Lines 150-193: what [sync_file] does once the drive is there. *)
Definition sync_file_body (file_path : string) : Prog unit :=
  match posixpath.relpath cwd file_path (LOCAL_FOLDER cfg) with
  | Raise e => Throw e
  | Ok rel_path =>
      let drive_file_path := drive_file_path_of rel_path in
      let src_file := new_for_path file_path in
      let dest_file := new_for_uri drive_file_path in
      has_parent <- perform (get_parent dest_file) ;;
      let parent_dir := parent_of dest_file in
      parent_exists <- (if has_parent then perform (query_exists parent_dir)
                        else Ret true) ;;
      if has_parent && negb parent_exists then
        r <- perform (make_directory_with_parents parent_dir) ;;
        match r with
        | Ok _ =>
            uri <- perform (get_uri parent_dir) ;;
            info ("Created parent directory: " ++ uri) ;;
            sync_file_transfer file_path drive_file_path src_file dest_file
        | Raise e =>
            uri <- perform (get_uri parent_dir) ;;
            warning ("Failed to create parent directory " ++ uri ++ ": " ++ e)
        end
      else sync_file_transfer file_path drive_file_path src_file dest_file
  end.

Definition sync_file (file_path : string) : Prog unit :=
  available <- is_drive_available ;;
  if negb available then
    info "Google Drive not found. Attempting to mount..." ;;
    mount_google_drive ;;
    available <- is_drive_available ;;
    if negb available then warning "Mounting failed. Skipping sync."
    else sync_file_body file_path
  else sync_file_body file_path.

(** Lines 206-209: the walk. *)
Definition sync_all_files_walk : Prog unit :=
  triples <- perform (os_walk (LOCAL_FOLDER cfg)) ;;
  for_each triples (fun '(root, _, files) =>
    for_each files (fun file => sync_file (posixpath.join root file))) ;;
  info "Initial sync complete.".

Definition sync_all_files : Prog unit :=
  info "Performing initial sync of all files..." ;;
  available <- is_drive_available ;;
  if negb available then
    info "Google Drive not found. Attempting to mount..." ;;
    mount_google_drive ;;
    available <- is_drive_available ;;
    if negb available then warning "Mounting failed. Skipping initial sync."
    else sync_all_files_walk
  else sync_all_files_walk.

End Daemon.

(** ** What a run shows of a sync

    [sync_file] returns [None] on every path; which of its exits a run took
    is told by its last log record, and whether the existing remote file
    was removed first by the delete among its calls.  [outcome_of] reads
    the outcome of a single-file sync off the calls of its run. *)

Inductive reason := parent_dir_error | delete_error | copy_error.

Inductive SyncOutcome :=
| skipped_no_change
| created
| replaced
| skipped_no_drive
| failed (r : reason).

(** The last call of a run. *)
Fixpoint final (t : trace) : option event :=
  match t with
  | [] => None
  | [e] => Some e
  | _ :: rest => final rest
  end.

Definition is_delete (e : event) : bool :=
  match e with E_file_delete _ _ => true | _ => false end.

Definition is_delete_ok (e : event) : bool :=
  match e with E_file_delete _ (Ok _) => true | _ => false end.

Definition is_copy (e : event) : bool :=
  match e with E_file_copy _ _ _ => true | _ => false end.

Definition is_copy_ok (e : event) : bool :=
  match e with E_file_copy _ _ (Ok _) => true | _ => false end.

Definition outcome_of (t : trace) : option SyncOutcome :=
  match final t with
  | Some (E_log WARNING msg) =>
      if String.eqb msg "Mounting failed. Skipping sync." then Some skipped_no_drive
      else if Str.startswith msg "Failed to create parent directory "
      then Some (failed parent_dir_error)
      else if Str.startswith msg "Failed to copy " then Some (failed copy_error)
      else None
  | Some (E_log ERROR msg) =>
      if Str.startswith msg "Failed to delete existing file "
      then Some (failed delete_error)
      else None
  | Some (E_log INFO msg) =>
      if Str.startswith msg "Skipping " then Some skipped_no_change
      else if Str.startswith msg "Synced: "
      then Some (if existsb is_delete_ok t then replaced else created)
      else None
  | _ => None
  end.

(** Calls on [Gio.File] objects: everything a sync does with the drive. *)
Definition touches_remote (e : event) : bool :=
  match e with
  | E_get_parent _ _ | E_get_uri _ _ | E_query_exists _ _
  | E_make_directory_with_parents _ _ | E_file_read _ _
  | E_file_delete _ _ | E_file_copy _ _ _ => true
  | _ => false
  end.

(** Reads of file content, remote or local. *)
Definition is_digest_read (e : event) : bool :=
  match e with E_file_read _ _ | E_open_rb _ _ => true | _ => false end.

Definition is_mount_request (e : event) : bool :=
  match e with E_volume_mount _ _ => true | _ => false end.

Definition is_loop_run (e : event) : bool :=
  match e with E_loop_run _ => true | _ => false end.

Definition is_get_mounts (e : event) : bool :=
  match e with E_get_mounts _ => true | _ => false end.

Definition is_os_walk (e : event) : bool :=
  match e with E_os_walk _ _ => true | _ => false end.

(** The paths [sync_all_files] hands to [sync_file], from what the walk
    yielded. *)
Definition walk_targets (triples : list (string * list string * list string))
  : list string :=
  flat_map (fun '(root, _, files) => map (posixpath.join root) files) triples.

(** ** The local tree and [os.walk] *)

#[warnings="-register-all"]
Inductive node : Type :=
| File (content : bytes)
| Dir (entries : list (string * node)).

Definition is_dir (n : node) : bool :=
  match n with Dir _ => true | File _ => false end.

(** The names [os.walk] puts in [dirnames] and in [filenames], in the
    order in which [scandir] lists the entries. *)
Definition dirnames (entries : list (string * node)) : list string :=
  map fst (filter (fun e => is_dir (snd e)) entries).

Definition filenames (entries : list (string * node)) : list string :=
  map fst (filter (fun e => negb (is_dir (snd e))) entries).

(** [list(os.walk(top))] on the tree [n] found at [top], top-down: the
    triple of a directory, then the walks of its subdirectories.  Nothing
    is yielded for a [top] that is no directory. *)
Fixpoint walk_tree (top : string) (n : node)
  : list (string * list string * list string) :=
  match n with
  | File _ => []
  | Dir entries =>
      (top, dirnames entries, filenames entries)
      :: flat_map (fun e => if is_dir (snd e)
                            then walk_tree (posixpath.join top (fst e)) (snd e)
                            else [])
                  entries
  end.

(** The regular files below [top], with their paths and contents, and the
    directories below [top] (itself excluded). *)
Fixpoint files_below (top : string) (n : node) : list (string * bytes) :=
  match n with
  | File _ => []
  | Dir entries =>
      flat_map (fun e => match snd e with
                         | File content => [(posixpath.join top (fst e), content)]
                         | Dir _ => files_below (posixpath.join top (fst e)) (snd e)
                         end)
               entries
  end.

Fixpoint dirs_below (top : string) (n : node) : list string :=
  match n with
  | File _ => []
  | Dir entries =>
      flat_map (fun e => match snd e with
                         | File _ => []
                         | Dir _ => posixpath.join top (fst e)
                                    :: dirs_below (posixpath.join top (fst e)) (snd e)
                         end)
               entries
  end.

(** Everything below [top], files and directories, in the order of the
    entries, each with whether it is a directory. *)
Fixpoint all_below (top : string) (n : node) : list (string * bool) :=
  match n with
  | File _ => []
  | Dir entries =>
      flat_map (fun e => (posixpath.join top (fst e), is_dir (snd e))
                         :: all_below (posixpath.join top (fst e)) (snd e))
               entries
  end.

(** [syncs_in_turn h cfg cwd paths w t w']: from [w], one call of
    [sync_file] on each path of [paths], in that order and each returning,
    leaves the trace [t] and the world [w']. *)
Inductive syncs_in_turn {W : Type} (h : platform W) (cfg : config) (cwd : string)
  : list string -> W -> trace -> W -> Prop :=
| no_sync (w : W) : syncs_in_turn h cfg cwd [] w [] w
| sync_then (file_path : string) (paths : list string) (w w1 w2 : W) (t1 t2 : trace) :
    run h (sync_file cfg cwd file_path) w = (Returned tt, w1, t1) ->
    syncs_in_turn h cfg cwd paths w1 t2 w2 ->
    syncs_in_turn h cfg cwd (file_path :: paths) w (t1 ++ t2) w2.

(** A file name: not empty, without a separator. *)
Definition valid_name (name : string) : bool :=
  Str.truthy name && negb (Str.contains "/" name).

(** A directory lists no name twice, and only file names. *)
Fixpoint well_formed (n : node) : Prop :=
  match n with
  | File _ => True
  | Dir entries =>
      NoDup (map fst entries)
      /\ Forall (fun e => valid_name (fst e) = true) entries
      /\ (fix each (es : list (string * node)) : Prop :=
            match es with
            | [] => True
            | e :: rest => well_formed (snd e) /\ each rest
            end) entries
  end.

(** *** Paths below a directory *)

(** What [join] puts before a relative name. *)
Definition dir_prefix (top : string) : string :=
  if negb (Str.truthy top) || Str.endswith_sep top then top else (top ++ "/")%string.

Definition no_sep (s : string) : Prop := Str.contains "/" s = false.

(** Where a name ends: at the end of the path, or at a separator. *)
Definition at_boundary (s : string) : Prop :=
  s = "" \/ exists r, s = ("/" ++ r)%string.

(** What the entry [e] of the directory [top] contributes. *)
Definition block (top : string) (e : string * node) : list (string * bool) :=
  (posixpath.join top (fst e), is_dir (snd e)) :: all_below (posixpath.join top (fst e)) (snd e).

(** ** A reference platform

    A platform in memory, to run the daemon on: volumes that mount as they
    are told to, a remote store that keeps what is copied into it, and a
    local tree.  Nothing changes in it but through the daemon's calls. *)

Module Mem.

(** What a volume does when asked to mount. *)
Inductive mount_behaviour :=
| mounts_fine                 (* mount_finish returns True; the volume is mounted *)
| finish_false                (* mount_finish returns False *)
| finish_raises (e : exn)     (* mount_finish raises *)
| mount_raises (e : exn).     (* volume.mount itself raises *)

Record volume_state := Volume {
  vol_identifiers : list (string * string);   (* kind, value *)
  vol_root_uri : string;
  vol_mounted : bool;
  vol_on_mount : mount_behaviour
}.

Record world := World {
  volumes : list volume_state;
  remote_files : list (string * bytes);       (* URI, content *)
  remote_dirs : list string;
  unreadable : list string;                   (* remote files whose read fails *)
  local_top : string;
  local_tree : node;
  pending : option volume;                    (* the mount operation in flight *)
  log_file : list (level * string)
}.

Definition with_volumes (w : world) (vs : list volume_state) : world :=
  World vs (remote_files w) (remote_dirs w) (unreadable w)
        (local_top w) (local_tree w) (pending w) (log_file w).

Definition with_remote (w : world) (files : list (string * bytes))
           (dirs : list string) : world :=
  World (volumes w) files dirs (unreadable w)
        (local_top w) (local_tree w) (pending w) (log_file w).

Definition with_pending (w : world) (p : option volume) : world :=
  World (volumes w) (remote_files w) (remote_dirs w) (unreadable w)
        (local_top w) (local_tree w) p (log_file w).

Definition with_log (w : world) (l : list (level * string)) : world :=
  World (volumes w) (remote_files w) (remote_dirs w) (unreadable w)
        (local_top w) (local_tree w) (pending w) l.

Definition no_volume : volume_state := Volume [] "" false finish_false.

Definition mounted_handles (vs : list volume_state) : list mount :=
  filter (fun i => vol_mounted (nth i vs no_volume)) (seq 0 (length vs)).

Fixpoint lookup {A : Type} (key : string) (l : list (string * A)) : option A :=
  match l with
  | [] => None
  | (k, a) :: rest => if String.eqb k key then Some a else lookup key rest
  end.

Fixpoint remove_key {A : Type} (key : string) (l : list (string * A))
  : list (string * A) :=
  match l with
  | [] => []
  | (k, a) :: rest =>
      if String.eqb k key then remove_key key rest else (k, a) :: remove_key key rest
  end.

Definition mem (key : string) (l : list string) : bool :=
  existsb (String.eqb key) l.

Fixpoint set_mounted (i : nat) (vs : list volume_state) : list volume_state :=
  match vs, i with
  | [], _ => []
  | v :: rest, O =>
      Volume (vol_identifiers v) (vol_root_uri v) true (vol_on_mount v) :: rest
  | v :: rest, S i' => v :: set_mounted i' rest
  end.

(** The parent of a URI: the URI without its last segment; scheme and
    authority ([scheme://authority]) have none. *)
Definition uri_parent (uri : string) : option string :=
  let segments := Str.split_sep uri in
  if Nat.ltb 3 (length segments) then Some (Str.sep_join (removelast segments))
  else None.

Fixpoint uri_of (f : gfile) : string :=
  match f with
  | new_for_path path => "file://" ++ path
  | new_for_uri uri => uri
  | parent_of f' => match uri_parent (uri_of f') with Some p => p | None => "" end
  end.

Fixpoint ancestors (fuel : nat) (uri : string) : list string :=
  match fuel with
  | O => []
  | S fuel' =>
      match uri_parent uri with
      | Some p => p :: ancestors fuel' p
      | None => []
      end
  end.

(** The reads of a stream over [content]: chunks of [size] bytes. *)
Fixpoint chunks_of (fuel size : nat) (content : bytes) : list bytes :=
  match fuel, content with
  | S fuel', _ :: _ => firstn size content :: chunks_of fuel' size (skipn size content)
  | _, _ => []
  end.

Definition stream_of (content : bytes) : stream :=
  Stream (map Ok (chunks_of (length content) 4096 content)) (Ok tt).

Definition local_file (w : world) (path : string) : option bytes :=
  lookup path (files_below (local_top w) (local_tree w)).

Definition exists_remote (w : world) (uri : string) : bool :=
  match lookup uri (remote_files w) with
  | Some _ => true
  | None => mem uri (remote_dirs w)
  end.

(** Whether the parent of [uri], if it has one, is a directory there. *)
Definition in_directory (w : world) (uri : string) : bool :=
  match uri_parent uri with
  | Some parent => mem parent (remote_dirs w)
  | None => true
  end.

Definition gio : platform world :=
  fun X c =>
    match c in call X return world -> X * world with
    | get_mounts => fun w => (mounted_handles (volumes w), w)
    | get_root_uri m => fun w => (vol_root_uri (nth m (volumes w) no_volume), w)
    | get_volumes => fun w => (seq 0 (length (volumes w)), w)
    | enumerate_identifiers v => fun w =>
        (map fst (vol_identifiers (nth v (volumes w) no_volume)), w)
    | get_identifier v kind => fun w =>
        (match lookup kind (vol_identifiers (nth v (volumes w) no_volume)) with
         | Some value => value
         | None => ""
         end, w)
    | volume_mount v => fun w =>
        match vol_on_mount (nth v (volumes w) no_volume) with
        | mount_raises e => (Raise e, w)
        | _ => (Ok tt, with_pending w (Some v))
        end
    | loop_run => fun w =>
        (match pending w with Some v => v | None => 0 end, w)
    | mount_finish v r => fun w =>
        match vol_on_mount (nth r (volumes w) no_volume) with
        | mounts_fine => (Ok true, with_volumes w (set_mounted r (volumes w)))
        | finish_false => (Ok false, w)
        | finish_raises e => (Raise e, w)
        | mount_raises e => (Raise e, w)
        end
    | loop_quit => fun w => (tt, with_pending w None)
    | get_parent f => fun w =>
        (match uri_parent (uri_of f) with Some _ => true | None => false end, w)
    | get_uri f => fun w => (uri_of f, w)
    | query_exists f => fun w => (exists_remote w (uri_of f), w)
    | make_directory_with_parents f => fun w =>
        let uri := uri_of f in
        if exists_remote w uri then (Raise "Target file already exists", w)
        else (Ok tt,
              with_remote w (remote_files w)
                          (uri :: ancestors (String.length uri) uri ++ remote_dirs w))
    | file_read f => fun w =>
        match lookup (uri_of f) (remote_files w) with
        | Some content =>
            if mem (uri_of f) (unreadable w)
            then (Raise "Operation not supported", w)
            else (Ok (stream_of content), w)
        | None => (Raise "No such file or directory", w)
        end
    | file_delete f => fun w =>
        match lookup (uri_of f) (remote_files w) with
        | Some _ =>
            (Ok tt, with_remote w (remove_key (uri_of f) (remote_files w)) (remote_dirs w))
        | None => (Raise "No such file or directory", w)
        end
    | file_copy src dest => fun w =>
        match src with
        | new_for_path path =>
            match local_file w path with
            | Some content =>
                if mem (uri_of dest) (remote_dirs w)
                then (Raise "Target is a directory", w)
                else if in_directory w (uri_of dest)
                then (Ok tt,
                      with_remote w
                        ((uri_of dest, content) :: remove_key (uri_of dest) (remote_files w))
                        (remote_dirs w))
                else (Raise "No such file or directory", w)
            | None => (Raise "No such file or directory", w)
            end
        | _ => (Raise "Operation not supported", w)
        end
    | open_rb path => fun w =>
        match local_file w path with
        | Some content => (Ok (stream_of content), w)
        | None => (Raise "No such file or directory", w)
        end
    | os_walk top => fun w =>
        (if String.eqb top (local_top w) then walk_tree top (local_tree w) else [], w)
    | log lvl msg => fun w => (tt, with_log w (log_file w ++ [(lvl, msg)]))
    end.

(** Whether a mounted volume has the drive's root URI: what
    [is_drive_available] finds out. *)
Definition drive_available (cfg : config) (w : world) : bool :=
  existsb (fun m => is_google_drive_uri cfg (vol_root_uri (nth m (volumes w) no_volume)))
          (mounted_handles (volumes w)).

(** Only creating a directory, deleting and copying change the files. *)
Definition keeps_files (e : event) : bool :=
  match e with
  | E_make_directory_with_parents _ _ | E_file_delete _ _ | E_file_copy _ _ _ => false
  | _ => true
  end.

(** Only the callback's [mount_finish] changes what is mounted. *)
Definition keeps_volumes (e : event) : bool :=
  match e with E_mount_finish _ _ _ => false | _ => true end.

(** The files of two states are the same: remote store and local tree. *)
Definition same_files (w w' : world) : Prop :=
  remote_files w' = remote_files w
  /\ remote_dirs w' = remote_dirs w
  /\ unreadable w' = unreadable w
  /\ local_top w' = local_top w
  /\ local_tree w' = local_tree w.

(** The remote copy at [uri] holds the local content of [path], in a
    directory that is there. *)
Definition synced_state (w : world) (path uri : string) : Prop :=
  exists content,
    local_file w path = Some content
    /\ lookup uri (remote_files w) = Some content
    /\ in_directory w uri = true.

(** Two states differ at most in the remote store, the mount operation in
    flight and the log. *)
Definition same_setting (w w' : world) : Prop :=
  volumes w' = volumes w
  /\ unreadable w' = unreadable w
  /\ local_top w' = local_top w
  /\ local_tree w' = local_tree w.

End Mem.

(** ** Views used by the statements *)

(** The availability-and-mount check that opens both [sync_file] (lines
    143-146) and [sync_all_files] (lines 199-202): [true] when the drive
    is there, at once or after the mount attempt. *)
Definition availability_check (cfg : config) : Prog bool :=
  available <- is_drive_available cfg ;;
  if negb available then
    info "Google Drive not found. Attempting to mount..." ;;
    mount_google_drive cfg ;;
    is_drive_available cfg
  else Ret true.

(** Calls of the availability check and of the mount attempt: the volume
    monitor, the main loop and the log. *)
Definition is_volume_event (e : event) : bool :=
  match e with
  | E_get_mounts _ | E_get_root_uri _ _ | E_get_volumes _
  | E_enumerate_identifiers _ _ | E_get_identifier _ _ _
  | E_volume_mount _ _ | E_loop_run _ | E_mount_finish _ _ _
  | E_loop_quit | E_log _ _ => true
  | _ => false
  end.

Definition is_availability_query (e : event) : bool :=
  match e with E_get_mounts _ | E_get_root_uri _ _ => true | _ => false end.

(** Whether an availability check found the drive among the mounts it
    looked at. *)
Definition sees_drive (cfg : config) (t : trace) : bool :=
  existsb (fun e => match e with
                    | E_get_root_uri _ uri => is_google_drive_uri cfg uri
                    | _ => false
                    end) t.

(** The steps of a scan that has not found the drive yet: listing the
    identifiers of a volume, and reading one that is not the drive's. *)
Definition is_scan_step (cfg : config) (e : event) : bool :=
  match e with
  | E_enumerate_identifiers _ _ => true
  | E_get_identifier _ _ value => negb (is_google_drive_uri cfg value)
  | _ => false
  end.

(** What follows a mount request for [v] that produced [r]: the wait for
    the callback, which logs what [mount_finish] says and quits the loop;
    or, when the request itself raised, the error record. *)
Definition mount_resolution (v : volume) (r : result unit) (t : trace) : Prop :=
  match r with
  | Ok _ =>
      exists (a : async_result) (res : result bool),
        t = [E_loop_run a; E_mount_finish v a res;
             match res with
             | Ok true => E_log INFO "Google Drive mounted successfully."
             | Ok false => E_log ERROR "Failed to mount Google Drive."
             | Raise e => E_log ERROR ("Failed to mount Google Drive: " ++ e)
             end;
             E_loop_quit]
  | Raise e => t = [E_log ERROR ("Failed to mount Google Drive: " ++ e)]
  end.

(** The volumes whose identifiers a run listed, with the kinds listed, and
    the identifiers it read, in the order of the calls. *)
Definition listed_kinds (t : trace) : list (volume * list string) :=
  flat_map (fun e => match e with
                     | E_enumerate_identifiers v kinds => [(v, kinds)]
                     | _ => []
                     end) t.

Definition identifiers_read (t : trace) : list (volume * string) :=
  flat_map (fun e => match e with
                     | E_get_identifier v kind _ => [(v, kind)]
                     | _ => []
                     end) t.

Definition prefix_of {A : Type} (l1 l2 : list A) : Prop :=
  exists rest, l2 = l1 ++ rest.

(** A scan that ends in a mount request: fruitless steps, then the
    identifier of [v] that is the drive's, the request to mount [v], and
    its resolution. *)
Definition scan_with_mount (cfg : config) (t : trace) : Prop :=
  exists scan v kind value r rest,
    t = scan ++ E_get_identifier v kind value :: E_volume_mount v r :: rest
    /\ forallb (is_scan_step cfg) scan = true
    /\ is_google_drive_uri cfg value = true
    /\ mount_resolution v r rest.

(** The identifiers a scan reads, from the volumes it listed. *)
Definition kinds_in_order (listed : list (volume * list string)) : list (volume * string) :=
  flat_map (fun '(v, kinds) => map (pair v) kinds) listed.

(** ** The runs of a single-file sync, exit by exit *)

Definition hash_value (digest : result string) : string :=
  match digest with Ok d => d | Raise _ => "" end.

(** The calls of [get_remote_file_hash] and of [compute_file_hash], given
    what opening the file produced. *)
Definition remote_hash_trace (dest_file : gfile) (opened : result stream) : trace :=
  E_file_read dest_file opened
  :: match remote_digest opened with
     | Ok _ => []
     | Raise e => [E_log ERROR ("Failed to compute remote file hash: " ++ e)]
     end.

Definition local_hash_trace (file_path : string) (opened : result stream) : trace :=
  E_open_rb file_path opened
  :: match local_digest opened with
     | Ok _ => []
     | Raise e => [E_log ERROR ("Failed to compute local file hash: " ++ e)]
     end.

(** The test of line 175 on the two hashes. *)
Definition hashes_agree (remote_opened local_opened : result stream) : bool :=
  let remote_hash := hash_value (remote_digest remote_opened) in
  let local_hash := hash_value (local_digest local_opened) in
  Str.truthy remote_hash && String.eqb remote_hash local_hash.

Section Exits.

Variables file_path drive_file_path : string.

Let src_file := new_for_path file_path.
Let dest_file := new_for_uri drive_file_path.
Let parent_dir := parent_of dest_file.

Definition synced_record : event :=
  E_log INFO ("Synced: " ++ file_path ++ " -> " ++ drive_file_path).

Definition copy_failed_record (e : exn) : event :=
  E_log WARNING ("Failed to copy " ++ file_path ++ " to " ++ drive_file_path ++ ": " ++ e).

Definition skipping_record : event :=
  E_log INFO ("Skipping " ++ file_path ++ ": No changes detected.").

(** The exits of lines 172-193, each with the outcome the specification
    names for it. *)
Inductive transfer_trace : trace -> SyncOutcome -> Prop :=
| transfer_created (u : unit) :
    transfer_trace
      [E_query_exists dest_file false; E_file_copy src_file dest_file (Ok u);
       synced_record]
      created
| transfer_create_failed (e : exn) :
    transfer_trace
      [E_query_exists dest_file false; E_file_copy src_file dest_file (Raise e);
       copy_failed_record e]
      (failed copy_error)
| transfer_unchanged (remote_opened local_opened : result stream) :
    hashes_agree remote_opened local_opened = true ->
    transfer_trace
      (E_query_exists dest_file true
       :: remote_hash_trace dest_file remote_opened
       ++ local_hash_trace file_path local_opened
       ++ [skipping_record])
      skipped_no_change
| transfer_delete_failed (remote_opened local_opened : result stream) (e : exn) :
    hashes_agree remote_opened local_opened = false ->
    transfer_trace
      (E_query_exists dest_file true
       :: remote_hash_trace dest_file remote_opened
       ++ local_hash_trace file_path local_opened
       ++ [E_file_delete dest_file (Raise e);
           E_log ERROR ("Failed to delete existing file " ++ drive_file_path ++ ": " ++ e)])
      (failed delete_error)
| transfer_replaced (remote_opened local_opened : result stream) (u u' : unit) :
    hashes_agree remote_opened local_opened = false ->
    transfer_trace
      (E_query_exists dest_file true
       :: remote_hash_trace dest_file remote_opened
       ++ local_hash_trace file_path local_opened
       ++ [E_file_delete dest_file (Ok u);
           E_log INFO ("Deleted existing file: " ++ drive_file_path);
           E_file_copy src_file dest_file (Ok u'); synced_record])
      replaced
| transfer_replace_failed (remote_opened local_opened : result stream) (u : unit) (e : exn) :
    hashes_agree remote_opened local_opened = false ->
    transfer_trace
      (E_query_exists dest_file true
       :: remote_hash_trace dest_file remote_opened
       ++ local_hash_trace file_path local_opened
       ++ [E_file_delete dest_file (Ok u);
           E_log INFO ("Deleted existing file: " ++ drive_file_path);
           E_file_copy src_file dest_file (Raise e); copy_failed_record e])
      (failed copy_error).

(** The exits of lines 157-193: the parent directory, then the
    transfer. *)
Inductive body_trace : trace -> SyncOutcome -> Prop :=
| body_at_root (t : trace) (o : SyncOutcome) :
    transfer_trace t o ->
    body_trace (E_get_parent dest_file false :: t) o
| body_parent_there (t : trace) (o : SyncOutcome) :
    transfer_trace t o ->
    body_trace (E_get_parent dest_file true :: E_query_exists parent_dir true :: t) o
| body_parent_created (u : unit) (uri : string) (t : trace) (o : SyncOutcome) :
    transfer_trace t o ->
    body_trace
      (E_get_parent dest_file true :: E_query_exists parent_dir false
       :: E_make_directory_with_parents parent_dir (Ok u)
       :: E_get_uri parent_dir uri
       :: E_log INFO ("Created parent directory: " ++ uri) :: t)
      o
| body_parent_failed (e : exn) (uri : string) :
    body_trace
      [E_get_parent dest_file true; E_query_exists parent_dir false;
       E_make_directory_with_parents parent_dir (Raise e);
       E_get_uri parent_dir uri;
       E_log WARNING ("Failed to create parent directory " ++ uri ++ ": " ++ e)]
      (failed parent_dir_error).

End Exits.

(** What comes before the transfer in a run of [sync_file]: the calls of
    the availability check, then those on the parent directory. *)
Definition is_prelude (e : event) : bool :=
  is_volume_event e
  || match e with
     | E_get_parent _ _ | E_query_exists (parent_of _) _
     | E_make_directory_with_parents _ _ | E_get_uri _ _ => true
     | _ => false
     end.

(** ** The remote addressing scheme *)

(** The scheme as the specification words it:
    [<provider-scheme>://<accountId>/<remoteRoot>/<relativePath>], with the
    leading separators of the relative path stripped. *)
Definition spec_remote_target (cfg : config) (rel_path : string) : string :=
  GOOGLE_DRIVE_PREFIX ++ DRIVE_USER cfg ++ "/" ++ GOOGLE_DRIVE_FOLDER cfg ++ "/"
  ++ Str.lstrip_sep rel_path.

(** The [Gio.File] on the drive that a call addresses. *)
Definition remote_file_of (e : event) : option gfile :=
  match e with
  | E_get_parent f _ | E_get_uri f _ | E_query_exists f _
  | E_make_directory_with_parents f _ | E_file_read f _
  | E_file_delete f _ | E_file_copy _ f _ => Some f
  | _ => None
  end.

(** The configuration of the specification's example, and the same with
    the remote root written as an absolute path. *)
Definition example_config : config := Config "/home/u/docs" "sync/docs" "u@example".
Definition rooted_config : config := Config "/home/u/docs" "/sync/docs" "u@example".

(** ** The watcher and the screen saver signal *)

(** A [watchdog] event as the handlers read it. *)
Record FileSystemEvent := Event {
  is_directory : bool;
  src_path : string;
  dest_path : string
}.

Module SyncHandler.

Section Handlers.

Variable cfg : config.
Variable cwd : string.

Definition on_moved (event : FileSystemEvent) : Prog unit :=
  if negb (is_directory event) then sync_file cfg cwd (dest_path event) else Ret tt.

Definition on_modified (event : FileSystemEvent) : Prog unit :=
  if negb (is_directory event) then sync_file cfg cwd (src_path event) else Ret tt.

Definition on_created (event : FileSystemEvent) : Prog unit :=
  if negb (is_directory event) then sync_file cfg cwd (src_path event) else Ret tt.

End Handlers.

End SyncHandler.

(** [key in d] and [d[key]] on the [changed_properties] of a
    [g-properties-changed] signal, each property with the truth value of
    its new value. *)
Fixpoint changed (key : string) (d : list (string * bool)) : option bool :=
  match d with
  | [] => None
  | (k, v) :: rest => if String.eqb k key then Some v else changed key rest
  end.

Definition on_screen_locked (cfg : config) (cwd : string)
           (changed_properties : list (string * bool)) : Prog unit :=
  match changed "Active" changed_properties with
  | Some true =>
      info "Screen locked. Performing a full sync..." ;;
      sync_all_files cfg cwd
  | _ => Ret tt
  end.

(** ** Loading the configuration *)

(** A value of the parsed configuration, as [load_config] looks at it:
    [None], a string, or something else, of which only the name of its
    type and its truth value matter. *)
Inductive pyvalue :=
| PyNone
| PyStr (s : string)
| PyOther (type_name : string) (truth : bool).

Definition py_truth (v : pyvalue) : bool :=
  match v with
  | PyNone => false
  | PyStr s => Str.truthy s
  | PyOther _ truth => truth
  end.

(** What [open(CONFIG_PATH)] and [json.load] come to. *)
Inductive config_source :=
| no_such_file (msg : string)     (* FileNotFoundError *)
| cannot_open (e : exn)           (* any other exception of open *)
| not_json (msg : string)         (* JSONDecodeError, or another ValueError *)
| json_other (type_name : string) (* a document that is no object *)
| json_object (members : list (string * pyvalue)).

(** [config.get(key)] *)
Fixpoint dict_get (key : string) (members : list (string * pyvalue)) : pyvalue :=
  match members with
  | [] => PyNone
  | (k, v) :: rest => if String.eqb k key then v else dict_get key rest
  end.

Definition SystemExit (status : string) : exn := ("SystemExit: " ++ status)%string.

(** [expanduser] on a value: only a string is a path. *)
Definition expanduser_value (env : posixpath.environment) (v : pyvalue) : result string :=
  match v with
  | PyStr s => Ok (posixpath.expanduser env s)
  | PyNone => Raise "TypeError: expected str, bytes or os.PathLike object, not NoneType"
  | PyOther type_name _ =>
      Raise ("TypeError: expected str, bytes or os.PathLike object, not " ++ type_name)%string
  end.

(** [load_config], from what opening and parsing the file came to.  The
    [except] clause catches [FileNotFoundError], [JSONDecodeError] and
    [ValueError]; [exit(1)] raises [SystemExit]. *)
Definition load_config (env : posixpath.environment) (source : config_source)
  : Prog (string * string * pyvalue) :=
  match source with
  | no_such_file msg => error ("Configuration error: " ++ msg)%string ;; Throw (SystemExit "1")
  | cannot_open e => Throw e
  | not_json msg => error ("Configuration error: " ++ msg)%string ;; Throw (SystemExit "1")
  | json_other type_name =>
      Throw ("AttributeError: '" ++ type_name ++ "' object has no attribute 'get'")%string
  | json_object members =>
      let source_folder := dict_get "source_folder" members in
      let destination_folder := dict_get "destination_folder" members in
      let drive_user := dict_get "drive_user" members in
      if negb (py_truth source_folder) || negb (py_truth destination_folder)
         || negb (py_truth drive_user)
      then
        error ("Configuration error: Missing required configuration values: "
               ++ "source_folder, destination_folder, and drive_user")%string ;;
        Throw (SystemExit "1")
      else
        match expanduser_value env source_folder with
        | Raise e => Throw e
        | Ok local_folder =>
            match expanduser_value env destination_folder with
            | Raise e => Throw e
            | Ok drive_folder => Ret (local_folder, drive_folder, drive_user)
            end
        end
  end.

(** The three names [load_config] asks for. *)
Definition required_keys : list string :=
  ["source_folder"; "destination_folder"; "drive_user"].

(** ** Files below the local folder *)

(** A name that a directory can list: a file name other than [.] and
    [..]. *)
Definition proper_name (name : string) : bool :=
  valid_name name && negb (String.eqb name ".") && negb (String.eqb name "..").

(** A tree all of whose names are proper. *)
Fixpoint proper_names (n : node) : Prop :=
  match n with
  | File _ => True
  | Dir entries =>
      Forall (fun e => proper_name (fst e) = true) entries
      /\ (fix each (es : list (string * node)) : Prop :=
            match es with
            | [] => True
            | e :: rest => proper_names (snd e) /\ each rest
            end) entries
  end.

(** The URI below which the targets lie: the account, then the remote
    folder. *)
Definition remote_base (cfg : config) : string :=
  GOOGLE_DRIVE_PREFIX ++ DRIVE_USER cfg ++ "/"
  ++ Str.lstrip_sep (dir_prefix (GOOGLE_DRIVE_FOLDER cfg)).

(** The regular files of a tree, each with the names that lead to it. *)
Fixpoint file_comps (n : node) : list (list string * bytes) :=
  match n with
  | File _ => []
  | Dir entries =>
      flat_map (fun e => match snd e with
                         | File content => [([fst e], content)]
                         | Dir _ => map (fun cc => (fst e :: fst cc, snd cc))
                                        (file_comps (snd e))
                         end)
               entries
  end.

(** The remote target of a local path. *)
Definition target_of (cfg : config) (cwd path : string) : string :=
  match posixpath.relpath cwd path (LOCAL_FOLDER cfg) with
  | Ok rel_path => drive_file_path_of cfg rel_path
  | Raise _ => ""
  end.

(** The directories that [make_directory_with_parents] makes for a target
    on the reference platform: its parent, and the ancestors of that. *)
Definition uri_ancestors (uri : string) : list string :=
  match Mem.uri_parent uri with
  | Some parent => parent :: Mem.ancestors (String.length parent) parent
  | None => []
  end.

(** What holds between two syncs of a pass that started in [w0]: the
    files synced so far are on the drive, each in a directory; every other
    remote file is as it was; and the directories made lie above
    targets. *)
Definition uploaded (cfg : config) (cwd : string) (w0 w : Mem.world)
           (done : list string) : Prop :=
  Mem.same_setting w0 w
  /\ (forall uri, (forall path, In path done -> uri <> target_of cfg cwd path) ->
                  Mem.lookup uri (Mem.remote_files w) = Mem.lookup uri (Mem.remote_files w0))
  /\ (forall path content,
         In path done ->
         In (path, content) (files_below (LOCAL_FOLDER cfg) (Mem.local_tree w0)) ->
         Mem.lookup (target_of cfg cwd path) (Mem.remote_files w) = Some content)
  /\ (forall d, In d (Mem.remote_dirs w) ->
                In d (Mem.remote_dirs w0)
                \/ exists path content,
                     In (path, content) (files_below (LOCAL_FOLDER cfg) (Mem.local_tree w0))
                     /\ In d (uri_ancestors (target_of cfg cwd path)))
  /\ (forall path, In path done -> Mem.in_directory w (target_of cfg cwd path) = true).

(** The count of leading slashes that [normpath] keeps. *)
Definition initial_slashes (path : string) : nat :=
  if Str.startswith path "/" then
    if Str.startswith path "//" && negb (Str.startswith path "///") then 2 else 1
  else 0.

(** What [abspath] normalizes. *)
Definition anchored (cwd path : string) : string :=
  if posixpath.isabs path then path else posixpath.join cwd path.

(** ** More views of a run *)

(** The root URIs an availability check read, mount by mount. *)
Definition root_uri_reads (read : list (mount * string)) : trace :=
  map (fun mu => E_get_root_uri (fst mu) (snd mu)) read.

(** The test of line 61 failing on what was read for a mount. *)
Definition not_the_drive (cfg : config) (mu : mount * string) : bool :=
  negb (is_google_drive_uri cfg (snd mu)).

(** The error records of a mount that did not succeed. *)
Definition is_mount_error (e : event) : bool :=
  match e with
  | E_log ERROR msg => Str.startswith msg "Failed to mount Google Drive"
  | _ => false
  end.

Definition is_make_directory (e : event) : bool :=
  match e with E_make_directory_with_parents _ _ => true | _ => false end.

(** A stream that delivers [chunks] one after the other and closes. *)
Definition stream_over (chunks : list bytes) : stream :=
  Stream (map Ok chunks) (Ok tt).

(** The URI at which a call changes the remote files of the reference
    platform: a delete or a copy that succeeded. *)
Definition written_uri (e : event) : option string :=
  match e with
  | E_file_delete f (Ok _) => Some (Mem.uri_of f)
  | E_file_copy _ dest (Ok _) => Some (Mem.uri_of dest)
  | _ => None
  end.

(** Whether one of the identifiers of a volume, as [get_identifier] gives
    them, is the drive's. *)
Definition volume_matches (cfg : config) (v : Mem.volume_state) : bool :=
  existsb (fun kind => is_google_drive_uri cfg
                         match Mem.lookup kind (Mem.vol_identifiers v) with
                         | Some value => value
                         | None => ""
                         end)
          (map fst (Mem.vol_identifiers v)).

(** Whether some volume that the monitor lists, mounted or not, has an
    identifier that is the drive's. *)
Definition some_volume_matches (cfg : config) (w : Mem.world) : bool :=
  existsb (volume_matches cfg) (Mem.volumes w).

(** No volume that is known but not mounted has an identifier that is the
    drive's. *)
Definition no_unmounted_volume_matches (cfg : config) (w : Mem.world) : bool :=
  forallb (fun v => Mem.vol_mounted v || negb (volume_matches cfg v)) (Mem.volumes w).

(** ** Sample states of the reference platform *)

Module Samples.
Import Mem.

Definition hello : bytes := list_byte_of_string "hello".
Definition hello_again : bytes := list_byte_of_string "hello, again".

(** [/home/u/docs] with [a/b.txt] in it. *)
Definition docs : node := Dir [("a", Dir [("b.txt", File hello)])].

Definition drive (mounted : bool) (on_mount : mount_behaviour) : volume_state :=
  Volume [("class", "network"); ("uuid", "google-drive://u@example/")]
         "google-drive://u@example/" mounted on_mount.

Definition usb_stick : volume_state :=
  Volume [("unix-device", "/dev/sdb1"); ("label", "STICK")] "file:///media/u/STICK"
         true mounts_fine.

(** The drive mounted, nothing on it yet. *)
Definition fresh : world :=
  World [usb_stick; drive true mounts_fine] [] ["google-drive://u@example"] []
        "/home/u/docs" docs None [].

(** The drive mounted, [a/b.txt] on it with the local content. *)
Definition in_sync : world :=
  World [usb_stick; drive true mounts_fine]
        [("google-drive://u@example/sync/docs/a/b.txt", hello)]
        ["google-drive://u@example/sync/docs/a"; "google-drive://u@example/sync/docs";
         "google-drive://u@example/sync"; "google-drive://u@example"] []
        "/home/u/docs" docs None [].

(** The same with other content on the drive, and with content there that
    cannot be read. *)
Definition stale : world :=
  with_remote in_sync [("google-drive://u@example/sync/docs/a/b.txt", hello_again)]
              (remote_dirs in_sync).

(** The same with a second file on the drive, [a/c.txt], which is not in
    the local folder. *)
Definition stale_beside : world :=
  with_remote in_sync [("google-drive://u@example/sync/docs/a/b.txt", hello_again);
                       ("google-drive://u@example/sync/docs/a/c.txt", hello)]
              (remote_dirs in_sync).

Definition unreadable_copy : world :=
  World (volumes in_sync) (remote_files in_sync) (remote_dirs in_sync)
        ["google-drive://u@example/sync/docs/a/b.txt"]
        (local_top in_sync) (local_tree in_sync) None [].

(** The drive known but not mounted, mounting as told; and no drive
    known at all. *)
Definition unmounted (on_mount : mount_behaviour) : world :=
  World [usb_stick; drive false on_mount] [] ["google-drive://u@example"] []
        "/home/u/docs" docs None [].

Definition no_drive : world :=
  World [usb_stick] [] [] [] "/home/u/docs" docs None [].

Definition b_txt : string := "/home/u/docs/a/b.txt".

(** A process environment with [$HOME] set, and two configuration files:
    a complete one, and one without [drive_user]. *)
Definition home_env : posixpath.environment :=
  posixpath.Env (Some "/home/u/") None (fun _ => None).

Definition complete_file : config_source :=
  json_object [("source_folder", PyStr "~/docs"); ("destination_folder", PyStr "sync/docs");
               ("drive_user", PyStr "u@example"); ("interval", PyOther "int" true)].

Definition incomplete_file : config_source :=
  json_object [("source_folder", PyStr "~/docs"); ("destination_folder", PyStr "sync/docs");
               ("drive_user", PyStr "")].

(** [/home/u/docs] with [a/b.txt] and [c.txt] in it. *)
Definition two_files : node :=
  Dir [("a", Dir [("b.txt", File hello)]); ("c.txt", File hello_again)].

(** The drive mounted with nothing on it, and the two files to sync. *)
Definition two_fresh : world :=
  World [usb_stick; drive true mounts_fine] [] ["google-drive://u@example"] []
        "/home/u/docs" two_files None [].

(** An editor's atomic save of [a/b.txt]. *)
Definition saved : FileSystemEvent :=
  Event false "/home/u/docs/a/.b.txt.tmp" b_txt.

End Samples.

(** * Properties *)

#[local] Arguments is_drive_available : simpl never.
#[local] Arguments on_mount_done : simpl never.
#[local] Arguments mount_google_drive : simpl never.
#[local] Arguments get_remote_file_hash : simpl never.
#[local] Arguments compute_file_hash : simpl never.
#[local] Arguments sync_file_copy : simpl never.
#[local] Arguments sync_file_transfer : simpl never.
#[local] Arguments sync_file_body : simpl never.
#[local] Arguments sync_file : simpl never.
#[local] Arguments sync_all_files_walk : simpl never.
#[local] Arguments sync_all_files : simpl never.
#[local] Arguments availability_check : simpl never.
#[local] Arguments hashlib.sha256_hexdigest : simpl never.
#[local] Arguments posixpath.relpath : simpl never.
#[local] Arguments posixpath.join : simpl never.
#[local] Arguments drive_file_path_of : simpl never.

Ltac step := cbn [run bind perform observe info warning error].

(** ** Running programs *)

Section Running.

Context {W : Type} (h : platform W).

Lemma run_bind {A B : Type} (p : Prog A) (f : A -> Prog B) (w : W) :
  run h (bind p f) w =
  match run h p w with
  | (Returned a, w1, t1) =>
      let '(r, w2, t2) := run h (f a) w1 in (r, w2, t1 ++ t2)
  | (Raised e, w1, t1) => (Raised e, w1, t1)
  end.
Proof.
  revert w. induction p as [a | e | X c k IH]; intros w; simpl.
  - destruct (run h (f a) w) as [[r w2] t2]. reflexivity.
  - reflexivity.
  - destruct (h X c w) as [x w1]. rewrite IH.
    destruct (run h (k x) w1) as [[[a | e] w2] t1].
    + destruct (run h (f a) w2) as [[r w3] t2]. reflexivity.
    + reflexivity.
Qed.

Lemma run_bind_assoc {A B C : Type} (p : Prog A) (f : A -> Prog B) (g : B -> Prog C)
      (w : W) :
  run h (bind (bind p f) g) w = run h (bind p (fun x => bind (f x) g)) w.
Proof.
  revert w. induction p as [a | e | X c k IH]; intros w; cbn [bind run].
  - reflexivity.
  - reflexivity.
  - destruct (h X c w) as [x w1]. rewrite IH. reflexivity.
Qed.

Lemma run_perform {X : Type} (c : call X) (w : W) :
  run h (perform c) w = (Returned (fst (h X c w)), snd (h X c w), [observe c (fst (h X c w))]).
Proof. unfold perform. simpl. destruct (h X c w). reflexivity. Qed.

End Running.

(** ** The availability check and the mount attempt, on any platform *)

Section Gate.

Context {W : Type} (h : platform W) (cfg : config).

Lemma is_drive_available_loop_run (mounts : list mount) (w : W) :
  exists w1 t,
    run h (is_drive_available_loop cfg mounts) w = (Returned (sees_drive cfg t), w1, t)
    /\ forallb is_availability_query t = true.
Proof.
  revert w. induction mounts as [| m rest IH]; intros w.
  - exists w, []. split; reflexivity.
  - simpl. destruct (h string (get_root_uri m) w) as [uri w1].
    destruct (is_google_drive_uri cfg uri) eqn:Huri.
    + exists w1, [E_get_root_uri m uri]. simpl. rewrite Huri. split; reflexivity.
    + destruct (IH w1) as (w2 & t & Hrun & Hq). rewrite Hrun.
      exists w2, (E_get_root_uri m uri :: t). simpl. rewrite Huri. simpl.
      split; [reflexivity | exact Hq].
Qed.

Lemma is_drive_available_run (w : W) :
  exists w1 t,
    run h (is_drive_available cfg) w = (Returned (sees_drive cfg t), w1, t)
    /\ forallb is_availability_query t = true.
Proof.
  unfold is_drive_available. simpl.
  destruct (h _ get_mounts w) as [ms w0].
  destruct (is_drive_available_loop_run ms w0) as (w1 & t & Hrun & Hq).
  rewrite Hrun. exists w1, (E_get_mounts ms :: t). split; [reflexivity | exact Hq].
Qed.

End Gate.

Section Mounting.

Context {W : Type} (h : platform W) (cfg : config).

Lemma mount_resolution_volume_events v r t :
  mount_resolution v r t ->
  forallb is_volume_event t = true
  /\ filter is_mount_request t = []
  /\ listed_kinds t = [] /\ identifiers_read t = []
  /\ forallb (fun e => negb (is_availability_query e)) t = true.
Proof.
  destruct r as [u | e]; simpl.
  - intros (a & res & ->). destruct res as [[|] | e]; repeat split; reflexivity.
  - intros ->. repeat split; reflexivity.
Qed.

Lemma on_mount_done_run v a (w : W) :
  exists w1 res,
    run h (on_mount_done v a) w
    = (Returned tt, w1,
       [E_mount_finish v a res;
        match res with
        | Ok true => E_log INFO "Google Drive mounted successfully."
        | Ok false => E_log ERROR "Failed to mount Google Drive."
        | Raise e => E_log ERROR ("Failed to mount Google Drive: " ++ e)
        end;
        E_loop_quit]).
Proof.
  unfold on_mount_done. simpl.
  destruct (h _ (mount_finish v a) w) as [res w1].
  destruct res as [[|] | e]; simpl;
    match goal with |- context [h unit (log ?l ?m) ?w] =>
      destruct (h unit (log l m) w) as [[] w2] end;
    destruct (h unit loop_quit w2) as [[] w3].
  - exists w3, (Ok true). reflexivity.
  - exists w3, (Ok false). reflexivity.
  - exists w3, (Raise e). reflexivity.
Qed.

Lemma scan_step_facts scan :
  forallb (is_scan_step cfg) scan = true ->
  forallb is_volume_event scan = true
  /\ filter is_mount_request scan = []
  /\ forallb (fun e => negb (is_availability_query e)) scan = true.
Proof.
  induction scan as [| e scan IH]; simpl; [intros _; repeat split |].
  intros H. apply andb_true_iff in H as [He H]. destruct (IH H) as (H1 & H2 & H3).
  destruct e; simpl in *; try discriminate; rewrite ?H1, ?H2, ?H3; repeat split.
Qed.

Lemma mount_identifiers_run v (identifiers : list string) (w : W) :
  exists returned w1 t,
    run h (mount_identifiers cfg v identifiers) w = (Returned returned, w1, t)
    /\ listed_kinds t = []
    /\ prefix_of (identifiers_read t) (map (pair v) identifiers)
    /\ (returned = false ->
        forallb (is_scan_step cfg) t = true
        /\ identifiers_read t = map (pair v) identifiers)
    /\ (returned = true -> scan_with_mount cfg t).
Proof.
  revert w. induction identifiers as [| kind rest IH]; intros w.
  - exists false, w, []. simpl. repeat split; try discriminate.
    exists []. reflexivity.
  - cbn [mount_identifiers run bind perform observe]. destruct (h _ (get_identifier v kind) w) as [value w1].
    destruct (is_google_drive_uri cfg value) eqn:Hvalue.
    + cbn [run bind perform observe]. destruct (h _ (volume_mount v) w1) as [r w2].
      assert (Hshape : forall rest', mount_resolution v r rest' ->
                listed_kinds (E_get_identifier v kind value :: E_volume_mount v r :: rest') = []
                /\ prefix_of (identifiers_read
                                (E_get_identifier v kind value :: E_volume_mount v r :: rest'))
                             (map (pair v) (kind :: rest))
                /\ scan_with_mount cfg
                     (E_get_identifier v kind value :: E_volume_mount v r :: rest')).
      { intros rest' Hres.
        destruct (mount_resolution_volume_events _ _ _ Hres) as (_ & _ & Hl & Hi & _).
        repeat split.
        - simpl. exact Hl.
        - simpl. rewrite Hi. exists (map (pair v) rest). reflexivity.
        - exists [], v, kind, value, r, rest'. repeat split; auto. }
      destruct r as [u | e]; cbn [run bind perform observe error].
      * destruct (h _ loop_run w2) as [a w3]. rewrite run_bind.
        destruct (on_mount_done_run v a w3) as (w4 & res & Hdone). rewrite Hdone.
        cbn [run app].
        destruct (Hshape [E_loop_run a; E_mount_finish v a res;
                          match res with
                          | Ok true => E_log INFO "Google Drive mounted successfully."
                          | Ok false => E_log ERROR "Failed to mount Google Drive."
                          | Raise e => E_log ERROR ("Failed to mount Google Drive: " ++ e)
                          end; E_loop_quit]) as (H1 & H2 & H3).
        { simpl. eauto. }
        eexists true, w4, _. split; [reflexivity |].
        repeat split; auto; discriminate.
      * destruct (h _ (log ERROR ("Failed to mount Google Drive: " ++ e)) w2) as [[] w3].
        destruct (Hshape [E_log ERROR ("Failed to mount Google Drive: " ++ e)])
          as (H1 & H2 & H3); [reflexivity |].
        eexists true, w3, _. split; [reflexivity |].
        repeat split; auto; discriminate.
    + destruct (IH w1) as (b & w2 & t & Hrun & Hl & Hp & Hfalse & Htrue).
      rewrite Hrun. exists b, w2, (E_get_identifier v kind value :: t).
      split; [reflexivity |]. split; [exact Hl |]. split; [| split].
      * destruct Hp as [more Hp]. exists more. simpl. rewrite Hp. reflexivity.
      * intros Hb. destruct (Hfalse Hb) as [Hs Hi]. simpl. rewrite Hvalue, Hs, Hi.
        split; reflexivity.
      * intros Hb. destruct (Htrue Hb) as (scan & v' & k' & val' & r & rest' & -> & Hs & Hv & Hres).
        exists (E_get_identifier v kind value :: scan), v', k', val', r, rest'.
        repeat split; auto. simpl. rewrite Hvalue. exact Hs.
Qed.

Lemma listed_kinds_app t1 t2 :
  listed_kinds (t1 ++ t2) = listed_kinds t1 ++ listed_kinds t2.
Proof. unfold listed_kinds. apply flat_map_app. Qed.

Lemma identifiers_read_app t1 t2 :
  identifiers_read (t1 ++ t2) = identifiers_read t1 ++ identifiers_read t2.
Proof. unfold identifiers_read. apply flat_map_app. Qed.

Lemma scan_with_mount_after scan t :
  forallb (is_scan_step cfg) scan = true ->
  scan_with_mount cfg t -> scan_with_mount cfg (scan ++ t).
Proof.
  intros Hscan (scan' & v & kind & value & r & rest & -> & Hs & Hv & Hres).
  exists (scan ++ scan'), v, kind, value, r, rest.
  rewrite <- app_assoc, forallb_app, Hscan, Hs. repeat split; auto.
Qed.

Lemma scan_with_mount_facts t :
  scan_with_mount cfg t ->
  forallb is_volume_event t = true
  /\ length (filter is_mount_request t) = 1
  /\ forallb (fun e => negb (is_availability_query e)) t = true.
Proof.
  intros (scan & v & kind & value & r & rest & -> & Hs & Hv & Hres).
  destruct (scan_step_facts scan Hs) as (H1 & H2 & H3).
  destruct (mount_resolution_volume_events _ _ _ Hres) as (H4 & H5 & _ & _ & H6).
  rewrite !forallb_app, filter_app, H1, H2, H3. simpl. rewrite H4, H5, H6.
  repeat split.
Qed.

Lemma kinds_in_order_cons v kinds listed :
  kinds_in_order ((v, kinds) :: listed) = map (pair v) kinds ++ kinds_in_order listed.
Proof. reflexivity. Qed.

Lemma mount_volumes_run (vs : list volume) (w : W) :
  exists returned w1 t,
    run h (mount_volumes cfg vs) w = (Returned returned, w1, t)
    /\ prefix_of (map fst (listed_kinds t)) vs
    /\ prefix_of (identifiers_read t) (kinds_in_order (listed_kinds t))
    /\ (returned = false ->
        forallb (is_scan_step cfg) t = true
        /\ map fst (listed_kinds t) = vs
        /\ identifiers_read t = kinds_in_order (listed_kinds t))
    /\ (returned = true -> scan_with_mount cfg t).
Proof.
  revert w. induction vs as [| v rest IH]; intros w.
  - exists false, w, []. simpl. repeat split; try discriminate; exists []; reflexivity.
  - cbn [mount_volumes run bind perform observe].
    destruct (h _ (enumerate_identifiers v) w) as [kinds w1]. rewrite run_bind.
    destruct (mount_identifiers_run v kinds w1)
      as (b & w2 & t1 & Hrun & Hl1 & Hp1 & Hfalse1 & Htrue1).
    rewrite Hrun. destruct b.
    + cbn [run app]. exists true, w2, (E_enumerate_identifiers v kinds :: t1 ++ []).
      rewrite app_nil_r. split; [reflexivity |].
      assert (Hl : listed_kinds (E_enumerate_identifiers v kinds :: t1) = [(v, kinds)]).
      { change (E_enumerate_identifiers v kinds :: t1)
          with ([E_enumerate_identifiers v kinds] ++ t1).
        rewrite listed_kinds_app, Hl1. reflexivity. }
      rewrite Hl. split; [exists rest; reflexivity |]. split; [| split].
      * change (identifiers_read (E_enumerate_identifiers v kinds :: t1))
          with (identifiers_read t1).
        simpl. rewrite app_nil_r. exact Hp1.
      * discriminate.
      * intros _. apply (scan_with_mount_after [E_enumerate_identifiers v kinds]);
          [reflexivity | auto].
    + destruct (Hfalse1 eq_refl) as [Hs1 Hi1].
      destruct (IH w2) as (b & w3 & t2 & Hrun2 & Hpv & Hpi & Hfalse2 & Htrue2).
      rewrite Hrun2. exists b, w3, (E_enumerate_identifiers v kinds :: t1 ++ t2).
      split; [reflexivity |].
      assert (Hl : listed_kinds (E_enumerate_identifiers v kinds :: t1 ++ t2)
                   = (v, kinds) :: listed_kinds t2).
      { change (E_enumerate_identifiers v kinds :: t1 ++ t2)
          with ([E_enumerate_identifiers v kinds] ++ t1 ++ t2).
        rewrite !listed_kinds_app, Hl1. reflexivity. }
      assert (Hi : identifiers_read (E_enumerate_identifiers v kinds :: t1 ++ t2)
                   = map (pair v) kinds ++ identifiers_read t2).
      { change (E_enumerate_identifiers v kinds :: t1 ++ t2)
          with ([E_enumerate_identifiers v kinds] ++ t1 ++ t2).
        rewrite !identifiers_read_app, Hi1. reflexivity. }
      rewrite Hl, Hi. split; [| split; [| split]].
      * destruct Hpv as [more Hpv]. exists more. simpl. rewrite Hpv. reflexivity.
      * destruct Hpi as [more Hpi]. exists more.
        rewrite kinds_in_order_cons, Hpi, app_assoc. reflexivity.
      * intros Hb. destruct (Hfalse2 Hb) as (Hs2 & Hv2 & Hi2).
        rewrite kinds_in_order_cons.
        simpl. rewrite forallb_app, Hs1, Hs2, Hv2, Hi2. repeat split.
      * intros Hb.
        apply (scan_with_mount_after (E_enumerate_identifiers v kinds :: t1)).
        -- simpl. exact Hs1.
        -- auto.
Qed.

End Mounting.


(** ** The hashers *)

Lemma hexdigest_truthy (data : bytes) : Str.truthy (hashlib.hexdigest data) = true.
Proof. reflexivity. Qed.

Lemma hexdigest_length (data : bytes) : String.length (hashlib.hexdigest data) = 64.
Proof. reflexivity. Qed.

Lemma remote_digest_truthy opened d : remote_digest opened = Ok d -> Str.truthy d = true.
Proof.
  unfold remote_digest. destruct opened as [s | e]; [| discriminate].
  destruct (read_chunks (reads s) hashlib.sha256); [| discriminate].
  destruct (on_close s); [| discriminate].
  intros H. injection H as <-. apply hexdigest_truthy.
Qed.

Lemma local_digest_truthy opened d : local_digest opened = Ok d -> Str.truthy d = true.
Proof.
  unfold local_digest. destruct opened as [s | e]; [| discriminate].
  destruct (read_chunks (reads s) hashlib.sha256), (on_close s); try discriminate.
  intros H. injection H as <-. apply hexdigest_truthy.
Qed.

(** Line 175 lets the sync off only when both digests were computed and
    are the same. *)
Lemma hashes_agree_iff remote_opened local_opened :
  hashes_agree remote_opened local_opened = true
  <-> exists d, remote_digest remote_opened = Ok d /\ local_digest local_opened = Ok d.
Proof.
  unfold hashes_agree. split.
  - intros H. apply andb_true_iff in H as [Ht He]. apply String.eqb_eq in He.
    destruct (remote_digest remote_opened) as [d | e] eqn:Hr; [| discriminate].
    exists d. split; [reflexivity |].
    destruct (local_digest local_opened) as [d' | e'] eqn:Hl; simpl in *.
    + congruence.
    + subst d. discriminate.
  - intros (d & Hr & Hl). rewrite Hr, Hl. simpl.
    rewrite String.eqb_refl, andb_true_r. exact (remote_digest_truthy _ _ Hr).
Qed.

Section Hashing.

Context {W : Type} (h : platform W).

Lemma get_remote_file_hash_run dest_file (w : W) :
  exists opened w1,
    run h (get_remote_file_hash dest_file) w
    = (Returned (hash_value (remote_digest opened)), w1,
       remote_hash_trace dest_file opened).
Proof.
  unfold get_remote_file_hash, remote_hash_trace. step.
  destruct (h _ (file_read dest_file) w) as [opened w1]. exists opened.
  destruct (remote_digest opened) as [d | e]; step.
  - exists w1. reflexivity.
  - destruct (h _ (log ERROR ("Failed to compute remote file hash: " ++ e)) w1) as [[] w2].
    exists w2. reflexivity.
Qed.

Lemma compute_file_hash_run file_path (w : W) :
  exists opened w1,
    run h (compute_file_hash file_path) w
    = (Returned (hash_value (local_digest opened)), w1,
       local_hash_trace file_path opened).
Proof.
  unfold compute_file_hash, local_hash_trace. step.
  destruct (h _ (open_rb file_path) w) as [opened w1]. exists opened.
  destruct (local_digest opened) as [d | e]; step.
  - exists w1. reflexivity.
  - destruct (h _ (log ERROR ("Failed to compute local file hash: " ++ e)) w1) as [[] w2].
    exists w2. reflexivity.
Qed.

End Hashing.

(** ** A single-file sync, on any platform *)

Section SyncFile.

Context {W : Type} (h : platform W) (cfg : config) (cwd : string).

Lemma sync_file_copy_run file_path drive_file_path src_file dest_file (w : W) :
  exists w1 r,
    run h (sync_file_copy file_path drive_file_path src_file dest_file) w
    = (Returned tt, w1,
       [E_file_copy src_file dest_file r;
        match r with
        | Ok _ => synced_record file_path drive_file_path
        | Raise e => copy_failed_record file_path drive_file_path e
        end]).
Proof.
  unfold sync_file_copy. step.
  destruct (h _ (file_copy src_file dest_file) w) as [r w1].
  destruct r as [u | e]; step;
    match goal with |- context [h unit (log ?l ?m) ?w] =>
      destruct (h unit (log l m) w) as [[] w2] end.
  - exists w2, (Ok u). reflexivity.
  - exists w2, (Raise e). reflexivity.
Qed.

Lemma sync_file_transfer_run file_path drive_file_path (w : W) :
  exists w1 t o,
    run h (sync_file_transfer file_path drive_file_path
                              (new_for_path file_path) (new_for_uri drive_file_path)) w
    = (Returned tt, w1, t)
    /\ transfer_trace file_path drive_file_path t o.
Proof.
  unfold sync_file_transfer. step.
  destruct (h _ (query_exists (new_for_uri drive_file_path)) w) as [dest_exists w1].
  destruct dest_exists.
  - rewrite run_bind.
    destruct (get_remote_file_hash_run h (new_for_uri drive_file_path) w1)
      as (ro & w2 & ->).
    rewrite run_bind.
    destruct (compute_file_hash_run h file_path w2) as (lo & w3 & ->).
    fold (hashes_agree ro lo).
    destruct (hashes_agree ro lo) eqn:Hagree; step.
    + destruct (h _ (log INFO ("Skipping " ++ file_path ++ ": No changes detected.")) w3)
        as [[] w4].
      eexists w4, _, _. split; [reflexivity |].
      apply (transfer_unchanged _ _ ro lo Hagree).
    + destruct (h _ (file_delete (new_for_uri drive_file_path)) w3) as [r w4].
      destruct r as [u | e]; step.
      * destruct (h _ (log INFO ("Deleted existing file: " ++ drive_file_path)) w4)
          as [[] w5].
        destruct (sync_file_copy_run file_path drive_file_path
                    (new_for_path file_path) (new_for_uri drive_file_path) w5)
          as (w6 & r & ->).
        destruct r as [u' | e].
        -- eexists w6, _, _. split; [reflexivity |].
           apply (transfer_replaced _ _ ro lo u u' Hagree).
        -- eexists w6, _, _. split; [reflexivity |].
           apply (transfer_replace_failed _ _ ro lo u e Hagree).
      * destruct (h _ (log ERROR ("Failed to delete existing file "
                                   ++ drive_file_path ++ ": " ++ e)) w4) as [[] w5].
        eexists w5, _, _. split; [reflexivity |].
        apply (transfer_delete_failed _ _ ro lo e Hagree).
  - destruct (sync_file_copy_run file_path drive_file_path
                (new_for_path file_path) (new_for_uri drive_file_path) w1)
      as (w2 & r & ->).
    destruct r as [u | e]; eexists w2, _, _; (split; [reflexivity | constructor]).
Qed.

Lemma sync_file_body_run file_path rel_path (w : W) :
  posixpath.relpath cwd file_path (LOCAL_FOLDER cfg) = Ok rel_path ->
  exists w1 t o,
    run h (sync_file_body cfg cwd file_path) w = (Returned tt, w1, t)
    /\ body_trace file_path (drive_file_path_of cfg rel_path) t o.
Proof.
  intros Hrel. unfold sync_file_body. rewrite Hrel. cbv zeta.
  set (dfp := drive_file_path_of cfg rel_path). step.
  destruct (h _ (get_parent (new_for_uri dfp)) w) as [has_parent w1].
  destruct has_parent; step.
  - destruct (h _ (query_exists (parent_of (new_for_uri dfp))) w1) as [parent_exists w2].
    destruct parent_exists; cbn [andb negb]; step.
    + destruct (sync_file_transfer_run file_path dfp w2) as (w3 & t & o & -> & Ht).
      eexists w3, _, o. split; [reflexivity |]. apply body_parent_there, Ht.
    + destruct (h _ (make_directory_with_parents (parent_of (new_for_uri dfp))) w2)
        as [r w3].
      destruct r as [u | e]; step;
        destruct (h _ (get_uri (parent_of (new_for_uri dfp))) w3) as [uri w4].
      * destruct (h _ (log INFO ("Created parent directory: " ++ uri)) w4) as [[] w5].
        destruct (sync_file_transfer_run file_path dfp w5) as (w6 & t & o & -> & Ht).
        eexists w6, _, o. split; [reflexivity |]. apply body_parent_created, Ht.
      * destruct (h _ (log WARNING ("Failed to create parent directory "
                                     ++ uri ++ ": " ++ e)) w4) as [[] w5].
        eexists w5, _, _. split; [reflexivity |]. apply body_parent_failed.
  - cbn [andb]. destruct (sync_file_transfer_run file_path dfp w1) as (w2 & t & o & -> & Ht).
    eexists w2, _, o. split; [reflexivity |]. apply body_at_root, Ht.
Qed.

Lemma sync_file_body_raises file_path e (w : W) :
  posixpath.relpath cwd file_path (LOCAL_FOLDER cfg) = Raise e ->
  run h (sync_file_body cfg cwd file_path) w = (Raised e, w, []).
Proof. intros Hrel. unfold sync_file_body. rewrite Hrel. reflexivity. Qed.

Lemma mount_google_drive_run (w : W) :
  exists w1 t,
    run h (mount_google_drive cfg) w = (Returned tt, w1, t)
    /\ forallb is_volume_event t = true
    /\ forallb (fun e => negb (is_availability_query e)) t = true.
Proof.
  unfold mount_google_drive. step.
  destruct (h _ (log INFO "Attempting to mount Google Drive...") w) as [[] w0].
  destruct (h _ get_volumes w0) as [vs w1]. rewrite run_bind.
  destruct (mount_volumes_run h cfg vs w1) as (b & w2 & t & -> & _ & _ & Hfalse & Htrue).
  destruct b.
  - cbn [run]. eexists w2, _. split; [reflexivity |].
    destruct (scan_with_mount_facts cfg t (Htrue eq_refl)) as (H1 & _ & H2).
    rewrite app_nil_r. simpl. auto.
  - destruct (Hfalse eq_refl) as (Hs & _). step.
    destruct (h _ (log WARNING "No Google Drive volume found to mount.") w2) as [[] w3].
    eexists w3, _. split; [reflexivity |].
    destruct (scan_step_facts cfg t Hs) as (H1 & _ & H2).
    simpl. rewrite !forallb_app, H1, H2. split; reflexivity.
Qed.

Lemma availability_queries_are_volume_events t :
  forallb is_availability_query t = true -> forallb is_volume_event t = true.
Proof.
  induction t as [| e t IH]; simpl; [reflexivity |].
  intros H. apply andb_true_iff in H as [He H]. rewrite (IH H).
  destruct e; try discriminate; reflexivity.
Qed.

(** The check answers in every case, with calls on the volume monitor,
    the main loop and the log only. *)
Lemma availability_check_run (w : W) :
  exists b w1 t,
    run h (availability_check cfg) w = (Returned b, w1, t)
    /\ forallb is_volume_event t = true.
Proof.
  unfold availability_check. rewrite run_bind.
  destruct (is_drive_available_run h cfg w) as (w1 & t1 & -> & Hq1).
  apply availability_queries_are_volume_events in Hq1.
  destruct (sees_drive cfg t1); cbn [negb].
  - cbn [run]. exists true, w1, (t1 ++ []). rewrite app_nil_r. auto.
  - step. destruct (h _ (log INFO "Google Drive not found. Attempting to mount...") w1)
      as [[] w2].
    rewrite run_bind. destruct (mount_google_drive_run w2) as (w3 & t2 & -> & Hv2 & _).
    destruct (is_drive_available_run h cfg w3) as (w4 & t3 & -> & Hq3).
    apply availability_queries_are_volume_events in Hq3.
    eexists _, w4, _. split; [reflexivity |].
    rewrite forallb_app. cbn [forallb is_volume_event andb].
    rewrite forallb_app, Hq1, Hv2, Hq3. reflexivity.
Qed.

(** [sync_file] is the check, then the warning or the rest. *)
Lemma sync_file_run file_path (w : W) :
  run h (sync_file cfg cwd file_path) w
  = match run h (availability_check cfg) w with
    | (Returned true, w1, t1) =>
        let '(r, w2, t2) := run h (sync_file_body cfg cwd file_path) w1 in
        (r, w2, t1 ++ t2)
    | (Returned false, w1, t1) =>
        (Returned tt, snd (h _ (log WARNING "Mounting failed. Skipping sync.") w1),
         t1 ++ [E_log WARNING "Mounting failed. Skipping sync."])
    | (Raised e, w1, t1) => (Raised e, w1, t1)
    end.
Proof.
  unfold sync_file, availability_check. rewrite !run_bind.
  destruct (is_drive_available_run h cfg w) as (w1 & t1 & -> & _).
  destruct (sees_drive cfg t1); cbn [negb].
  - cbn [run]. destruct (run h (sync_file_body cfg cwd file_path) w1) as [[r w2] t2].
    rewrite app_nil_r. reflexivity.
  - step. destruct (h _ (log INFO "Google Drive not found. Attempting to mount...") w1)
      as [[] w2].
    rewrite !run_bind. destruct (mount_google_drive_run w2) as (w3 & t2 & -> & _).
    rewrite run_bind.
    destruct (is_drive_available_run h cfg w3) as (w4 & t3 & -> & _).
    destruct (sees_drive cfg t3); cbn [negb].
    + destruct (run h (sync_file_body cfg cwd file_path) w4) as [[r w5] t4].
      rewrite <- !app_assoc. cbn [app]. rewrite <- !app_assoc. reflexivity.
    + step. destruct (h _ (log WARNING "Mounting failed. Skipping sync.") w4) as [[] w5].
      cbn [snd]. rewrite <- !app_assoc. cbn [app]. rewrite <- !app_assoc. reflexivity.
Qed.

End SyncFile.

(** ** Reading runs *)

Lemma final_app_r (t1 t2 : trace) : t2 <> [] -> final (t1 ++ t2) = final t2.
Proof.
  intros H. induction t1 as [| e t1 IH]; [reflexivity |].
  simpl app. destruct (t1 ++ t2) eqn:Happ.
  - apply app_eq_nil in Happ. destruct Happ. contradiction.
  - exact IH.
Qed.

Lemma final_cons (e : event) (t : trace) : t <> [] -> final (e :: t) = final t.
Proof. intros H. apply (final_app_r [e] t H). Qed.

Ltac not_nil :=
  first [ discriminate
        | let H := fresh in
          intros H; apply app_eq_nil in H; destruct H as [_ H]; revert H; not_nil ].

Ltac find_final :=
  repeat first [ rewrite final_app_r by not_nil | rewrite final_cons by not_nil ].

Lemma forallb_excludes (p q : event -> bool) (t : trace) :
  (forall e, p e = true -> q e = false) ->
  forallb p t = true -> existsb q t = false.
Proof.
  intros Hpq. induction t as [| e t IH]; simpl; [reflexivity |].
  intros H. apply andb_true_iff in H as [He Ht]. rewrite (Hpq e He), (IH Ht). reflexivity.
Qed.

Lemma forallb_In (p : event -> bool) (t : trace) (e : event) :
  forallb p t = true -> In e t -> p e = true.
Proof. intros H Hin. rewrite forallb_forall in H. auto. Qed.

Lemma volume_events_no_delete t :
  forallb is_volume_event t = true -> existsb is_delete_ok t = false.
Proof. apply forallb_excludes. intros []; simpl; congruence. Qed.

Lemma volume_events_off_remote t :
  forallb is_volume_event t = true -> existsb touches_remote t = false.
Proof. apply forallb_excludes. intros []; simpl; congruence. Qed.

Lemma volume_events_no_digest_read t :
  forallb is_volume_event t = true -> existsb is_digest_read t = false.
Proof. apply forallb_excludes. intros []; simpl; congruence. Qed.

Lemma volume_events_no_walk t :
  forallb is_volume_event t = true -> existsb is_os_walk t = false.
Proof. apply forallb_excludes. intros []; simpl; congruence. Qed.

Lemma remote_hash_trace_no (p : event -> bool) dest_file opened :
  (forall f r, p (E_file_read f r) = false) ->
  (forall l m, p (E_log l m) = false) ->
  existsb p (remote_hash_trace dest_file opened) = false.
Proof.
  intros H1 H2. unfold remote_hash_trace.
  destruct (remote_digest opened); simpl; rewrite ?H1, ?H2; reflexivity.
Qed.

Lemma local_hash_trace_no (p : event -> bool) file_path opened :
  (forall f r, p (E_open_rb f r) = false) ->
  (forall l m, p (E_log l m) = false) ->
  existsb p (local_hash_trace file_path opened) = false.
Proof.
  intros H1 H2. unfold local_hash_trace.
  destruct (local_digest opened); simpl; rewrite ?H1, ?H2; reflexivity.
Qed.

Ltac no_such :=
  rewrite ?existsb_app, ?remote_hash_trace_no, ?local_hash_trace_no by reflexivity.

(** Every exit of the transfer shows the outcome it is listed with. *)
Lemma transfer_trace_outcome file_path drive_file_path pre t o :
  transfer_trace file_path drive_file_path t o ->
  existsb is_delete_ok pre = false ->
  outcome_of (pre ++ t) = Some o.
Proof.
  intros Ht Hpre. unfold outcome_of.
  destruct Ht; find_final; cbn [final]; unfold synced_record, copy_failed_record,
    skipping_record; cbn [String.eqb Str.startswith append Ascii.eqb Bool.eqb andb];
    try reflexivity.
  - rewrite existsb_app, Hpre. reflexivity.
  - rewrite existsb_app, Hpre. cbn [existsb orb app]. no_such. reflexivity.
Qed.

Lemma body_trace_outcome file_path drive_file_path pre t o :
  body_trace file_path drive_file_path t o ->
  existsb is_delete_ok pre = false ->
  outcome_of (pre ++ t) = Some o.
Proof.
  intros Ht Hpre. destruct Ht as [t o Ht | t o Ht | u uri t o Ht | e uri].
  - change (pre ++ E_get_parent (new_for_uri drive_file_path) false :: t)
      with (pre ++ [E_get_parent (new_for_uri drive_file_path) false] ++ t).
    rewrite app_assoc. apply (transfer_trace_outcome _ _ _ _ _ Ht).
    rewrite existsb_app, Hpre. reflexivity.
  - match goal with |- outcome_of (pre ++ ?a :: ?b :: t) = _ =>
      change (pre ++ a :: b :: t) with (pre ++ [a; b] ++ t) end.
    rewrite app_assoc. apply (transfer_trace_outcome _ _ _ _ _ Ht).
    rewrite existsb_app, Hpre. reflexivity.
  - match goal with |- outcome_of (pre ++ ?a :: ?b :: ?c :: ?d :: ?e :: t) = _ =>
      change (pre ++ a :: b :: c :: d :: e :: t) with (pre ++ [a; b; c; d; e] ++ t) end.
    rewrite app_assoc. apply (transfer_trace_outcome _ _ _ _ _ Ht).
    rewrite existsb_app, Hpre. reflexivity.
  - unfold outcome_of. find_final. cbn [final].
    cbn [String.eqb Str.startswith append Ascii.eqb Bool.eqb andb]. reflexivity.
Qed.

Lemma relpath_ok cwd path start :
  path <> "" -> exists rel_path, posixpath.relpath cwd path start = Ok rel_path.
Proof.
  intros Hpath. unfold posixpath.relpath.
  destruct path as [| c path]; [contradiction |]. cbn [Str.truthy negb].
  match goal with |- context [match ?l with [] => _ | _ => _ end] => destruct l end;
    eexists; reflexivity.
Qed.

Section SyncFileExits.

Context {W : Type} (h : platform W) (cfg : config) (cwd : string).

(** The runs of [sync_file]: calls of the availability check, then the
    warning of line 147, or the exits of the rest, or the [ValueError] of
    [path.relpath] on the empty path. *)
Lemma sync_file_exits file_path (w : W) :
  exists c w1 pre t,
    run h (sync_file cfg cwd file_path) w = (c, w1, pre ++ t)
    /\ forallb is_volume_event pre = true
    /\ ((c = Returned tt /\ t = [E_log WARNING "Mounting failed. Skipping sync."]
         /\ exists w0, run h (availability_check cfg) w = (Returned false, w0, pre))
        \/ (exists rel_path o,
              posixpath.relpath cwd file_path (LOCAL_FOLDER cfg) = Ok rel_path
              /\ c = Returned tt
              /\ body_trace file_path (drive_file_path_of cfg rel_path) t o)
        \/ (exists e,
              posixpath.relpath cwd file_path (LOCAL_FOLDER cfg) = Raise e
              /\ c = Raised e /\ t = [])).
Proof.
  rewrite sync_file_run.
  destruct (availability_check_run h cfg w) as (b & w1 & pre & Hcheck & Hpre).
  rewrite Hcheck. destruct b.
  - destruct (posixpath.relpath cwd file_path (LOCAL_FOLDER cfg)) as [rel | e] eqn:Hrel.
    + destruct (sync_file_body_run h cfg cwd file_path rel w1 Hrel)
        as (w2 & t & o & -> & Ht).
      exists (Returned tt), w2, pre, t. split; [reflexivity |]. split; [exact Hpre |].
      right; left. exists rel, o. auto.
    + rewrite (sync_file_body_raises h cfg cwd file_path e w1 Hrel).
      exists (Raised e), w1, pre, []. split; [reflexivity |]. split; [exact Hpre |].
      right; right. exists e. auto.
  - eexists (Returned tt), _, pre, _. split; [reflexivity |]. split; [exact Hpre |].
    left. repeat split. exists w1. reflexivity.
Qed.

End SyncFileExits.

Ltac in_trace H :=
  repeat match type of H with
  | In _ (_ ++ _) => apply in_app_or in H; destruct H as [H | H]
  | In _ (remote_hash_trace _ _) => unfold remote_hash_trace in H
  | In _ (local_hash_trace _ _) => unfold local_hash_trace in H
  | In _ (match ?d with Ok _ => _ | Raise _ => _ end) => destruct d eqn:?
  | In _ (_ :: _) => destruct H as [H | H]
  | In _ [] => destruct H
  end.

Lemma volume_events_are_prelude t :
  forallb is_volume_event t = true -> forallb is_prelude t = true.
Proof.
  induction t as [| e t IH]; simpl; [reflexivity |].
  intros H. apply andb_true_iff in H as [He H]. unfold is_prelude at 1.
  rewrite He, (IH H). reflexivity.
Qed.

Lemma prelude_no_delete t : forallb is_prelude t = true -> existsb is_delete t = false.
Proof. apply forallb_excludes. intros []; cbv; congruence. Qed.

Lemma prelude_no_delete_ok t : forallb is_prelude t = true -> existsb is_delete_ok t = false.
Proof. apply forallb_excludes. intros []; cbv; congruence. Qed.

Lemma prelude_no_copy t : forallb is_prelude t = true -> existsb is_copy t = false.
Proof. apply forallb_excludes. intros []; cbv; congruence. Qed.

Lemma prelude_no_copy_ok t : forallb is_prelude t = true -> existsb is_copy_ok t = false.
Proof. apply forallb_excludes. intros []; cbv; congruence. Qed.

Section SyncFileTransfers.

Context {W : Type} (h : platform W) (cfg : config) (cwd : string).

(** The same, with the calls on the parent directory counted to what
    comes before: a run ends with the warning of line 147, with a transfer,
    with the failure to create the parent directory, or with the
    [ValueError]. *)
Lemma sync_file_transfers file_path (w : W) :
  exists c w1 pre t,
    run h (sync_file cfg cwd file_path) w = (c, w1, pre ++ t)
    /\ forallb is_prelude pre = true
    /\ ((c = Returned tt /\ t = [E_log WARNING "Mounting failed. Skipping sync."])
        \/ (exists rel_path o,
              posixpath.relpath cwd file_path (LOCAL_FOLDER cfg) = Ok rel_path
              /\ c = Returned tt
              /\ transfer_trace file_path (drive_file_path_of cfg rel_path) t o)
        \/ (exists uri e,
              c = Returned tt
              /\ t = [E_log WARNING ("Failed to create parent directory " ++ uri ++ ": " ++ e)])
        \/ (exists e,
              posixpath.relpath cwd file_path (LOCAL_FOLDER cfg) = Raise e
              /\ c = Raised e /\ t = [])).
Proof.
  destruct (sync_file_exits h cfg cwd file_path w)
    as (c & w1 & pre & t & Hrun & Hpre & Hexit).
  apply volume_events_are_prelude in Hpre.
  destruct Hexit as [(-> & -> & _) | [(rel & o & Hrel & -> & Hbody) | (e & Hrel & -> & ->)]].
  - eexists (Returned tt), w1, pre, _. split; [exact Hrun |]. split; [exact Hpre |]. auto.
  - set (dest := new_for_uri (drive_file_path_of cfg rel)) in *.
    destruct Hbody as [t o Ht | t o Ht | u uri t o Ht | e uri].
    + exists (Returned tt), w1, (pre ++ [E_get_parent dest false]), t.
      rewrite <- app_assoc. split; [exact Hrun |].
      rewrite forallb_app, Hpre. split; [reflexivity |]. right; left. eauto.
    + exists (Returned tt), w1,
        (pre ++ [E_get_parent dest true; E_query_exists (parent_of dest) true]), t.
      rewrite <- app_assoc. split; [exact Hrun |].
      rewrite forallb_app, Hpre. split; [reflexivity |]. right; left. eauto.
    + exists (Returned tt), w1,
        (pre ++ [E_get_parent dest true; E_query_exists (parent_of dest) false;
                 E_make_directory_with_parents (parent_of dest) (Ok u);
                 E_get_uri (parent_of dest) uri;
                 E_log INFO ("Created parent directory: " ++ uri)]), t.
      rewrite <- app_assoc. split; [exact Hrun |].
      rewrite forallb_app, Hpre. split; [reflexivity |]. right; left. eauto.
    + exists (Returned tt), w1,
        (pre ++ [E_get_parent dest true; E_query_exists (parent_of dest) false;
                 E_make_directory_with_parents (parent_of dest) (Raise e);
                 E_get_uri (parent_of dest) uri]),
        [E_log WARNING ("Failed to create parent directory " ++ uri ++ ": " ++ e)].
      rewrite <- app_assoc. split; [exact Hrun |].
      rewrite forallb_app, Hpre. split; [reflexivity |]. right; right; left. eauto.
  - exists (Raised e), w1, pre, []. split; [exact Hrun |]. split; [exact Hpre |].
    right; right; right. eauto.
Qed.

End SyncFileTransfers.

(** C2.  In every run of [sync_file] in which the remote file exists
    ([dest_file.query_exists()] answered [True]) and the digests of the
    remote and of the local content were both computed and are equal, the
    run returns with the outcome skipped-no-change and made no delete and
    no copy. *)
Theorem equal_digests_skip
        {W : Type} (h : platform W) (cfg : config) (cwd file_path : string) (w : W)
        (c : completion unit) (w1 : W) (t : trace)
        (dest_file : gfile) (path : string)
        (remote_opened local_opened : result stream) (d : string) :
  run h (sync_file cfg cwd file_path) w = (c, w1, t) ->
  In (E_query_exists dest_file true) t ->
  In (E_file_read dest_file remote_opened) t ->
  In (E_open_rb path local_opened) t ->
  remote_digest remote_opened = Ok d ->
  local_digest local_opened = Ok d ->
  c = Returned tt
  /\ outcome_of t = Some skipped_no_change
  /\ existsb is_delete t = false
  /\ existsb is_copy t = false.
Proof.
  intros Hrun Hexists Hread Hopen Hremote Hlocal.
  destruct (sync_file_transfers h cfg cwd file_path w)
    as (c' & w1' & pre & t' & Hrun' & Hpre & Hexit).
  rewrite Hrun in Hrun'. injection Hrun' as -> -> ->.
  assert (Hagree : hashes_agree remote_opened local_opened = true).
  { apply hashes_agree_iff. eauto. }
  apply in_app_or in Hread. destruct Hread as [Hread | Hread];
    [apply (forallb_In _ _ _ Hpre) in Hread; discriminate |].
  apply in_app_or in Hopen. destruct Hopen as [Hopen | Hopen];
    [apply (forallb_In _ _ _ Hpre) in Hopen; discriminate |].
  destruct Hexit as [(-> & ->) | [(rel & o & Hrel & -> & Ht) | [(uri & e & -> & ->) | (e & Hrel & -> & ->)]]];
    try solve [in_trace Hread; discriminate].
  destruct Ht; try solve [in_trace Hread; discriminate];
    in_trace Hread; try discriminate; injection Hread as <- ->;
    in_trace Hopen; try discriminate; injection Hopen as <- ->;
    try congruence.
  all: split; [reflexivity |]; split;
    [ apply (transfer_trace_outcome _ _ _ _ _
               (transfer_unchanged _ _ remote_opened local_opened Hagree)
               (prelude_no_delete_ok _ Hpre))
    | rewrite !existsb_app, (prelude_no_delete _ Hpre), (prelude_no_copy _ Hpre);
      cbn [existsb orb is_delete is_copy]; no_such; split; reflexivity ].
Qed.

(** C3.  When [is_drive_available] answers [False] and the mount attempt
    that follows does not make the drive available (the check after
    [mount_google_drive] answers [False] again), [sync_file] returns,
    raising nothing, with the outcome skipped-no-drive; its calls are those
    of the two checks and of the mount attempt and two log records: none on
    a [Gio.File] (no query, no directory creation, no delete, no copy) and
    no read of file content. *)
Theorem unavailable_drive_skips
        {W : Type} (h : platform W) (cfg : config) (cwd file_path : string)
        (w w1 w2 : W) (t1 t2 : trace) :
  run h (is_drive_available cfg) w = (Returned false, w1, t1) ->
  run h (mount_google_drive cfg ;; is_drive_available cfg)
      (snd (h _ (log INFO "Google Drive not found. Attempting to mount...") w1))
  = (Returned false, w2, t2) ->
  let t := t1 ++ E_log INFO "Google Drive not found. Attempting to mount..."
              :: t2 ++ [E_log WARNING "Mounting failed. Skipping sync."] in
  run h (sync_file cfg cwd file_path) w
  = (Returned tt, snd (h _ (log WARNING "Mounting failed. Skipping sync.") w2), t)
  /\ outcome_of t = Some skipped_no_drive
  /\ existsb touches_remote t = false
  /\ existsb is_digest_read t = false.
Proof.
  intros Havail Hmount t.
  assert (Hrun : run h (sync_file cfg cwd file_path) w
                 = (Returned tt, snd (h _ (log WARNING "Mounting failed. Skipping sync.") w2), t)).
  { unfold sync_file. rewrite run_bind, Havail. cbn [negb]. step.
    destruct (h _ (log INFO "Google Drive not found. Attempting to mount...") w1)
      as [[] w1'].
    cbn [snd] in Hmount.
    rewrite run_bind in Hmount. rewrite run_bind.
    destruct (mount_google_drive_run h cfg w1') as (w1'' & tm & Hm & _).
    rewrite Hm in *. rewrite run_bind.
    destruct (run h (is_drive_available cfg) w1'') as [[[b | e] w3] ta];
      [| discriminate]. injection Hmount as -> -> <-. cbn [negb]. step.
    destruct (h _ (log WARNING "Mounting failed. Skipping sync.") w2) as [[] w4].
    cbn [snd]. subst t. rewrite <- !app_assoc. reflexivity. }
  split; [exact Hrun |].
  assert (Hvol : forallb is_volume_event
                   (t1 ++ E_log INFO "Google Drive not found. Attempting to mount..." :: t2)
                 = true).
  { destruct (is_drive_available_run h cfg w) as (w1' & t1' & Ha & Hq).
    rewrite Havail in Ha. injection Ha as _ <- <-.
    apply availability_queries_are_volume_events in Hq.
    rewrite forallb_app, Hq. cbn [forallb is_volume_event andb].
    rewrite run_bind in Hmount.
    destruct (mount_google_drive_run h cfg
                (snd (h _ (log INFO "Google Drive not found. Attempting to mount...") w1)))
      as (w1'' & tm & Hm & Hvm & _).
    rewrite Hm in Hmount.
    destruct (is_drive_available_run h cfg w1'') as (w3 & ta & Ha & Hqa).
    rewrite Ha in Hmount. injection Hmount as _ _ <-.
    apply availability_queries_are_volume_events in Hqa.
    rewrite forallb_app, Hvm, Hqa. reflexivity. }
  subst t.
  change (t1 ++ E_log INFO "Google Drive not found. Attempting to mount..."
             :: t2 ++ [E_log WARNING "Mounting failed. Skipping sync."])
    with (t1 ++ (E_log INFO "Google Drive not found. Attempting to mount..." :: t2)
             ++ [E_log WARNING "Mounting failed. Skipping sync."]).
  rewrite app_assoc. split; [| split].
  - unfold outcome_of. find_final. reflexivity.
  - rewrite existsb_app, (volume_events_off_remote _ Hvol). reflexivity.
  - rewrite existsb_app, (volume_events_no_digest_read _ Hvol). reflexivity.
Qed.

(** C4.  A hasher whose reading fails returns the empty string, its
    sentinel, and raises nothing: it logs the error.  A run of [sync_file]
    in which the remote or the local digest could not be computed never
    ends as skipped-no-change, whatever the other digest is (both failing
    included): it goes on to delete the remote file, on the way to copying
    again. *)
Theorem digest_failure_never_skips
        {W : Type} (h : platform W) (cfg : config) (cwd file_path : string) (w : W)
        (c : completion unit) (w1 : W) (t : trace)
        (dest_file : gfile) (path : string) (opened : result stream) (e : exn) :
  (forall f w0, exists o w2,
      run h (get_remote_file_hash f) w0
      = (Returned (hash_value (remote_digest o)), w2, remote_hash_trace f o)
      /\ (forall e0, remote_digest o = Raise e0 -> hash_value (remote_digest o) = ""))
  /\ (forall p w0, exists o w2,
         run h (compute_file_hash p) w0
         = (Returned (hash_value (local_digest o)), w2, local_hash_trace p o)
         /\ (forall e0, local_digest o = Raise e0 -> hash_value (local_digest o) = ""))
  /\ (run h (sync_file cfg cwd file_path) w = (c, w1, t) ->
      (In (E_file_read dest_file opened) t /\ remote_digest opened = Raise e)
      \/ (In (E_open_rb path opened) t /\ local_digest opened = Raise e) ->
      c = Returned tt
      /\ outcome_of t <> Some skipped_no_change
      /\ existsb is_delete t = true).
Proof.
  split; [| split].
  - intros f w0. destruct (get_remote_file_hash_run h f w0) as (o & w2 & Hrun).
    exists o, w2. split; [exact Hrun |]. intros e0 ->. reflexivity.
  - intros p w0. destruct (compute_file_hash_run h p w0) as (o & w2 & Hrun).
    exists o, w2. split; [exact Hrun |]. intros e0 ->. reflexivity.
  - intros Hrun Hfail.
    destruct (sync_file_transfers h cfg cwd file_path w)
      as (c' & w1' & pre & t' & Hrun' & Hpre & Hexit).
    rewrite Hrun in Hrun'. injection Hrun' as -> -> ->.
    assert (Hin : (In (E_file_read dest_file opened) t' /\ remote_digest opened = Raise e)
                  \/ (In (E_open_rb path opened) t' /\ local_digest opened = Raise e)).
    { destruct Hfail as [[Hin Hd] | [Hin Hd]]; [left | right]; (split; [| exact Hd]);
        apply in_app_or in Hin; destruct Hin as [Hin | Hin]; auto;
        apply (forallb_In _ _ _ Hpre) in Hin; discriminate. }
    clear Hfail.
    destruct Hexit as [(-> & ->) | [(rel & o & Hrel & -> & Ht) | [(uri & e' & -> & ->) | (e' & Hrel & -> & ->)]]];
      try solve [destruct Hin as [[Hin _] | [Hin _]]; in_trace Hin; discriminate].
    split; [reflexivity |].
    destruct Ht as [u | e' | ro lo Hagree | ro lo e' Hagree | ro lo u u' Hagree
                    | ro lo u e' Hagree].
    + destruct Hin as [[Hin _] | [Hin _]]; in_trace Hin; discriminate.
    + destruct Hin as [[Hin _] | [Hin _]]; in_trace Hin; discriminate.
    + exfalso. apply hashes_agree_iff in Hagree as (d & Hr & Hl).
      destruct Hin as [[Hin Hd] | [Hin Hd]]; in_trace Hin; try discriminate;
        injection Hin as <- ->; congruence.
    + split.
      * rewrite (transfer_trace_outcome _ _ _ _ _
                   (transfer_delete_failed _ _ ro lo e' Hagree)
                   (prelude_no_delete_ok _ Hpre)). discriminate.
      * rewrite !existsb_app. cbn [existsb is_delete orb]. rewrite !existsb_app.
        cbn [existsb is_delete orb]. rewrite !orb_true_r. reflexivity.
    + split.
      * rewrite (transfer_trace_outcome _ _ _ _ _
                   (transfer_replaced _ _ ro lo u u' Hagree)
                   (prelude_no_delete_ok _ Hpre)). discriminate.
      * rewrite !existsb_app. cbn [existsb is_delete orb]. rewrite !existsb_app.
        cbn [existsb is_delete orb]. rewrite !orb_true_r. reflexivity.
    + split.
      * rewrite (transfer_trace_outcome _ _ _ _ _
                   (transfer_replace_failed _ _ ro lo u e' Hagree)
                   (prelude_no_delete_ok _ Hpre)). discriminate.
      * rewrite !existsb_app. cbn [existsb is_delete orb]. rewrite !existsb_app.
        cbn [existsb is_delete orb]. rewrite !orb_true_r. reflexivity.
Qed.

(** C6.  Every call of [sync_file] on a path (a non-empty string; the
    watcher and the walk produce no other) returns, and its run shows one
    of the outcomes skipped-no-change, created, replaced, skipped-no-drive,
    failed(reason).  When the copy succeeds the outcome is created if the
    target did not exist ([dest_file.query_exists()] answered [False]: no
    delete was made) and replaced if it did (the delete was made, and
    succeeded). *)
Theorem sync_file_outcome
        {W : Type} (h : platform W) (cfg : config) (cwd file_path : string) (w : W) :
  file_path <> "" ->
  exists rel_path w1 t o,
    posixpath.relpath cwd file_path (LOCAL_FOLDER cfg) = Ok rel_path
    /\ run h (sync_file cfg cwd file_path) w = (Returned tt, w1, t)
    /\ outcome_of t = Some o
    /\ let dest_file := new_for_uri (drive_file_path_of cfg rel_path) in
       (existsb is_copy_ok t = true ->
        In (E_query_exists dest_file false) t \/ In (E_query_exists dest_file true) t)
       /\ (existsb is_copy_ok t = true -> In (E_query_exists dest_file false) t ->
           o = created /\ existsb is_delete t = false)
       /\ (existsb is_copy_ok t = true -> In (E_query_exists dest_file true) t ->
           o = replaced /\ In (E_file_delete dest_file (Ok tt)) t).
Proof.
  intros Hpath. destruct (relpath_ok cwd file_path (LOCAL_FOLDER cfg) Hpath) as [rel Hrel].
  destruct (sync_file_transfers h cfg cwd file_path w)
    as (c & w1 & pre & t & Hrun & Hpre & Hexit).
  assert (Hq : forall b, In (E_query_exists (new_for_uri (drive_file_path_of cfg rel)) b)
                            (pre ++ t)
                         -> In (E_query_exists (new_for_uri (drive_file_path_of cfg rel)) b) t).
  { intros b Hin. apply in_app_or in Hin. destruct Hin as [Hin | Hin]; auto.
    apply (forallb_In _ _ _ Hpre) in Hin. discriminate. }
  exists rel.
  destruct Hexit as [(-> & ->) | [(rel' & o & Hrel' & -> & Ht) | [(uri & e & -> & ->) | (e & Hrel' & -> & ->)]]].
  - eexists w1, _, skipped_no_drive. split; [exact Hrel |]. split; [exact Hrun |].
    split; [unfold outcome_of; find_final; reflexivity |].
    cbv zeta. rewrite existsb_app, (prelude_no_copy_ok _ Hpre). cbn.
    repeat split; discriminate.
  - rewrite Hrel in Hrel'. injection Hrel' as <-.
    eexists w1, _, o. split; [exact Hrel |]. split; [exact Hrun |].
    split; [exact (transfer_trace_outcome _ _ _ _ _ Ht (prelude_no_delete_ok _ Hpre)) |].
    cbv zeta. rewrite !existsb_app, (prelude_no_copy_ok _ Hpre), (prelude_no_delete _ Hpre).
    cbn [orb].
    destruct Ht as [u | e | ro lo Hagree | ro lo e Hagree | ro lo u u' Hagree
                    | ro lo u e Hagree].
    + destruct u. split; [| split].
      * intros _. left. apply in_or_app. right. left. reflexivity.
      * intros _ _. split; reflexivity.
      * intros _ Hin. apply Hq in Hin. in_trace Hin; discriminate.
    + cbn. repeat split; discriminate.
    + cbn [existsb is_copy_ok orb]. no_such. cbn.
      repeat split; discriminate.
    + cbn [existsb is_copy_ok orb]. no_such. cbn.
      repeat split; discriminate.
    + destruct u. split; [| split].
      * intros _. right. apply in_or_app. right. left. reflexivity.
      * intros _ Hin. apply Hq in Hin. in_trace Hin; discriminate.
      * intros _ _. split; [reflexivity |].
        apply in_or_app. right. right. apply in_or_app. right. apply in_or_app. right.
        left. reflexivity.
    + cbn [existsb is_copy_ok orb]. no_such. cbn.
      repeat split; discriminate.
  - eexists w1, _, (failed parent_dir_error). split; [exact Hrel |]. split; [exact Hrun |].
    split; [unfold outcome_of; find_final; reflexivity |].
    cbv zeta. rewrite existsb_app, (prelude_no_copy_ok _ Hpre). cbn.
    repeat split; discriminate.
  - congruence.
Qed.
(** C10.  A call of the mount coordinator issues at most one mount request.
    It lists the volumes, then reads their identifiers volume by volume and
    kind by kind in the order listed; at the first identifier that carries
    the Google Drive scheme and contains the account it requests the mount
    of that volume, waits for that request to resolve (the callback logs
    what [mount_finish] returned or raised and quits the loop; a request
    that raises at once is logged) and returns: nothing follows the
    resolution.  When no identifier matches, no request is made. *)
Theorem mount_google_drive_requests_first_match
        {W : Type} (h : platform W) (cfg : config) (w : W) :
  exists w1 vs t,
    run h (mount_google_drive cfg) w
    = (Returned tt, w1,
       E_log INFO "Attempting to mount Google Drive..." :: E_get_volumes vs :: t)
    /\ length (filter is_mount_request t) <= 1
    /\ prefix_of (map fst (listed_kinds t)) vs
    /\ prefix_of (identifiers_read t) (kinds_in_order (listed_kinds t))
    /\ (scan_with_mount cfg t
        \/ exists scan,
             t = scan ++ [E_log WARNING "No Google Drive volume found to mount."]
             /\ forallb (is_scan_step cfg) scan = true
             /\ map fst (listed_kinds scan) = vs
             /\ identifiers_read scan = kinds_in_order (listed_kinds scan)).
Proof.
  unfold mount_google_drive. step.
  destruct (h _ (log INFO "Attempting to mount Google Drive...") w) as [[] w0].
  destruct (h _ get_volumes w0) as [vs w1]. rewrite run_bind.
  destruct (mount_volumes_run h cfg vs w1)
    as (b & w2 & t & Hrun & Hpv & Hpi & Hfalse & Htrue).
  rewrite Hrun. destruct b.
  - cbn [run]. exists w2, vs, (t ++ []). rewrite app_nil_r.
    split; [reflexivity |].
    destruct (scan_with_mount_facts cfg t (Htrue eq_refl)) as (_ & Hone & _).
    rewrite Hone. repeat split; auto.
  - destruct (Hfalse eq_refl) as (Hs & Hv & Hi). step.
    destruct (h _ (log WARNING "No Google Drive volume found to mount.") w2) as [[] w3].
    exists w3, vs, (t ++ [E_log WARNING "No Google Drive volume found to mount."]).
    split; [reflexivity |].
    destruct (scan_step_facts cfg t Hs) as (_ & Hnone & _).
    rewrite filter_app, Hnone, listed_kinds_app, identifiers_read_app. simpl.
    rewrite !app_nil_r. repeat split; auto.
    right. exists t. repeat split; auto.
Qed.

(** ** The remote target *)

Section Paths.
Import Str posixpath.

Lemma startswith_sep_cons c s : startswith (String c s) "/" = Ascii.eqb c "/".
Proof. cbn [startswith]. rewrite andb_true_r. apply Ascii.eqb_sym. Qed.

Lemma split_sep_pieces s p : In p (split_sep s) -> startswith p "/" = false.
Proof.
  revert p. induction s as [| c s IH]; intros p; cbn [split_sep].
  - intros [<- | []]. reflexivity.
  - destruct (Ascii.eqb c "/") eqn:Hc.
    + intros [<- | Hin]; [reflexivity | apply IH; exact Hin].
    + destruct (split_sep s) as [| piece pieces] eqn:Hs.
      * intros [<- | []]. rewrite startswith_sep_cons. exact Hc.
      * intros [<- | Hin].
        -- rewrite startswith_sep_cons. exact Hc.
        -- apply IH. right. exact Hin.
Qed.

Lemma startswith_app_l a b :
  truthy a = true -> startswith (a ++ b) "/" = startswith a "/".
Proof. destruct a; [discriminate | reflexivity]. Qed.

Lemma join_keeps_start a b :
  truthy a = true -> startswith b "/" = false ->
  truthy (join a b) = true /\ startswith (join a b) "/" = startswith a "/".
Proof.
  intros Ha Hb. unfold join. rewrite Hb.
  destruct (negb (truthy a) || endswith_sep a); destruct a; try discriminate;
    split; reflexivity.
Qed.

Lemma join_all_keeps_start a l :
  truthy a = true -> Forall (fun b => startswith b "/" = false) l ->
  startswith (fold_left join l a) "/" = startswith a "/".
Proof.
  revert a. induction l as [| b l IH]; intros a Ha Hl; [reflexivity |].
  inversion Hl as [| ? ? Hb Hl']; subst. cbn [fold_left].
  destruct (join_keeps_start a b Ha Hb) as [Ht Hs]. rewrite IH; auto.
Qed.

(** [relpath] never produces a path that starts with a separator. *)
Lemma relpath_relative cwd path start rel_path :
  relpath cwd path start = Ok rel_path -> startswith rel_path "/" = false.
Proof.
  unfold relpath. destruct (negb (truthy path)); [discriminate |].
  set (start_list := nonempty_comps (abspath cwd start)).
  set (path_list := nonempty_comps (abspath cwd path)).
  set (i := common_len start_list path_list).
  assert (Hall : Forall (fun b => truthy b = true /\ startswith b "/" = false)
                        (repeat ".." (length start_list - i) ++ skipn i path_list)).
  { apply Forall_app. split.
    - apply Forall_forall. intros x Hx. apply repeat_spec in Hx. subst x. split; reflexivity.
    - apply Forall_forall. intros x Hx.
      assert (Hin : In x path_list).
      { rewrite <- (firstn_skipn i path_list). apply in_or_app. right. exact Hx. }
      unfold path_list, nonempty_comps in Hin. apply filter_In in Hin as [Hin Ht].
      split; [exact Ht | exact (split_sep_pieces _ _ Hin)]. }
  destruct (repeat ".." (length start_list - i) ++ skipn i path_list) as [| a l].
  - intros H. injection H as <-. reflexivity.
  - intros H. injection H as <-. inversion Hall as [| ? ? [Ha Hs] Hl]; subst.
    unfold join_all. rewrite join_all_keeps_start; auto.
    eapply Forall_impl; [| exact Hl]. intros b [_ Hb]. exact Hb.
Qed.

Lemma lstrip_sep_id s : startswith s "/" = false -> lstrip_sep s = s.
Proof.
  destruct s as [| c s]; [reflexivity |]. rewrite startswith_sep_cons.
  cbn [lstrip_sep]. intros ->. reflexivity.
Qed.

(** With a remote root that is not empty and neither starts nor ends
    with a separator, line 151 gives the scheme as the specification
    words it. *)
Lemma drive_file_path_plain cfg rel_path :
  truthy (GOOGLE_DRIVE_FOLDER cfg) = true ->
  startswith (GOOGLE_DRIVE_FOLDER cfg) "/" = false ->
  endswith_sep (GOOGLE_DRIVE_FOLDER cfg) = false ->
  startswith rel_path "/" = false ->
  drive_file_path_of cfg rel_path = spec_remote_target cfg rel_path.
Proof.
  intros Ht Hs He Hrel. unfold drive_file_path_of, spec_remote_target, join.
  rewrite Hrel, Ht, He. cbn [negb orb].
  rewrite (lstrip_sep_id rel_path Hrel).
  rewrite lstrip_sep_id; [reflexivity |].
  rewrite startswith_app_l; auto.
Qed.

End Paths.

Lemma volume_events_no_remote_file t e :
  forallb is_volume_event t = true -> In e t -> remote_file_of e = None.
Proof.
  intros Ht Hin. apply (forallb_In _ _ _ Ht) in Hin. destruct e; try discriminate; reflexivity.
Qed.

(** C5, as the code has it.  The target that [sync_file] addresses is the
    URI [google-drive://<account>/] followed by
    [join(remote root, relative path)] with its leading separators
    stripped, for the relative path that [path.relpath] gives from the
    local root, and no file is synced outside this mapping: every copy and
    every delete of a run is on that target, and every other call on a
    [Gio.File] of the drive is on the target or on its parent (the
    directory the sync makes sure of).  With a remote root that is not
    empty and neither starts nor ends with a separator the target is
    [google-drive://<account>/<remote root>/<relative path>]; so in the
    example of the specification. *)
Theorem remote_target_of_sync
        {W : Type} (h : platform W) (cfg : config) (cwd file_path : string) (w : W)
        (c : completion unit) (w1 : W) (t : trace) :
  run h (sync_file cfg cwd file_path) w = (c, w1, t) ->
  (forall e f, In e t -> remote_file_of e = Some f ->
     exists rel_path,
       posixpath.relpath cwd file_path (LOCAL_FOLDER cfg) = Ok rel_path
       /\ let target :=
            (GOOGLE_DRIVE_PREFIX ++ DRIVE_USER cfg ++ "/"
             ++ Str.lstrip_sep (posixpath.join (GOOGLE_DRIVE_FOLDER cfg) rel_path))%string in
          (f = new_for_uri target \/ f = parent_of (new_for_uri target))
          /\ (is_copy e || is_delete e = true -> f = new_for_uri target)
          /\ (Str.truthy (GOOGLE_DRIVE_FOLDER cfg) = true ->
              Str.startswith (GOOGLE_DRIVE_FOLDER cfg) "/" = false ->
              Str.endswith_sep (GOOGLE_DRIVE_FOLDER cfg) = false ->
              target = spec_remote_target cfg rel_path))
  /\ (forall d, posixpath.relpath d "/home/u/docs/a/b.txt" (LOCAL_FOLDER example_config)
                = Ok "a/b.txt")
  /\ drive_file_path_of example_config "a/b.txt"
     = "google-drive://u@example/sync/docs/a/b.txt".
Proof.
  intros Hrun. split; [| split; reflexivity].
  intros e f Hin Hf.
  destruct (sync_file_exits h cfg cwd file_path w)
    as (c' & w1' & pre & t' & Hrun' & Hpre & Hexit).
  rewrite Hrun in Hrun'. injection Hrun' as -> -> ->.
  apply in_app_or in Hin. destruct Hin as [Hin | Hin].
  { rewrite (volume_events_no_remote_file _ _ Hpre Hin) in Hf. discriminate. }
  destruct Hexit as [(-> & -> & _) | [(rel & o & Hrel & -> & Hbody) | (e' & Hrel & -> & ->)]].
  - in_trace Hin; subst e; discriminate.
  - exists rel. split; [exact Hrel |]. cbv zeta.
    fold (drive_file_path_of cfg rel). apply and_assoc. split.
    + destruct Hbody as [t o Ht | t o Ht | u uri t o Ht | e' uri];
        try destruct Ht; in_trace Hin; subst e; cbn in Hf; try discriminate;
        injection Hf as <-;
        (split; [auto | cbn; intros Hsync; try discriminate Hsync; reflexivity]).
    + intros H1 H2 H3. apply drive_file_path_plain; auto.
      exact (relpath_relative _ _ _ _ Hrel).
  - destruct Hin.
Qed.

(** C5, the wording of the specification against the code: with the remote
    root [/sync/docs], [sync_file] copies [/home/u/docs/a/b.txt] to
    [google-drive://u@example/sync/docs/a/b.txt], which is not
    [<scheme>://<account>/<remote root>/<relative path>]: the separators
    stripped are those of the remote root. *)
Lemma remote_target_not_as_worded :
  let t := snd (run Mem.gio (sync_file rooted_config "/" Samples.b_txt) Samples.fresh) in
  posixpath.relpath "/" Samples.b_txt (LOCAL_FOLDER rooted_config) = Ok "a/b.txt"
  /\ In (E_file_copy (new_for_path Samples.b_txt)
                     (new_for_uri "google-drive://u@example/sync/docs/a/b.txt") (Ok tt)) t
  /\ spec_remote_target rooted_config "a/b.txt"
     = "google-drive://u@example//sync/docs/a/b.txt"
  /\ ~ In (E_file_copy (new_for_path Samples.b_txt)
                       (new_for_uri (spec_remote_target rooted_config "a/b.txt")) (Ok tt)) t.
Proof.
  vm_compute. repeat split; auto 20.
  intros H. repeat (destruct H as [H | H]; [discriminate H |]). exact H.
Qed.


(** ** The full pass, on any platform *)

Section SyncAll.

Context {W : Type} (h : platform W) (cfg : config) (cwd : string).

Lemma run_for_each_map {A B : Type} (g : A -> B) (l : list A) (f : B -> Prog unit) (w : W) :
  run h (for_each (map g l) f) w = run h (for_each l (fun x => f (g x))) w.
Proof.
  revert w. induction l as [| x l IH]; intros w; [reflexivity |].
  cbn [map for_each]. rewrite !run_bind.
  destruct (run h (f (g x)) w) as [[[[] | e] w1] t1]; [| reflexivity].
  rewrite IH. reflexivity.
Qed.

Lemma run_for_each_app {A : Type} (l1 l2 : list A) (f : A -> Prog unit) (w : W) :
  run h (for_each (l1 ++ l2) f) w = run h (for_each l1 f ;; for_each l2 f) w.
Proof.
  revert w. induction l1 as [| x l1 IH]; intros w.
  - cbn [app for_each bind]. reflexivity.
  - cbn [app for_each]. rewrite run_bind_assoc, !run_bind.
    destruct (run h (f x) w) as [[[[] | e] w1] t1]; [| reflexivity].
    rewrite IH. reflexivity.
Qed.

(** The two nested loops of lines 206-208 call [sync_file] on the paths
    of [walk_targets], in that order. *)
Lemma run_walk_loops (triples : list (string * list string * list string)) (w : W) :
  run h (for_each triples (fun '(root, _, files) =>
           for_each files (fun file => sync_file cfg cwd (posixpath.join root file)))) w
  = run h (for_each (walk_targets triples) (sync_file cfg cwd)) w.
Proof.
  revert w. induction triples as [| [[root dirs] files] triples IH]; intros w;
    [reflexivity |].
  cbn [for_each]. unfold walk_targets. cbn [flat_map].
  fold (walk_targets triples).
  rewrite run_for_each_app, !run_bind, run_for_each_map.
  destruct (run h (for_each files
                     (fun file => sync_file cfg cwd (posixpath.join root file))) w)
    as [[[[] | e] w1] t1]; [| reflexivity].
  rewrite IH. reflexivity.
Qed.

(** Every call of [sync_file] opens with an availability check of its
    own. *)
Lemma sync_file_checks_first file_path (w : W) :
  exists c w1 mounts t,
    run h (sync_file cfg cwd file_path) w = (c, w1, E_get_mounts mounts :: t).
Proof.
  unfold sync_file, is_drive_available. rewrite run_bind. step.
  destruct (h _ get_mounts w) as [ms w0].
  destruct (run h (is_drive_available_loop cfg ms) w0) as [[[b | e] w1] t1].
  - match goal with |- context [run h ?p w1] => destruct (run h p w1) as [[c w2] t2] end.
    eexists c, w2, ms, _. cbn [app]. reflexivity.
  - exists (Raised e), w1, ms, t1. reflexivity.
Qed.

Lemma for_each_sync_checks (targets : list string) (w w1 : W) (t : trace) :
  run h (for_each targets (sync_file cfg cwd)) w = (Returned tt, w1, t) ->
  length targets <= length (filter is_get_mounts t).
Proof.
  revert w w1 t. induction targets as [| p targets IH]; intros w w1 t; [simpl; lia |].
  cbn [for_each]. rewrite run_bind.
  destruct (sync_file_checks_first p w) as (c & w2 & ms & t2 & ->).
  destruct c as [[] | e]; [| discriminate].
  destruct (run h (for_each targets (sync_file cfg cwd)) w2) as [[c3 w3] t3] eqn:Hrest.
  intros H. injection H as -> -> <-.
  specialize (IH _ _ _ Hrest). cbn [app filter is_get_mounts length].
  rewrite filter_app, length_app. simpl. lia.
Qed.

(** The walk: the answer of [os.walk], the syncs, the closing record. *)
Lemma sync_all_files_walk_run (w : W) :
  run h (sync_all_files_walk cfg cwd) w
  = let (triples, w1) := h _ (os_walk (LOCAL_FOLDER cfg)) w in
    match run h (for_each (walk_targets triples) (sync_file cfg cwd)) w1 with
    | (Returned _, w2, t) =>
        (Returned tt, snd (h _ (log INFO "Initial sync complete.") w2),
         E_os_walk (LOCAL_FOLDER cfg) triples :: t ++ [E_log INFO "Initial sync complete."])
    | (Raised e, w2, t) => (Raised e, w2, E_os_walk (LOCAL_FOLDER cfg) triples :: t)
    end.
Proof.
  unfold sync_all_files_walk. step.
  destruct (h _ (os_walk (LOCAL_FOLDER cfg)) w) as [triples w1].
  rewrite run_bind, run_walk_loops.
  destruct (run h (for_each (walk_targets triples) (sync_file cfg cwd)) w1)
    as [[[[] | e] w2] t]; [| reflexivity].
  step. destruct (h _ (log INFO "Initial sync complete.") w2) as [[] w3]. reflexivity.
Qed.

(** [sync_all_files] is its first record, the check, then the warning or
    the walk. *)
Lemma sync_all_files_run (w : W) :
  run h (sync_all_files cfg cwd) w
  = let w0 := snd (h _ (log INFO "Performing initial sync of all files...") w) in
    match run h (availability_check cfg) w0 with
    | (Returned true, w1, t1) =>
        let '(c, w2, t2) := run h (sync_all_files_walk cfg cwd) w1 in
        (c, w2, E_log INFO "Performing initial sync of all files..." :: t1 ++ t2)
    | (Returned false, w1, t1) =>
        (Returned tt, snd (h _ (log WARNING "Mounting failed. Skipping initial sync.") w1),
         E_log INFO "Performing initial sync of all files..."
         :: t1 ++ [E_log WARNING "Mounting failed. Skipping initial sync."])
    | (Raised e, w1, t1) =>
        (Raised e, w1, E_log INFO "Performing initial sync of all files..." :: t1)
    end.
Proof.
  unfold sync_all_files, availability_check. step.
  destruct (h _ (log INFO "Performing initial sync of all files...") w) as [[] w0].
  cbn [snd]. rewrite !run_bind.
  destruct (is_drive_available_run h cfg w0) as (w1 & t1 & -> & _).
  destruct (sees_drive cfg t1); cbn [negb].
  - cbn [run]. destruct (run h (sync_all_files_walk cfg cwd) w1) as [[c w2] t2].
    rewrite app_nil_r. reflexivity.
  - step. destruct (h _ (log INFO "Google Drive not found. Attempting to mount...") w1)
      as [[] w2].
    rewrite !run_bind. destruct (mount_google_drive_run h cfg w2) as (w3 & t2 & -> & _).
    rewrite run_bind.
    destruct (is_drive_available_run h cfg w3) as (w4 & t3 & -> & _).
    destruct (sees_drive cfg t3); cbn [negb].
    + destruct (run h (sync_all_files_walk cfg cwd) w4) as [[c w5] t4].
      rewrite <- !app_assoc. cbn [app]. rewrite <- !app_assoc. reflexivity.
    + step.
      destruct (h _ (log WARNING "Mounting failed. Skipping initial sync.") w4) as [[] w5].
      cbn [snd]. rewrite <- !app_assoc. cbn [app]. rewrite <- !app_assoc. reflexivity.
Qed.

End SyncAll.

(** C9, as the code has it.  [sync_all_files] makes its own
    availability-and-mount check once, before the walk: the check calls
    neither [os.walk] nor anything on the drive.  If the drive is still
    not there after the mount attempt, the pass ends with the warning: no
    walk, no call of [sync_file], nothing on the drive.  Otherwise the
    tree is walked, and every [sync_file] of the walk checks again for
    its own file: a pass that returns has made at least one further
    availability query per file. *)
Theorem sync_all_files_checks_up_front
        {W : Type} (h : platform W) (cfg : config) (cwd : string)
        (w : W) (b : bool) (w1 : W) (t1 : trace) :
  run h (availability_check cfg)
      (snd (h _ (log INFO "Performing initial sync of all files...") w))
  = (Returned b, w1, t1) ->
  existsb is_os_walk t1 = false
  /\ existsb touches_remote t1 = false
  /\ (b = false ->
      let t := E_log INFO "Performing initial sync of all files..."
               :: t1 ++ [E_log WARNING "Mounting failed. Skipping initial sync."] in
      run h (sync_all_files cfg cwd) w
      = (Returned tt, snd (h _ (log WARNING "Mounting failed. Skipping initial sync.") w1), t)
      /\ existsb is_os_walk t = false
      /\ existsb touches_remote t = false
      /\ existsb is_digest_read t = false)
  /\ (b = true ->
      exists c w2 t2,
        let triples := fst (h _ (os_walk (LOCAL_FOLDER cfg)) w1) in
        run h (sync_all_files cfg cwd) w
        = (c, w2, E_log INFO "Performing initial sync of all files..."
                  :: t1 ++ E_os_walk (LOCAL_FOLDER cfg) triples :: t2)
        /\ (c = Returned tt ->
            length (walk_targets triples) <= length (filter is_get_mounts t2))).
Proof.
  intros Hcheck.
  assert (Hvol : forallb is_volume_event t1 = true).
  { destruct (availability_check_run h cfg
                (snd (h _ (log INFO "Performing initial sync of all files...") w)))
      as (b' & w1' & t1' & Hrun & Hvol).
    rewrite Hcheck in Hrun. injection Hrun as _ _ <-. exact Hvol. }
  split; [exact (volume_events_no_walk _ Hvol) |].
  split; [exact (volume_events_off_remote _ Hvol) |].
  split.
  - intros ->. cbv zeta. rewrite sync_all_files_run. cbv zeta. rewrite Hcheck.
    split; [reflexivity |].
    cbn [existsb is_os_walk touches_remote is_digest_read orb].
    rewrite !existsb_app, (volume_events_no_walk _ Hvol),
      (volume_events_off_remote _ Hvol), (volume_events_no_digest_read _ Hvol).
    repeat split.
  - intros ->. rewrite sync_all_files_run. cbv zeta. rewrite Hcheck.
    rewrite sync_all_files_walk_run.
    destruct (h _ (os_walk (LOCAL_FOLDER cfg)) w1) as [triples w1'] eqn:Hwalk.
    cbn [fst].
    destruct (run h (for_each (walk_targets triples) (sync_file cfg cwd)) w1')
      as [[[[] | e] w2] t2] eqn:Hsyncs.
    + eexists (Returned tt), _, (t2 ++ [E_log INFO "Initial sync complete."]).
      split; [reflexivity |]. intros _.
      rewrite filter_app, length_app.
      pose proof (for_each_sync_checks h cfg cwd _ _ _ _ Hsyncs). lia.
    + exists (Raised e), w2, t2. split; [reflexivity |]. discriminate.
Qed.

(** C9, the wording of the specification against the code: in a pass over
    a tree of one file, with the drive mounted, the availability of the
    drive is checked twice, the second time after the walk has begun,
    inside [sync_file]. *)
Lemma full_pass_checks_again_per_file :
  let t := snd (run Mem.gio (sync_all_files example_config "/") Samples.fresh) in
  length (filter is_get_mounts t) = 2
  /\ exists before triples after,
       t = before ++ E_os_walk "/home/u/docs" triples :: after
       /\ walk_targets triples = [Samples.b_txt]
       /\ existsb is_get_mounts after = true.
Proof.
  split; [vm_compute; reflexivity |].
  exists [E_log INFO "Performing initial sync of all files..."; E_get_mounts [0; 1];
          E_get_root_uri 0 "file:///media/u/STICK";
          E_get_root_uri 1 "google-drive://u@example/"],
         (walk_tree "/home/u/docs" Samples.docs),
         (snd (run Mem.gio (for_each [Samples.b_txt] (sync_file example_config "/"))
                   Samples.fresh)
          ++ [E_log INFO "Initial sync complete."]).
  split; [vm_compute; reflexivity |].
  split; vm_compute; reflexivity.
Qed.

(** ** On the reference platform *)

Module MemFacts.
Import Mem.

Ltac mem_step := cbn [run bind perform observe info warning error gio].

Lemma chunks_read (fuel size : nat) (content acc : bytes) :
  length content <= fuel ->
  read_chunks (map Ok (chunks_of fuel (S size) content)) acc = Ok (acc ++ content).
Proof.
  revert content acc. induction fuel as [| fuel IH]; intros content acc Hlen.
  - destruct content; [| simpl in Hlen; lia]. simpl. rewrite app_nil_r. reflexivity.
  - destruct content as [| c content].
    + simpl. rewrite app_nil_r. reflexivity.
    + cbn [chunks_of map read_chunks]. cbn [firstn length Nat.eqb].
      rewrite IH.
      * unfold hashlib.update. rewrite <- app_assoc.
        change (c :: firstn size content) with (firstn (S size) (c :: content)).
        rewrite firstn_skipn. reflexivity.
      * cbn [skipn]. pose proof (length_skipn size content) as Hs.
        simpl in Hlen. lia.
Qed.

Lemma stream_of_remote_digest content :
  remote_digest (Ok (stream_of content)) = Ok (hashlib.hexdigest content).
Proof.
  unfold remote_digest, stream_of. cbn [reads on_close].
  change 4096 with (S 4095). rewrite chunks_read by lia. reflexivity.
Qed.

Lemma stream_of_local_digest content :
  local_digest (Ok (stream_of content)) = Ok (hashlib.hexdigest content).
Proof.
  unfold local_digest, stream_of. cbn [reads on_close].
  change 4096 with (S 4095). rewrite chunks_read by lia. reflexivity.
Qed.

Lemma is_drive_available_loop_on (cfg : config) (ms : list mount) (w : world) :
  exists t,
    run gio (is_drive_available_loop cfg ms) w
    = (Returned (existsb (fun m => is_google_drive_uri cfg
                                     (vol_root_uri (nth m (volumes w) no_volume))) ms),
       w, t).
Proof.
  induction ms as [| m ms [t IH]].
  - exists []. reflexivity.
  - cbn [is_drive_available_loop existsb]. mem_step.
    destruct (is_google_drive_uri cfg (vol_root_uri (nth m (volumes w) no_volume))).
    + eexists. reflexivity.
    + rewrite IH. eexists. reflexivity.
Qed.

(** On the reference platform [is_drive_available] changes nothing and
    answers whether the drive is among the mounted volumes. *)
Lemma is_drive_available_on (cfg : config) (w : world) :
  exists t,
    run gio (is_drive_available cfg) w = (Returned (drive_available cfg w), w, t).
Proof.
  unfold is_drive_available. mem_step.
  destruct (is_drive_available_loop_on cfg (mounted_handles (volumes w)) w) as [t Ht].
  rewrite Ht. eexists. reflexivity.
Qed.

Lemma same_files_refl w : same_files w w.
Proof. repeat split. Qed.

Lemma same_files_trans w1 w2 w3 : same_files w1 w2 -> same_files w2 w3 -> same_files w1 w3.
Proof. unfold same_files. intros (a & b & c & d & e) (a' & b' & c' & d' & e'). repeat split; congruence. Qed.

Lemma gio_keeps_files {X : Type} (c : call X) (w : world) :
  keeps_files (observe c (fst (gio X c w))) = true ->
  same_files w (snd (gio X c w)).
Proof.
  destruct c; cbn [gio observe fst snd keeps_files]; intros H; try discriminate H;
    try apply same_files_refl.
  - destruct (vol_on_mount (nth v (volumes w) no_volume)); repeat split.
  - destruct (vol_on_mount (nth r (volumes w) no_volume)); repeat split.
  - repeat split.
  - destruct (lookup (uri_of f) (remote_files w)); [| apply same_files_refl].
    destruct (mem (uri_of f) (unreadable w)); apply same_files_refl.
  - destruct (local_file w path); apply same_files_refl.
  - repeat split.
Qed.

(** Calls other than those leave the files as they are. *)
Lemma other_events_keep_files {A : Type} (p : Prog A) (w : world) c w1 t :
  run gio p w = (c, w1, t) -> forallb keeps_files t = true -> same_files w w1.
Proof.
  revert w c w1 t. induction p as [a | e | X call k IH]; intros w c w1 t; cbn [run].
  - intros H _. injection H as _ <- _. apply same_files_refl.
  - intros H _. injection H as _ <- _. apply same_files_refl.
  - pose proof (gio_keeps_files call w) as Hcall.
    destruct (gio X call w) as [x w0]. cbn [fst snd] in Hcall.
    destruct (run gio (k x) w0) as [[c' w'] t'] eqn:Hrest.
    intros H Hvol. injection H as <- <- <-. cbn [forallb] in Hvol.
    apply andb_true_iff in Hvol as [Hhead Htail].
    apply (same_files_trans _ w0); [auto | eauto].
Qed.

Lemma volume_events_keep_their_hands_off t :
  forallb is_volume_event t = true -> forallb keeps_files t = true.
Proof.
  induction t as [| e t IH]; cbn [forallb]; [reflexivity |].
  intros H. apply andb_true_iff in H as [He H]. rewrite (IH H), andb_true_r.
  destruct e; try discriminate He; reflexivity.
Qed.

(** Calls on the volume monitor, the main loop and the log leave the
    files as they are. *)
Lemma volume_events_keep_files {A : Type} (p : Prog A) (w : world) c w1 t :
  run gio p w = (c, w1, t) -> forallb is_volume_event t = true -> same_files w w1.
Proof.
  intros Hrun Hvol.
  exact (other_events_keep_files p w c w1 t Hrun (volume_events_keep_their_hands_off t Hvol)).
Qed.

Lemma gio_keeps_volumes {X : Type} (c : call X) (w : world) :
  keeps_volumes (observe c (fst (gio X c w))) = true ->
  volumes (snd (gio X c w)) = volumes w.
Proof.
  destruct c; cbn [gio observe fst snd keeps_volumes]; intros H; try discriminate H;
    try reflexivity.
  - destruct (vol_on_mount (nth v (volumes w) no_volume)); reflexivity.
  - destruct (exists_remote w (uri_of f)); reflexivity.
  - destruct (lookup (uri_of f) (remote_files w)); [| reflexivity].
    destruct (mem (uri_of f) (unreadable w)); reflexivity.
  - destruct (lookup (uri_of f) (remote_files w)); reflexivity.
  - destruct src; try reflexivity.
    destruct (local_file w path); [| reflexivity].
    destruct (mem (uri_of dest) (remote_dirs w)); [reflexivity |].
    destruct (in_directory w (uri_of dest)); reflexivity.
  - destruct (local_file w path); reflexivity.
Qed.

Lemma other_events_keep_volumes {A : Type} (p : Prog A) (w : world) c w1 t :
  run gio p w = (c, w1, t) -> forallb keeps_volumes t = true -> volumes w1 = volumes w.
Proof.
  revert w c w1 t. induction p as [a | e | X call k IH]; intros w c w1 t; cbn [run].
  - intros H _. injection H as _ <- _. reflexivity.
  - intros H _. injection H as _ <- _. reflexivity.
  - pose proof (gio_keeps_volumes call w) as Hcall.
    destruct (gio X call w) as [x w0]. cbn [fst snd] in Hcall.
    destruct (run gio (k x) w0) as [[c' w'] t'] eqn:Hrest.
    intros H Hvol. injection H as <- <- <-. cbn [forallb] in Hvol.
    apply andb_true_iff in Hvol as [Hhead Htail].
    rewrite (IH _ _ _ _ _ Hrest Htail). auto.
Qed.

End MemFacts.

(** ** Two syncs in a row, on the reference platform *)

Module Idempotence.
Import Mem MemFacts.

Lemma is_drive_available_starts {W : Type} (h : platform W) cfg (w : W) :
  exists b w1 ms t,
    run h (is_drive_available cfg) w = (Returned b, w1, E_get_mounts ms :: t)
    /\ forallb is_availability_query t = true.
Proof.
  unfold is_drive_available. step. destruct (h _ get_mounts w) as [ms w0].
  destruct (is_drive_available_loop_run h cfg ms w0) as (w1 & t & -> & Hq).
  eexists _, w1, ms, t. split; [reflexivity | exact Hq].
Qed.

(** The check on the reference platform: it leaves the files alone,
    answers whether the drive is mounted when it is through, and its last
    call is one of [is_drive_available]. *)
Lemma availability_check_on cfg (w : world) :
  exists w1 t e,
    run gio (availability_check cfg) w = (Returned (drive_available cfg w1), w1, t)
    /\ same_files w w1
    /\ forallb is_volume_event t = true
    /\ final t = Some e /\ is_availability_query e = true.
Proof.
  destruct (availability_check_run gio cfg w) as (b & w1 & t & Hrun & Hvol).
  assert (Hfiles := volume_events_keep_files _ _ _ _ _ Hrun Hvol).
  revert Hrun. unfold availability_check. rewrite run_bind.
  destruct (is_drive_available_on cfg w) as [ta Ha].
  destruct (is_drive_available_starts gio cfg w) as (b0 & w0 & ms & ta0 & Ha0 & Hq0).
  rewrite Ha in Ha0. injection Ha0 as <- <- ->. rewrite Ha.
  assert (Hlast : forall ms t0, forallb is_availability_query t0 = true ->
            exists e, final (E_get_mounts ms :: t0) = Some e /\ is_availability_query e = true).
  { intros ms0 t0. revert ms0. induction t0 as [| e0 t0 IH]; intros ms0 Hq.
    - exists (E_get_mounts ms0). split; reflexivity.
    - cbn [forallb] in Hq. apply andb_true_iff in Hq as [He Hq].
      destruct e0; try discriminate He.
      + destruct (IH ms1 Hq) as (e & Hf & He'). exists e. split; [exact Hf | exact He'].
      + destruct t0 as [| e1 t1].
        * eexists. split; reflexivity.
        * destruct (IH ms0 Hq) as (e & Hf & He'). exists e. split; [exact Hf | exact He']. }
  destruct (drive_available cfg w) eqn:Hthere; cbn [negb].
  - cbn [run]. rewrite app_nil_r. intros H. injection H as <- <- <-.
    destruct (Hlast ms ta0 Hq0) as (e & Hf & He).
    exists w, (E_get_mounts ms :: ta0), e. rewrite Hthere. auto.
  - mem_step. rewrite run_bind.
    destruct (run gio (mount_google_drive cfg) _) as [[[[] | e] w2] t2] eqn:Hm;
      [| intros H; discriminate H].
    destruct (is_drive_available_on cfg w2) as [tb Hb].
    destruct (is_drive_available_starts gio cfg w2) as (b1 & w3 & ms1 & tb0 & Hb0 & Hq1).
    rewrite Hb in Hb0. injection Hb0 as <- <- ->. rewrite Hb.
    intros H. injection H as <- <- <-.
    destruct (Hlast ms1 tb0 Hq1) as (e & Hf & He).
    eexists w2, _, e. split; [reflexivity |]. split; [exact Hfiles |].
    split; [exact Hvol |]. split; [| exact He].
    rewrite <- Hf. rewrite final_app_r by discriminate.
    rewrite app_comm_cons, final_app_r by discriminate. reflexivity.
Qed.

Lemma availability_check_there cfg (w : world) :
  drive_available cfg w = true ->
  exists t,
    run gio (availability_check cfg) w = (Returned true, w, t)
    /\ forallb is_volume_event t = true.
Proof.
  intros Hthere. unfold availability_check. rewrite run_bind.
  destruct (is_drive_available_on cfg w) as [ta Ha].
  destruct (is_drive_available_run gio cfg w) as (w0 & ta0 & Ha0 & Hq).
  rewrite Ha in Ha0. injection Ha0 as _ _ ->. rewrite Ha, Hthere. cbn [negb run].
  exists (ta0 ++ []). split; [reflexivity |].
  rewrite app_nil_r. apply availability_queries_are_volume_events, Hq.
Qed.

Lemma same_setting_refl w : same_setting w w.
Proof. repeat split. Qed.

Lemma same_setting_trans w1 w2 w3 :
  same_setting w1 w2 -> same_setting w2 w3 -> same_setting w1 w3.
Proof.
  unfold same_setting. intros (a & b & c & d) (a' & b' & c' & d'). repeat split; congruence.
Qed.

Lemma hash_traces_keep p o :
  forallb keeps_files (remote_hash_trace p o) = true
  /\ forallb keeps_volumes (remote_hash_trace p o) = true.
Proof. unfold remote_hash_trace. destruct (remote_digest o); split; reflexivity. Qed.

Lemma local_hash_traces_keep p o :
  forallb keeps_files (local_hash_trace p o) = true
  /\ forallb keeps_volumes (local_hash_trace p o) = true.
Proof. unfold local_hash_trace. destruct (local_digest o); split; reflexivity. Qed.

(** The hashers change neither the files nor the volumes. *)
Lemma get_remote_file_hash_frame f (w : world) :
  exists o w1,
    run gio (get_remote_file_hash f) w
    = (Returned (hash_value (remote_digest o)), w1, remote_hash_trace f o)
    /\ same_files w w1 /\ volumes w1 = volumes w.
Proof.
  destruct (get_remote_file_hash_run gio f w) as (o & w1 & Hrun).
  exists o, w1. split; [exact Hrun |].
  destruct (hash_traces_keep f o) as [Hf Hv]. split.
  - exact (other_events_keep_files _ _ _ _ _ Hrun Hf).
  - exact (other_events_keep_volumes _ _ _ _ _ Hrun Hv).
Qed.

Lemma compute_file_hash_frame p (w : world) :
  exists o w1,
    run gio (compute_file_hash p) w
    = (Returned (hash_value (local_digest o)), w1, local_hash_trace p o)
    /\ same_files w w1 /\ volumes w1 = volumes w.
Proof.
  destruct (compute_file_hash_run gio p w) as (o & w1 & Hrun).
  exists o, w1. split; [exact Hrun |].
  destruct (local_hash_traces_keep p o) as [Hf Hv]. split.
  - exact (other_events_keep_files _ _ _ _ _ Hrun Hf).
  - exact (other_events_keep_volumes _ _ _ _ _ Hrun Hv).
Qed.

Lemma lookup_first {A : Type} key (a : A) l : lookup key ((key, a) :: l) = Some a.
Proof. cbn [lookup]. rewrite String.eqb_refl. reflexivity. Qed.

(** The copy on the reference platform. *)
Lemma sync_file_copy_on file_path uri (w : world) :
  exists w1 r,
    run gio (sync_file_copy file_path uri (new_for_path file_path) (new_for_uri uri)) w
    = (Returned tt, w1,
       [E_file_copy (new_for_path file_path) (new_for_uri uri) r;
        match r with
        | Ok _ => synced_record file_path uri
        | Raise e => copy_failed_record file_path uri e
        end])
    /\ same_setting w w1
    /\ (forall u, r = Ok u -> synced_state w1 file_path uri).
Proof.
  unfold sync_file_copy. mem_step. cbn [uri_of].
  destruct (local_file w file_path) as [content |] eqn:Hlocal.
  - destruct (mem uri (remote_dirs w)) eqn:Hdir.
    + mem_step. eexists _, (Raise "Target is a directory"). split; [reflexivity |].
      split; [repeat split |]. discriminate.
    + destruct (in_directory w uri) eqn:Hin.
      * mem_step. eexists _, (Ok tt). split; [reflexivity |].
        split; [repeat split |]. intros u _. exists content.
        split; [exact Hlocal |]. split; [apply lookup_first | exact Hin].
      * mem_step. eexists _, (Raise "No such file or directory").
        split; [reflexivity |]. split; [repeat split |]. discriminate.
  - mem_step. eexists _, (Raise "No such file or directory"). split; [reflexivity |].
    split; [repeat split |]. discriminate.
Qed.

Lemma same_files_setting w w1 :
  same_files w w1 -> volumes w1 = volumes w -> same_setting w w1.
Proof. intros (_ & _ & Hu & Ht & Hl) Hv. repeat split; assumption. Qed.

(** The transfer on the reference platform: whichever exit it takes, it
    touches only the remote store and the log, and when it has copied the
    remote copy holds the local content. *)
Lemma sync_file_transfer_on file_path uri (w : world) :
  exists w1 t o,
    run gio (sync_file_transfer file_path uri (new_for_path file_path) (new_for_uri uri)) w
    = (Returned tt, w1, t)
    /\ transfer_trace file_path uri t o
    /\ same_setting w w1
    /\ (o = created \/ o = replaced -> synced_state w1 file_path uri).
Proof.
  unfold sync_file_transfer. mem_step. cbn [uri_of].
  destruct (exists_remote w uri) eqn:Hex.
  - rewrite run_bind.
    destruct (get_remote_file_hash_frame (new_for_uri uri) w) as (ro & w2 & -> & Hf2 & Hv2).
    rewrite run_bind.
    destruct (compute_file_hash_frame file_path w2) as (lo & w3 & -> & Hf3 & Hv3).
    assert (Hs3 : same_setting w w3).
    { apply (same_setting_trans _ w2); apply same_files_setting; assumption. }
    fold (hashes_agree ro lo). destruct (hashes_agree ro lo) eqn:Hagree.
    + mem_step. eexists _, _, skipped_no_change. split; [reflexivity |].
      split; [exact (transfer_unchanged _ _ ro lo Hagree) |].
      split; [exact Hs3 |]. intros [H | H]; discriminate H.
    + mem_step. cbn [uri_of].
      destruct (lookup uri (remote_files w3)) as [old |] eqn:Hold.
      * mem_step.
        match goal with |- context [run gio (sync_file_copy _ _ _ _) ?w5] =>
          destruct (sync_file_copy_on file_path uri w5) as (w6 & r & -> & Hs6 & Hsynced)
        end.
        assert (Hs : same_setting w w6).
        { apply (same_setting_trans _ w3); [exact Hs3 |].
          eapply same_setting_trans; [| exact Hs6]. repeat split. }
        destruct r as [u | e].
        -- eexists w6, _, replaced. split; [reflexivity |].
           split; [exact (transfer_replaced _ _ ro lo tt u Hagree) |].
           split; [exact Hs |]. intros _. exact (Hsynced u eq_refl).
        -- eexists w6, _, (failed copy_error). split; [reflexivity |].
           split; [exact (transfer_replace_failed _ _ ro lo tt e Hagree) |].
           split; [exact Hs |]. intros [H | H]; discriminate H.
      * mem_step. eexists _, _, (failed delete_error). split; [reflexivity |].
        split; [exact (transfer_delete_failed _ _ ro lo _ Hagree) |].
        split; [exact Hs3 |]. intros [H | H]; discriminate H.
  - destruct (sync_file_copy_on file_path uri w) as (w1 & r & -> & Hs & Hsynced).
    destruct r as [u | e].
    + eexists w1, _, created. split; [reflexivity |].
      split; [apply transfer_created |]. split; [exact Hs |].
      intros _. exact (Hsynced u eq_refl).
    + eexists w1, _, (failed copy_error). split; [reflexivity |].
      split; [apply transfer_create_failed |]. split; [exact Hs |].
      intros [H | H]; discriminate H.
Qed.

(** The transfer of a file whose remote copy is in sync and can be read:
    it is left as it is. *)
Lemma sync_file_transfer_in_sync file_path uri (w : world) :
  synced_state w file_path uri ->
  mem uri (unreadable w) = false ->
  exists w1 t,
    run gio (sync_file_transfer file_path uri (new_for_path file_path) (new_for_uri uri)) w
    = (Returned tt, w1, t)
    /\ transfer_trace file_path uri t skipped_no_change
    /\ same_files w w1
    /\ volumes w1 = volumes w
    /\ existsb is_delete t = false
    /\ existsb is_copy t = false.
Proof.
  intros (content & Hlocal & Hremote & Hin) Hread.
  unfold sync_file_transfer. mem_step. cbn [uri_of].
  unfold exists_remote. rewrite Hremote. rewrite run_bind.
  unfold get_remote_file_hash. mem_step. cbn [uri_of]. rewrite Hremote, Hread.
  rewrite stream_of_remote_digest. cbn [run]. rewrite run_bind.
  unfold compute_file_hash. mem_step. rewrite Hlocal.
  rewrite stream_of_local_digest. cbn [run].
  rewrite hexdigest_truthy, String.eqb_refl. cbn [andb]. mem_step.
  eexists _, _. split; [reflexivity |].
  assert (Hagree : hashes_agree (Ok (stream_of content)) (Ok (stream_of content)) = true).
  { apply hashes_agree_iff. exists (hashlib.hexdigest content).
    split; [apply stream_of_remote_digest | apply stream_of_local_digest]. }
  split.
  - pose proof (transfer_unchanged file_path uri _ _ Hagree) as Ht.
    unfold remote_hash_trace, local_hash_trace in Ht.
    rewrite stream_of_remote_digest, stream_of_local_digest in Ht. exact Ht.
  - repeat split.
Qed.

Lemma sync_file_body_on cfg cwd file_path rel_path (w : world) :
  posixpath.relpath cwd file_path (LOCAL_FOLDER cfg) = Ok rel_path ->
  exists w1 t o,
    run gio (sync_file_body cfg cwd file_path) w = (Returned tt, w1, t)
    /\ body_trace file_path (drive_file_path_of cfg rel_path) t o
    /\ same_setting w w1
    /\ (o = created \/ o = replaced ->
        synced_state w1 file_path (drive_file_path_of cfg rel_path)).
Proof.
  intros Hrel. unfold sync_file_body. rewrite Hrel. cbv zeta.
  generalize (drive_file_path_of cfg rel_path). intros uri. mem_step. cbn [uri_of].
  destruct (uri_parent uri) as [parent |] eqn:Hparent.
  - mem_step. cbn [uri_of]. rewrite Hparent.
    destruct (exists_remote w parent) eqn:Hthere; cbn [andb negb].
    + destruct (sync_file_transfer_on file_path uri w) as (w1 & t & o & -> & Ht & Hs & Hsynced).
      eexists w1, _, o. split; [reflexivity |].
      split; [apply body_parent_there, Ht |]. auto.
    + mem_step. cbn [uri_of]. rewrite Hparent, Hthere. mem_step. cbn [uri_of].
      rewrite Hparent.
      match goal with |- context [run gio (sync_file_transfer _ _ _ _) ?w2] =>
        destruct (sync_file_transfer_on file_path uri w2)
          as (w1 & t & o & -> & Ht & Hs & Hsynced)
      end.
      eexists w1, _, o. split; [reflexivity |].
      split; [apply body_parent_created, Ht |].
      split; [| exact Hsynced].
      eapply same_setting_trans; [| exact Hs]. repeat split.
  - mem_step. cbn [andb].
    destruct (sync_file_transfer_on file_path uri w) as (w1 & t & o & -> & Ht & Hs & Hsynced).
    eexists w1, _, o. split; [reflexivity |].
    split; [apply body_at_root, Ht |]. auto.
Qed.

Lemma sync_file_body_in_sync cfg cwd file_path rel_path (w : world) :
  posixpath.relpath cwd file_path (LOCAL_FOLDER cfg) = Ok rel_path ->
  synced_state w file_path (drive_file_path_of cfg rel_path) ->
  mem (drive_file_path_of cfg rel_path) (unreadable w) = false ->
  exists w1 t,
    run gio (sync_file_body cfg cwd file_path) w = (Returned tt, w1, t)
    /\ body_trace file_path (drive_file_path_of cfg rel_path) t skipped_no_change
    /\ same_files w w1
    /\ existsb is_delete t = false
    /\ existsb is_copy t = false.
Proof.
  intros Hrel. unfold sync_file_body. rewrite Hrel. cbv zeta.
  generalize (drive_file_path_of cfg rel_path). intros uri Hsynced Hread.
  mem_step. cbn [uri_of].
  destruct (sync_file_transfer_in_sync file_path uri w Hsynced Hread)
    as (w1 & t & Hrun & Ht & Hf & _ & Hd & Hc).
  destruct (uri_parent uri) as [parent |] eqn:Hparent.
  - mem_step. cbn [uri_of]. rewrite Hparent.
    assert (Hthere : exists_remote w parent = true).
    { destruct Hsynced as (content & _ & _ & Hin). unfold in_directory in Hin.
      rewrite Hparent in Hin. unfold exists_remote.
      destruct (lookup parent (remote_files w)); [reflexivity | exact Hin]. }
    rewrite Hthere. cbn [andb negb]. rewrite Hrun.
    eexists w1, _. split; [reflexivity |].
    split; [apply body_parent_there, Ht |]. split; [exact Hf |].
    cbn [existsb is_delete is_copy orb]. auto.
  - mem_step. cbn [andb]. rewrite Hrun. eexists w1, _. split; [reflexivity |].
    split; [apply body_at_root, Ht |]. split; [exact Hf |].
    cbn [existsb is_delete is_copy orb]. auto.
Qed.

Lemma body_trace_copies file_path uri t o :
  body_trace file_path uri t o -> o = created \/ o = replaced ->
  existsb is_copy_ok t = true.
Proof.
  intros Hbody Ho.
  destruct Hbody as [t o Ht | t o Ht | u uri' t o Ht | e uri'];
    try (destruct Ht; try (destruct Ho as [Ho | Ho]; discriminate Ho);
         cbn [existsb is_copy_ok orb]; no_such; cbn; rewrite ?orb_true_r; reflexivity).
  destruct Ho as [Ho | Ho]; discriminate Ho.
Qed.

End Idempotence.

(** C1, as the code has it.  On the reference platform, when a call of
    [sync_file] has copied (its outcome is created or replaced) the remote
    copy holds the local content; a second call, with nothing changed in
    between and the remote copy readable, then returns skipped-no-change:
    it makes no delete and no copy and leaves the files as they are. *)
Theorem second_sync_skips (cfg : config) (cwd file_path : string)
        (w : Mem.world) (c1 : completion unit) (w1 : Mem.world) (t1 : trace) :
  run Mem.gio (sync_file cfg cwd file_path) w = (c1, w1, t1) ->
  outcome_of t1 = Some created \/ outcome_of t1 = Some replaced ->
  (forall rel_path,
      posixpath.relpath cwd file_path (LOCAL_FOLDER cfg) = Ok rel_path ->
      Mem.mem (drive_file_path_of cfg rel_path) (Mem.unreadable w) = false) ->
  exists rel_path w2 t2,
    posixpath.relpath cwd file_path (LOCAL_FOLDER cfg) = Ok rel_path
    /\ Mem.synced_state w1 file_path (drive_file_path_of cfg rel_path)
    /\ run Mem.gio (sync_file cfg cwd file_path) w1 = (Returned tt, w2, t2)
    /\ outcome_of t2 = Some skipped_no_change
    /\ existsb is_delete t2 = false
    /\ existsb is_copy t2 = false
    /\ Mem.same_files w1 w2.
Proof.
  intros Hrun Hout Hread. rewrite sync_file_run in Hrun.
  destruct (Idempotence.availability_check_on cfg w)
    as (wg & tg & e & Hcheck & Hfg & Hvg & Hfinal & Hquery).
  rewrite Hcheck in Hrun.
  destruct (Mem.drive_available cfg wg) eqn:Hthere.
  - destruct (posixpath.relpath cwd file_path (LOCAL_FOLDER cfg)) as [rel | err] eqn:Hrel.
    + destruct (Idempotence.sync_file_body_on cfg cwd file_path rel wg Hrel)
        as (w1' & tb & o & Hbody & Htrace & Hs & Hsynced).
      rewrite Hbody in Hrun. injection Hrun as <- <- <-.
      rewrite (body_trace_outcome _ _ _ _ _ Htrace (volume_events_no_delete _ Hvg)) in Hout.
      assert (Ho : o = created \/ o = replaced) by (destruct Hout as [H | H]; injection H; auto).
      specialize (Hsynced Ho). destruct Hs as (Hv & Hu & Hlt & Hl).
      assert (Hthere1 : Mem.drive_available cfg w1' = true).
      { unfold Mem.drive_available in *. rewrite Hv. exact Hthere. }
      destruct (Idempotence.availability_check_there cfg w1' Hthere1) as (ta & Hcheck1 & Hva).
      assert (Hread1 : Mem.mem (drive_file_path_of cfg rel) (Mem.unreadable w1') = false).
      { rewrite Hu. destruct Hfg as (_ & _ & Hug & _). rewrite Hug. apply Hread. reflexivity. }
      destruct (Idempotence.sync_file_body_in_sync cfg cwd file_path rel w1' Hrel Hsynced Hread1)
        as (w2 & t2 & Hbody2 & Htrace2 & Hf2 & Hd2 & Hc2).
      exists rel, w2, (ta ++ t2). split; [reflexivity |]. split; [exact Hsynced |].
      split; [rewrite sync_file_run, Hcheck1, Hbody2; reflexivity |].
      split; [exact (body_trace_outcome _ _ _ _ _ Htrace2 (volume_events_no_delete _ Hva)) |].
      rewrite !existsb_app, Hd2, Hc2.
      rewrite (prelude_no_delete _ (volume_events_are_prelude _ Hva)).
      rewrite (prelude_no_copy _ (volume_events_are_prelude _ Hva)).
      repeat split; try reflexivity; apply Hf2.
    + rewrite (sync_file_body_raises Mem.gio cfg cwd file_path err wg Hrel) in Hrun.
      injection Hrun as <- <- <-. rewrite app_nil_r in Hout. unfold outcome_of in Hout.
      rewrite Hfinal in Hout. destruct e; try discriminate Hquery;
        destruct Hout as [H | H]; discriminate H.
  - injection Hrun as <- <- <-. exfalso. unfold outcome_of in Hout.
    rewrite final_app_r in Hout by discriminate. cbn in Hout.
    destruct Hout as [H | H]; discriminate H.
Qed.

(** C1, the wording of the specification against the code: for a file
    whose remote copy already has the local content, the first of two calls
    is skipped-no-change itself, neither created nor replaced. *)
Lemma first_sync_of_synced_file_skips :
  let r1 := run Mem.gio (sync_file example_config "/" Samples.b_txt) Samples.in_sync in
  let r2 := run Mem.gio (sync_file example_config "/" Samples.b_txt) (snd (fst r1)) in
  outcome_of (snd r1) = Some skipped_no_change
  /\ outcome_of (snd r1) <> Some created
  /\ outcome_of (snd r1) <> Some replaced
  /\ outcome_of (snd r2) = Some skipped_no_change.
Proof.
  assert (H1 : outcome_of (snd (run Mem.gio (sync_file example_config "/" Samples.b_txt)
                                    Samples.in_sync)) = Some skipped_no_change)
    by (vm_compute; reflexivity).
  assert (H2 : outcome_of
                 (snd (run Mem.gio (sync_file example_config "/" Samples.b_txt)
                           (snd (fst (run Mem.gio
                                          (sync_file example_config "/" Samples.b_txt)
                                          Samples.in_sync)))))
               = Some skipped_no_change)
    by (vm_compute; reflexivity).
  cbv zeta. rewrite H2, H1.
  refine (conj eq_refl (conj _ (conj _ eq_refl))); discriminate.
Qed.

(** ** The walk of the local tree *)

Module Walk.
Import Str posixpath.

Lemma node_induction (P : node -> Prop) :
  (forall content, P (File content)) ->
  (forall entries, Forall (fun e => P (snd e)) entries -> P (Dir entries)) ->
  forall n, P n.
Proof.
  intros HF HD.
  exact (fix IH (n : node) : P n :=
           match n with
           | File content => HF content
           | Dir entries =>
               HD entries
                  ((fix each (l : list (string * node)) : Forall (fun e => P (snd e)) l :=
                      match l with
                      | [] => Forall_nil _
                      | e :: l' => Forall_cons e (IH (snd e)) (each l')
                      end) entries)
           end).
Qed.

Lemma well_formed_Dir entries :
  well_formed (Dir entries)
  <-> NoDup (map fst entries)
      /\ Forall (fun e => valid_name (fst e) = true) entries
      /\ Forall (fun e => well_formed (snd e)) entries.
Proof.
  cbn [well_formed].
  assert (Heach : (fix each (es : list (string * node)) : Prop :=
                     match es with
                     | [] => True
                     | e :: rest => well_formed (snd e) /\ each rest
                     end) entries
                  <-> Forall (fun e => well_formed (snd e)) entries).
  { induction entries as [| e es IH].
    - split; [constructor | trivial].
    - split.
      + intros [He Hes]. constructor; [exact He | apply IH, Hes].
      + intros H. inversion H; subst. split; [assumption | apply IH; assumption]. }
  rewrite Heach. reflexivity.
Qed.

Lemma walk_targets_app l1 l2 : walk_targets (l1 ++ l2) = walk_targets l1 ++ walk_targets l2.
Proof. unfold walk_targets. apply flat_map_app. Qed.

Lemma walk_targets_flat_map {A : Type} (f : A -> list (string * list string * list string))
      (l : list A) :
  walk_targets (flat_map f l) = flat_map (fun x => walk_targets (f x)) l.
Proof.
  induction l as [| x l IH]; [reflexivity |].
  cbn [flat_map]. rewrite walk_targets_app, IH. reflexivity.
Qed.

(** The walk hands over the paths of the regular files, each as often as
    it is in the tree. *)
Lemma walk_targets_files top n :
  Permutation (walk_targets (walk_tree top n)) (map fst (files_below top n)).
Proof.
  revert top. induction n as [content | entries IH] using node_induction; intros top.
  - reflexivity.
  - cbn [walk_tree files_below].
    change (walk_targets ((top, dirnames entries, filenames entries) :: ?l))
      with (map (join top) (filenames entries) ++ walk_targets l).
    unfold walk_targets at 1. cbn [flat_map]. fold (walk_targets
      (flat_map (fun e => if is_dir (snd e) then walk_tree (join top (fst e)) (snd e) else [])
                entries)).
    rewrite walk_targets_flat_map.
    induction entries as [| [name sub] entries IHe].
    + reflexivity.
    + inversion IH as [| ? ? Hsub Hrest]; subst. specialize (IHe Hrest).
      cbn [flat_map fst snd]. unfold filenames in *. cbn [filter fst snd].
      destruct sub as [content | sub_entries]; cbn [is_dir negb].
      * cbn [map fst app walk_targets flat_map]. apply perm_skip. exact IHe.
      * rewrite map_app. cbn [fst snd] in Hsub.
        rewrite Permutation_app_swap_app.
        apply Permutation_app; [apply Hsub | exact IHe].
Qed.


(** *** Paths below a directory *)

Lemma no_sep_cons c s : no_sep (String c s) <-> c <> "/"%char /\ no_sep s.
Proof.
  unfold no_sep. cbn [contains startswith]. rewrite andb_true_r, orb_false_iff.
  rewrite Ascii.eqb_neq. split; intros [H1 H2]; split; auto.
Qed.

Lemma valid_name_no_sep name : valid_name name = true -> name <> "" /\ no_sep name.
Proof.
  unfold valid_name. intros H. apply andb_prop in H. destruct H as [H1 H2].
  split.
  - destruct name; [discriminate | discriminate].
  - unfold no_sep. destruct (contains "/" name); [discriminate | reflexivity].
Qed.

Lemma append_assoc (a b c : string) : ((a ++ b) ++ c = a ++ b ++ c)%string.
Proof. induction a as [| x a IH]; cbn; [reflexivity | rewrite IH; reflexivity]. Qed.

Lemma append_cancel_l (a b c : string) : (a ++ b = a ++ c)%string -> b = c.
Proof. induction a as [| x a IH]; cbn; intros H; [exact H | injection H as H; auto]. Qed.

Lemma length_append (a b : string) :
  String.length (a ++ b) = String.length a + String.length b.
Proof. induction a as [| x a IH]; cbn; [reflexivity | rewrite IH; reflexivity]. Qed.

Lemma endswith_sep_append a b : b <> "" -> endswith_sep (a ++ b) = endswith_sep b.
Proof.
  intros Hb. induction a as [| x a IH]; [reflexivity |].
  cbn [append endswith_sep]. destruct (a ++ b)%string eqn:E.
  - destruct a; [cbn in E; contradiction | discriminate].
  - exact IH.
Qed.

Lemma endswith_sep_contains s : endswith_sep s = true -> contains "/" s = true.
Proof.
  induction s as [| c s IH]; [discriminate |].
  cbn [endswith_sep contains startswith]. rewrite andb_true_r.
  destruct s as [| c' s'].
  - intros H. rewrite Ascii.eqb_sym, H. reflexivity.
  - intros H. rewrite (IH H). apply orb_true_r.
Qed.

Lemma join_valid top name :
  valid_name name = true -> join top name = (dir_prefix top ++ name)%string.
Proof.
  intros H. destruct (valid_name_no_sep _ H) as [Hne Hns].
  unfold join, dir_prefix.
  assert (Hs : startswith name "/" = false).
  { unfold no_sep in Hns. destruct name; [reflexivity |].
    cbn [contains] in Hns. apply orb_false_iff in Hns. apply Hns. }
  rewrite Hs. destruct (negb (truthy top) || endswith_sep top); [reflexivity |].
  rewrite append_assoc. reflexivity.
Qed.

Lemma dir_prefix_length top : String.length top <= String.length (dir_prefix top).
Proof.
  unfold dir_prefix. destruct (negb (truthy top) || endswith_sep top); [lia |].
  rewrite length_append. lia.
Qed.

Lemma join_longer top name :
  valid_name name = true -> String.length top < String.length (join top name).
Proof.
  intros H. rewrite (join_valid _ _ H), length_append.
  pose proof (dir_prefix_length top). destruct (valid_name_no_sep _ H) as [Hne _].
  destruct name; [contradiction | cbn; lia].
Qed.

(** A directory made by [join] with a file name takes a separator after it. *)
Lemma dir_prefix_join top name :
  valid_name name = true -> dir_prefix (join top name) = (join top name ++ "/")%string.
Proof.
  intros H. rewrite (join_valid _ _ H). destruct (valid_name_no_sep _ H) as [Hne Hns].
  assert (Hend : endswith_sep (dir_prefix top ++ name) = false).
  { rewrite (endswith_sep_append _ _ Hne). destruct (endswith_sep name) eqn:E; [| reflexivity].
    apply endswith_sep_contains in E. unfold no_sep in Hns. congruence. }
  assert (Htrue : truthy (dir_prefix top ++ name) = true).
  { destruct (dir_prefix top); [| reflexivity].
    destruct name; [contradiction | reflexivity]. }
  generalize dependent (dir_prefix top ++ name)%string. intros d Hend Htrue.
  unfold dir_prefix. rewrite Hend, Htrue. reflexivity.
Qed.

(** Everything below a directory is longer than its path. *)
Lemma all_below_longer n :
  forall top p, well_formed n -> In p (map fst (all_below top n)) ->
                String.length top < String.length p.
Proof.
  induction n as [content | entries IH] using node_induction; intros top p Hwf Hin.
  - contradiction.
  - apply well_formed_Dir in Hwf. destruct Hwf as (_ & Hvalid & Hsub).
    cbn [all_below] in Hin. apply in_map_iff in Hin. destruct Hin as ([p' b] & <- & Hin).
    apply in_flat_map in Hin. destruct Hin as ([name sub] & He & Hin).
    rewrite Forall_forall in IH, Hvalid, Hsub.
    specialize (Hvalid _ He). specialize (Hsub _ He). cbn [fst snd] in *.
    destruct Hin as [Hin | Hin].
    + injection Hin as <- _. apply join_longer, Hvalid.
    + pose proof (join_longer top name Hvalid).
      specialize (IH _ He (join top name) p' Hsub). cbn [snd] in IH.
      assert (In p' (map fst (all_below (join top name) sub)))
        by (apply in_map_iff; exists (p', b); auto).
      specialize (IH H0). lia.
Qed.

(** Everything below the directory [name] of [top] has its path, a
    separator, and more. *)
Lemma all_below_under n :
  forall top name p,
    well_formed n -> valid_name name = true ->
    In p (map fst (all_below (join top name) n)) ->
    exists r, p = (dir_prefix top ++ name ++ "/" ++ r)%string.
Proof.
  induction n as [content | entries IH] using node_induction; intros top name p Hwf Hname Hin.
  - contradiction.
  - apply well_formed_Dir in Hwf. destruct Hwf as (_ & Hvalid & Hsub).
    cbn [all_below] in Hin. apply in_map_iff in Hin. destruct Hin as ([p' b] & <- & Hin).
    apply in_flat_map in Hin. destruct Hin as ([name' sub] & He & Hin).
    rewrite Forall_forall in IH, Hvalid, Hsub.
    specialize (Hvalid _ He). specialize (Hsub _ He). cbn [fst snd] in *.
    destruct Hin as [Hin | Hin].
    + injection Hin as <- _. exists name'.
      rewrite (join_valid _ _ Hvalid), (dir_prefix_join _ _ Hname), (join_valid _ _ Hname).
      rewrite !append_assoc. reflexivity.
    + specialize (IH _ He (join top name) name' p' Hsub Hvalid). cbn [snd] in IH.
      destruct IH as [r Hr]; [apply in_map_iff; exists (p', b); auto |].
      exists (name' ++ "/" ++ r)%string. rewrite Hr.
      rewrite (dir_prefix_join _ _ Hname), (join_valid _ _ Hname).
      rewrite !append_assoc. reflexivity.
Qed.

Lemma names_agree n :
  forall m x y, no_sep n -> no_sep m -> at_boundary x -> at_boundary y ->
                (n ++ x = m ++ y)%string -> n = m.
Proof.
  induction n as [| c n IH]; intros m x y Hn Hm Hx Hy E.
  - destruct m as [| c' m]; [reflexivity |].
    apply no_sep_cons in Hm. destruct Hm as [Hc _].
    cbn in E. destruct Hx as [-> | [r ->]]; [discriminate |].
    cbn in E. injection E as E _. congruence.
  - apply no_sep_cons in Hn. destruct Hn as [Hc Hn].
    destruct m as [| c' m].
    + cbn in E. destruct Hy as [-> | [r ->]]; [discriminate |].
      cbn in E. injection E as E _. congruence.
    + apply no_sep_cons in Hm. destruct Hm as [_ Hm].
      cbn in E. injection E as -> E. f_equal. exact (IH _ _ _ Hn Hm Hx Hy E).
Qed.

Lemma block_at top e p :
  valid_name (fst e) = true -> well_formed (snd e) ->
  In p (map fst (block top e)) ->
  exists x, at_boundary x /\ p = (dir_prefix top ++ fst e ++ x)%string.
Proof.
  intros Hname Hwf [Hin | Hin].
  - exists ""%string. split; [left; reflexivity |].
    cbn [fst] in Hin. rewrite <- Hin, (join_valid _ _ Hname).
    f_equal. clear. induction (fst e) as [| c s IH]; cbn; [reflexivity | rewrite <- IH; reflexivity].
  - destruct (all_below_under _ _ _ _ Hwf Hname Hin) as [r ->].
    exists ("/" ++ r)%string. split; [right; exists r; reflexivity | reflexivity].
Qed.

(** In a well-formed tree no path is listed twice. *)
Lemma all_below_NoDup n :
  forall top, well_formed n -> NoDup (map fst (all_below top n)).
Proof.
  induction n as [content | entries IH] using node_induction; intros top Hwf.
  - constructor.
  - apply well_formed_Dir in Hwf. destruct Hwf as (Hnames & Hvalid & Hsub).
    cbn [all_below]. fold (block top).
    induction entries as [| e entries IHe]; [constructor |].
    inversion IH as [| ? ? IHsub IHrest]; subst.
    inversion Hvalid as [| ? ? Hname Hvalid']; subst.
    inversion Hsub as [| ? ? Hwf Hsub']; subst.
    cbn [map] in Hnames. apply NoDup_cons_iff in Hnames. destruct Hnames as [Hfresh Hnames].
    cbn [flat_map]. rewrite map_app. apply NoDup_app.
    + unfold block. cbn [map fst]. constructor.
      * intros Hin. apply (all_below_longer _ _ _ Hwf) in Hin. lia.
      * apply IHsub, Hwf.
    + apply IHe; assumption.
    + intros p Hin Hin'.
      apply in_map_iff in Hin'. destruct Hin' as ([p' b] & <- & Hin').
      apply in_flat_map in Hin'. destruct Hin' as (e' & He' & Hin').
      rewrite Forall_forall in Hvalid', Hsub'.
      destruct (block_at top e p' Hname Hwf Hin) as (x & Hx & Ex).
      destruct (block_at top e' p' (Hvalid' _ He') (Hsub' _ He')) as (y & Hy & Ey).
      { apply in_map_iff. exists (p', b). auto. }
      rewrite Ex in Ey. apply append_cancel_l in Ey.
      apply names_agree in Ey; auto;
        try (apply valid_name_no_sep; auto).
      apply Hfresh. rewrite Ey. apply in_map, He'.
Qed.

Lemma files_below_all n :
  forall top, map fst (files_below top n)
              = map fst (filter (fun x => negb (snd x)) (all_below top n)).
Proof.
  induction n as [content | entries IH] using node_induction; intros top; [reflexivity |].
  cbn [files_below all_below].
  induction entries as [| [name sub] entries IHe]; [reflexivity |].
  inversion IH as [| ? ? IHsub IHrest]; subst.
  cbn [flat_map fst snd]. rewrite filter_app, !map_app, (IHe IHrest).
  f_equal. destruct sub as [content | sub]; [reflexivity |].
  cbn [is_dir filter snd negb]. apply IHsub.
Qed.

Lemma dirs_below_all n :
  forall top, dirs_below top n = map fst (filter (fun x => snd x) (all_below top n)).
Proof.
  induction n as [content | entries IH] using node_induction; intros top; [reflexivity |].
  cbn [dirs_below all_below].
  induction entries as [| [name sub] entries IHe]; [reflexivity |].
  inversion IH as [| ? ? IHsub IHrest]; subst.
  cbn [flat_map fst snd]. rewrite filter_app, !map_app, (IHe IHrest).
  f_equal. destruct sub as [content | sub]; [reflexivity |].
  cbn [is_dir filter snd map fst]. f_equal. apply IHsub.
Qed.

Lemma NoDup_map_filter {A B : Type} (f : A -> B) (g : A -> bool) (l : list A) :
  NoDup (map f l) -> NoDup (map f (filter g l)).
Proof.
  induction l as [| a l IH]; [trivial |].
  cbn [map filter]. intros H. apply NoDup_cons_iff in H. destruct H as [Ha Hl].
  destruct (g a); [| auto].
  cbn [map]. constructor; [| auto].
  intros Hin. apply Ha. apply in_map_iff in Hin. destruct Hin as (x & <- & Hx).
  apply filter_In in Hx. apply in_map, Hx.
Qed.

Lemma NoDup_map_fst_agree {A B : Type} (l : list (A * B)) (a : A) (b b' : B) :
  NoDup (map fst l) -> In (a, b) l -> In (a, b') l -> b = b'.
Proof.
  induction l as [| [x y] l IH]; [contradiction |].
  cbn [map fst]. intros H. apply NoDup_cons_iff in H. destruct H as [Hx Hl].
  intros [E | Hin] [E' | Hin'].
  - congruence.
  - injection E as -> _. exfalso. apply Hx. apply (in_map fst _ _ Hin').
  - injection E' as -> _. exfalso. apply Hx. apply (in_map fst _ _ Hin).
  - auto.
Qed.

(** The paths the walk hands to [sync_file]: every regular file once, no
    directory, not the top. *)
Lemma walk_targets_exact top tree :
  well_formed tree ->
  (forall path content, In (path, content) (files_below top tree) ->
                        count_occ string_dec (walk_targets (walk_tree top tree)) path = 1)
  /\ (forall path, In path (walk_targets (walk_tree top tree)) ->
                   exists content, In (path, content) (files_below top tree))
  /\ (forall d, In d (top :: dirs_below top tree) ->
                ~ In d (walk_targets (walk_tree top tree))).
Proof.
  intros Hwf.
  pose proof (walk_targets_files top tree) as Hperm.
  pose proof (all_below_NoDup tree top Hwf) as Hall.
  assert (Hfiles : NoDup (map fst (files_below top tree))).
  { rewrite files_below_all. apply NoDup_map_filter, Hall. }
  split; [| split].
  - intros path content Hin.
    rewrite (proj1 (Permutation_count_occ string_dec _ _) Hperm).
    apply (proj1 (NoDup_count_occ' string_dec _) Hfiles).
    apply (in_map fst _ _ Hin).
  - intros path Hin. apply (Permutation_in _ Hperm) in Hin.
    apply in_map_iff in Hin. destruct Hin as ([p c] & <- & Hin). exists c. exact Hin.
  - intros d Hd Hin. apply (Permutation_in _ Hperm) in Hin.
    rewrite files_below_all in Hin.
    apply in_map_iff in Hin. destruct Hin as ([p b] & E & Hin). cbn [fst] in E. subst p.
    apply filter_In in Hin. destruct Hin as [Hin Hb]. cbn [snd] in Hb.
    destruct Hd as [<- | Hd].
    + assert (In top (map fst (all_below top tree))) as H'
          by (apply in_map_iff; exists (top, b); auto).
      apply (all_below_longer _ _ _ Hwf) in H'. lia.
    + rewrite dirs_below_all in Hd.
      apply in_map_iff in Hd. destruct Hd as ([p b'] & E & Hd). cbn [fst] in E. subst p.
      apply filter_In in Hd. destruct Hd as [Hd Hb']. cbn [snd] in Hb'.
      pose proof (NoDup_map_fst_agree _ _ _ _ Hall Hin Hd) as Hsame.
      destruct b, b'; discriminate.
Qed.

Lemma walk_targets_nonempty top tree path :
  well_formed tree -> In path (walk_targets (walk_tree top tree)) -> path <> "".
Proof.
  intros Hwf Hin. apply (Permutation_in _ (walk_targets_files top tree)) in Hin.
  rewrite files_below_all in Hin.
  apply in_map_iff in Hin. destruct Hin as (x & <- & Hin). apply filter_In in Hin.
  assert (In (fst x) (map fst (all_below top tree))) as H' by (apply in_map, Hin).
  apply (all_below_longer _ _ _ Hwf) in H'. intros E. rewrite E in H'. cbn in H'. lia.
Qed.

End Walk.

Section Pass.

Context {W : Type} (h : platform W) (cfg : config) (cwd : string).

(** A loop of [sync_file] over non-empty paths calls it on each, in turn. *)
Lemma for_each_syncs_in_turn (paths : list string) (w : W) :
  (forall p, In p paths -> p <> "") ->
  exists w1 t,
    run h (for_each paths (sync_file cfg cwd)) w = (Returned tt, w1, t)
    /\ syncs_in_turn h cfg cwd paths w t w1.
Proof.
  revert w. induction paths as [| p paths IH]; intros w Hne.
  - exists w, []. split; [reflexivity | constructor].
  - cbn [for_each]. rewrite run_bind.
    destruct (sync_file_exits h cfg cwd p w) as (c & w1 & pre & t & Hrun & _ & Hexit).
    assert (Hc : c = Returned tt).
    { destruct Hexit as [(-> & _) | [(rel & o & _ & -> & _) | (e & Hrel & _)]]; auto.
      destruct (relpath_ok cwd p (LOCAL_FOLDER cfg)) as [rel Hrel'];
        [apply Hne; left; reflexivity | congruence]. }
    subst c. rewrite Hrun.
    destruct (IH w1) as (w2 & t2 & Hrest & Hturn); [intros q Hq; apply Hne; right; exact Hq |].
    rewrite Hrest. exists w2, ((pre ++ t) ++ t2). split; [reflexivity |].
    econstructor; eassumption.
Qed.

End Pass.

(** C8.  On any platform, for every well-formed local tree (no name twice
    in a directory, names non-empty and without separator): when the check
    of lines 199-204 finds the drive and [os.walk] then lists the tree, the
    full pass returns and its run is the first record, the check, the walk,
    then one complete call of [sync_file] after the other on the paths
    [targets], then the closing record; every regular file below the local
    folder, at any depth, is among [targets] exactly once, every one of
    [targets] is such a file, and neither the local folder nor a directory
    below it is among them. *)
Theorem sync_all_files_syncs_each_file_once
        {W : Type} (h : platform W) (cfg : config) (cwd : string) (tree : node)
        (w w1 : W) (t1 : trace) :
  well_formed tree ->
  run h (availability_check cfg)
      (snd (h _ (log INFO "Performing initial sync of all files...") w))
  = (Returned true, w1, t1) ->
  fst (h _ (os_walk (LOCAL_FOLDER cfg)) w1) = walk_tree (LOCAL_FOLDER cfg) tree ->
  exists targets t2 w3 w4,
    syncs_in_turn h cfg cwd targets (snd (h _ (os_walk (LOCAL_FOLDER cfg)) w1)) t2 w3
    /\ run h (sync_all_files cfg cwd) w
       = (Returned tt, w4,
          E_log INFO "Performing initial sync of all files..."
          :: t1 ++ E_os_walk (LOCAL_FOLDER cfg) (walk_tree (LOCAL_FOLDER cfg) tree)
                   :: t2 ++ [E_log INFO "Initial sync complete."])
    /\ (forall path content,
           In (path, content) (files_below (LOCAL_FOLDER cfg) tree) ->
           count_occ string_dec targets path = 1)
    /\ (forall path, In path targets ->
                     exists content, In (path, content) (files_below (LOCAL_FOLDER cfg) tree))
    /\ (forall d, In d (LOCAL_FOLDER cfg :: dirs_below (LOCAL_FOLDER cfg) tree) ->
                  ~ In d targets).
Proof.
  intros Hwf Hcheck Hwalk.
  destruct (Walk.walk_targets_exact (LOCAL_FOLDER cfg) tree Hwf) as (Honce & Honly & Hdirs).
  destruct (for_each_syncs_in_turn h cfg cwd (walk_targets (walk_tree (LOCAL_FOLDER cfg) tree))
              (snd (h _ (os_walk (LOCAL_FOLDER cfg)) w1)))
    as (w3 & t2 & Hloop & Hturn).
  { intros p. apply Walk.walk_targets_nonempty, Hwf. }
  exists (walk_targets (walk_tree (LOCAL_FOLDER cfg) tree)), t2, w3,
         (snd (h _ (log INFO "Initial sync complete.") w3)).
  split; [exact Hturn |]. split; [| auto].
  rewrite sync_all_files_run. cbv zeta. rewrite Hcheck.
  rewrite sync_all_files_walk_run.
  destruct (h _ (os_walk (LOCAL_FOLDER cfg)) w1) as [triples w2]. cbn [fst snd] in *.
  subst triples. rewrite Hloop. reflexivity.
Qed.

(** ** The availability check, call by call *)

Section Availability.

Context {W : Type} (h : platform W) (cfg : config).

Lemma is_drive_available_loop_reads (mounts : list mount) (w : W) :
  exists b w1 read,
    run h (is_drive_available_loop cfg mounts) w = (Returned b, w1, root_uri_reads read)
    /\ ((b = false /\ map fst read = mounts /\ forallb (not_the_drive cfg) read = true)
        \/ (b = true
            /\ exists init m uri rest,
                 read = init ++ [(m, uri)]
                 /\ mounts = map fst init ++ m :: rest
                 /\ forallb (not_the_drive cfg) init = true
                 /\ is_google_drive_uri cfg uri = true)).
Proof.
  revert w. induction mounts as [| m mounts IH]; intros w.
  - exists false, w, []. split; [reflexivity |]. left. auto.
  - cbn [is_drive_available_loop]. step.
    destruct (h _ (get_root_uri m) w) as [uri w0].
    destruct (is_google_drive_uri cfg uri) eqn:Huri.
    + exists true, w0, [(m, uri)]. split; [reflexivity |]. right. split; [reflexivity |].
      exists [], m, uri, mounts. auto.
    + destruct (IH w0) as (b & w1 & read & Hrun & Hread). rewrite Hrun.
      exists b, w1, ((m, uri) :: read). split; [reflexivity |].
      destruct Hread as [(-> & Hall & Hnone) | (-> & init & m' & uri' & rest & -> & -> & Hnone & Hyes)].
      * left. cbn [map fst forallb]. rewrite Hall, Hnone.
        unfold not_the_drive. cbn [snd]. rewrite Huri. auto.
      * right. split; [reflexivity |].
        exists ((m, uri) :: init), m', uri', rest. cbn [map fst forallb app].
        rewrite Hnone. unfold not_the_drive. cbn [snd]. rewrite Huri. auto.
Qed.

End Availability.

(** [is_drive_available] (lines 50-63) on any platform: it returns, having
    listed the mounts and read their root URIs one by one in the order of
    the list; it answers [False] after reading them all, none being the
    drive's, and [True] at the first that is the drive's, without reading
    the mounts after it. *)
Theorem is_drive_available_stops_at_first_match
        {W : Type} (h : platform W) (cfg : config) (w : W) :
  exists b w1 mounts read,
    run h (is_drive_available cfg) w
    = (Returned b, w1, E_get_mounts mounts :: root_uri_reads read)
    /\ ((b = false /\ map fst read = mounts /\ forallb (not_the_drive cfg) read = true)
        \/ (b = true
            /\ exists init m uri rest,
                 read = init ++ [(m, uri)]
                 /\ mounts = map fst init ++ m :: rest
                 /\ forallb (not_the_drive cfg) init = true
                 /\ is_google_drive_uri cfg uri = true)).
Proof.
  unfold is_drive_available. step.
  destruct (h _ get_mounts w) as [mounts w0].
  destruct (is_drive_available_loop_reads h cfg mounts w0) as (b & w1 & read & Hrun & Hread).
  rewrite Hrun. exists b, w1, mounts, read. split; [reflexivity | exact Hread].
Qed.

(** ** The two hashers *)

Lemma read_chunks_all (chunks : list bytes) (acc : bytes) :
  Forall (fun chunk => chunk <> []) chunks ->
  read_chunks (map Ok chunks) acc = Ok (acc ++ concat chunks).
Proof.
  revert acc. induction chunks as [| chunk chunks IH]; intros acc Hall.
  - cbn. rewrite app_nil_r. reflexivity.
  - inversion Hall as [| ? ? Hchunk Hrest]; subst.
    cbn [map read_chunks concat].
    destruct chunk as [| b chunk]; [contradiction |].
    cbn [length Nat.eqb]. rewrite (IH _ Hrest). unfold hashlib.update.
    rewrite app_assoc. reflexivity.
Qed.

(** [get_remote_file_hash] (lines 108-124) on any platform: it never raises.
    It opens the remote file once; when the stream opens, every read
    succeeds up to the first empty chunk and the close succeeds, it returns
    the SHA-256 hex digest (64 characters) of the chunks read and logs
    nothing; in every other case it logs one error record and returns the
    empty string. *)
Theorem get_remote_file_hash_digest_or_sentinel
        {W : Type} (h : platform W) (dest_file : gfile) (w : W) :
  exists opened w1 digest records,
    run h (get_remote_file_hash dest_file) w
    = (Returned digest, w1, E_file_read dest_file opened :: records)
    /\ ((exists s data,
            opened = Ok s
            /\ read_chunks (reads s) hashlib.sha256 = Ok data
            /\ on_close s = Ok tt
            /\ digest = hashlib.hexdigest data
            /\ String.length digest = 64
            /\ records = [])
        \/ (exists e,
               remote_digest opened = Raise e
               /\ digest = ""
               /\ records = [E_log ERROR ("Failed to compute remote file hash: " ++ e)])).
Proof.
  destruct (get_remote_file_hash_run h dest_file w) as (opened & w1 & Hrun).
  rewrite Hrun. unfold remote_hash_trace.
  exists opened, w1, (hash_value (remote_digest opened)).
  destruct (remote_digest opened) as [d | e] eqn:Hd.
  - exists []. split; [reflexivity |]. left.
    unfold remote_digest in Hd. destruct opened as [s | e]; [| discriminate].
    destruct (read_chunks (reads s) hashlib.sha256) as [data | e] eqn:Hread; [| discriminate].
    destruct (on_close s) as [[] | e] eqn:Hclose; [| discriminate].
    injection Hd as <-. exists s, data. cbn [hash_value].
    repeat split; auto using hexdigest_length.
  - eexists. split; [reflexivity |]. right. exists e. auto.
Qed.

(** [compute_file_hash] (lines 127-137) on any platform: it never raises.
    It opens the local file once; when the file opens, every read succeeds
    up to the first empty chunk and leaving the [with] block closes it, it
    returns the SHA-256 hex digest of the chunks read and logs nothing; in
    every other case it logs one error record and returns the empty
    string.  A read that raises still closes the file: the exception logged
    is that of the close when the close raises as well. *)
Theorem compute_file_hash_digest_or_sentinel
        {W : Type} (h : platform W) (file_path : string) (w : W) :
  exists opened w1 digest records,
    run h (compute_file_hash file_path) w
    = (Returned digest, w1, E_open_rb file_path opened :: records)
    /\ ((exists f data,
            opened = Ok f
            /\ read_chunks (reads f) hashlib.sha256 = Ok data
            /\ on_close f = Ok tt
            /\ digest = hashlib.hexdigest data
            /\ String.length digest = 64
            /\ records = [])
        \/ (exists e,
               local_digest opened = Raise e
               /\ digest = ""
               /\ records = [E_log ERROR ("Failed to compute local file hash: " ++ e)]
               /\ forall f e_read e_close,
                    opened = Ok f ->
                    read_chunks (reads f) hashlib.sha256 = Raise e_read ->
                    on_close f = Raise e_close -> e = e_close)).
Proof.
  destruct (compute_file_hash_run h file_path w) as (opened & w1 & Hrun).
  rewrite Hrun. unfold local_hash_trace.
  exists opened, w1, (hash_value (local_digest opened)).
  destruct (local_digest opened) as [d | e] eqn:Hd.
  - exists []. split; [reflexivity |]. left.
    unfold local_digest in Hd. destruct opened as [f | e]; [| discriminate].
    destruct (read_chunks (reads f) hashlib.sha256) as [data | e] eqn:Hread;
      destruct (on_close f) as [[] | e'] eqn:Hclose; try discriminate.
    injection Hd as <-. exists f, data. cbn [hash_value].
    repeat split; auto using hexdigest_length.
  - eexists. split; [reflexivity |]. right. exists e.
    split; [reflexivity |]. split; [reflexivity |]. split; [reflexivity |].
    intros f e_read e_close -> Hread Hclose. unfold local_digest in Hd.
    rewrite Hread, Hclose in Hd. congruence.
Qed.

(** The two hashers agree on equal content, however it is cut into chunks:
    for a remote stream and a local file that deliver the same bytes, in
    non-empty chunks of any sizes, both digests are the SHA-256 of the
    bytes and the test of line 175 finds no change. *)
Theorem hashers_agree_on_equal_content (remote_chunks local_chunks : list bytes) :
  Forall (fun chunk => chunk <> []) remote_chunks ->
  Forall (fun chunk => chunk <> []) local_chunks ->
  concat remote_chunks = concat local_chunks ->
  remote_digest (Ok (stream_over remote_chunks))
  = Ok (hashlib.hexdigest (concat remote_chunks))
  /\ local_digest (Ok (stream_over local_chunks))
     = Ok (hashlib.hexdigest (concat remote_chunks))
  /\ hashes_agree (Ok (stream_over remote_chunks)) (Ok (stream_over local_chunks)) = true.
Proof.
  intros Hremote Hlocal Hsame.
  assert (Hr : remote_digest (Ok (stream_over remote_chunks))
               = Ok (hashlib.hexdigest (concat remote_chunks))).
  { unfold remote_digest, stream_over. cbn [reads on_close].
    rewrite (read_chunks_all _ _ Hremote). reflexivity. }
  assert (Hl : local_digest (Ok (stream_over local_chunks))
               = Ok (hashlib.hexdigest (concat remote_chunks))).
  { unfold local_digest, stream_over. cbn [reads on_close].
    rewrite (read_chunks_all _ _ Hlocal), Hsame. reflexivity. }
  split; [exact Hr |]. split; [exact Hl |].
  apply hashes_agree_iff. eexists. split; eassumption.
Qed.

(** ** The calls of a single-file sync that change the drive *)

Section Transfers.

Variables file_path uri : string.

Lemma transfer_trace_delete t o f r :
  transfer_trace file_path uri t o ->
  In (E_file_delete f r) t ->
  exists remote_opened local_opened after,
    f = new_for_uri uri
    /\ t = (E_query_exists f true
            :: remote_hash_trace f remote_opened ++ local_hash_trace file_path local_opened)
           ++ E_file_delete f r :: after
    /\ hashes_agree remote_opened local_opened = false
    /\ existsb is_delete after = false.
Proof.
  intros Ht Hin.
  destruct Ht as [u | e | ro lo Hagree | ro lo e Hagree | ro lo u u' Hagree | ro lo u e Hagree].
  - in_trace Hin; discriminate.
  - in_trace Hin; discriminate.
  - in_trace Hin; try discriminate.
  - destruct Hin as [Hin | Hin]; [discriminate |].
    in_trace Hin; try discriminate; injection Hin as <- <-;
      exists ro, lo; eexists; (split; [reflexivity |]);
      (split; [cbn [app]; rewrite <- app_assoc; reflexivity |]); auto.
  - destruct Hin as [Hin | Hin]; [discriminate |].
    in_trace Hin; try discriminate; injection Hin as <- <-;
      exists ro, lo; eexists; (split; [reflexivity |]);
      (split; [cbn [app]; rewrite <- app_assoc; reflexivity |]); auto.
  - destruct Hin as [Hin | Hin]; [discriminate |].
    in_trace Hin; try discriminate; injection Hin as <- <-;
      exists ro, lo; eexists; (split; [reflexivity |]);
      (split; [cbn [app]; rewrite <- app_assoc; reflexivity |]); auto.
Qed.

End Transfers.

(** [sync_file] deletes on the drive only what it has compared (lines
    172-186).  On any platform, a delete in a run of [sync_file] is the
    only one, it is of the remote target itself, and it comes after the
    target was found to exist and after an attempt to read both the remote
    and the local content, whose digests did not agree; no copy precedes
    it. *)
Theorem sync_file_deletes_after_comparison
        {W : Type} (h : platform W) (cfg : config) (cwd file_path : string) (w : W)
        (c : completion unit) (w1 : W) (t : trace) (f : gfile) (r : result unit) :
  run h (sync_file cfg cwd file_path) w = (c, w1, t) ->
  In (E_file_delete f r) t ->
  exists rel_path before after remote_opened local_opened,
    posixpath.relpath cwd file_path (LOCAL_FOLDER cfg) = Ok rel_path
    /\ f = new_for_uri (drive_file_path_of cfg rel_path)
    /\ t = before ++ E_file_delete f r :: after
    /\ In (E_query_exists f true) before
    /\ In (E_file_read f remote_opened) before
    /\ In (E_open_rb file_path local_opened) before
    /\ hashes_agree remote_opened local_opened = false
    /\ existsb is_delete before = false
    /\ existsb is_copy before = false
    /\ existsb is_delete after = false.
Proof.
  intros Hrun Hin.
  destruct (sync_file_transfers h cfg cwd file_path w)
    as (c' & w1' & pre & t' & Hrun' & Hpre & Hexit).
  rewrite Hrun in Hrun'. injection Hrun' as -> -> ->.
  apply in_app_or in Hin. destruct Hin as [Hin | Hin].
  { apply (forallb_In _ _ _ Hpre) in Hin. discriminate. }
  destruct Hexit as [(_ & ->) | [(rel & o & Hrel & _ & Ht) | [(uri & e & _ & ->) | (e & _ & _ & ->)]]].
  - in_trace Hin; discriminate.
  - destruct (transfer_trace_delete _ _ _ _ _ _ Ht Hin)
      as (ro & lo & after & -> & -> & Hagree & Hafter).
    exists rel, (pre ++ E_query_exists (new_for_uri (drive_file_path_of cfg rel)) true
                     :: remote_hash_trace (new_for_uri (drive_file_path_of cfg rel)) ro
                     ++ local_hash_trace file_path lo),
           after, ro, lo.
    split; [exact Hrel |]. split; [reflexivity |].
    split; [rewrite <- app_assoc; reflexivity |].
    split; [apply in_or_app; right; left; reflexivity |].
    split; [apply in_or_app; right; right; apply in_or_app; left; left; reflexivity |].
    split; [apply in_or_app; right; right; apply in_or_app; right; left; reflexivity |].
    split; [exact Hagree |].
    rewrite !existsb_app, (prelude_no_delete _ Hpre), (prelude_no_copy _ Hpre).
    cbn [existsb is_delete is_copy orb]. no_such. auto.
  - in_trace Hin; discriminate.
  - destruct Hin.
Qed.

(** [sync_file] copies once, into the target (lines 188-193).  On any
    platform, a copy in a run of [sync_file] is the only one, from the
    local file to the remote target; it comes right after the target was
    found absent, or right after the record of its successful delete, and
    nothing follows it but the record of its result. *)
Theorem sync_file_copies_once_into_target
        {W : Type} (h : platform W) (cfg : config) (cwd file_path : string) (w : W)
        (c : completion unit) (w1 : W) (t : trace) (src dest : gfile) (r : result unit) :
  run h (sync_file cfg cwd file_path) w = (c, w1, t) ->
  In (E_file_copy src dest r) t ->
  exists rel_path before,
    posixpath.relpath cwd file_path (LOCAL_FOLDER cfg) = Ok rel_path
    /\ src = new_for_path file_path
    /\ dest = new_for_uri (drive_file_path_of cfg rel_path)
    /\ t = before
           ++ [E_file_copy src dest r;
               match r with
               | Ok _ => synced_record file_path (drive_file_path_of cfg rel_path)
               | Raise e => copy_failed_record file_path (drive_file_path_of cfg rel_path) e
               end]
    /\ existsb is_copy before = false
    /\ ((final before = Some (E_query_exists dest false)
         /\ existsb is_delete before = false)
        \/ (final before
            = Some (E_log INFO ("Deleted existing file: " ++ drive_file_path_of cfg rel_path))
            /\ In (E_file_delete dest (Ok tt)) before)).
Proof.
  intros Hrun Hin.
  destruct (sync_file_transfers h cfg cwd file_path w)
    as (c' & w1' & pre & t' & Hrun' & Hpre & Hexit).
  rewrite Hrun in Hrun'. injection Hrun' as -> -> ->.
  apply in_app_or in Hin. destruct Hin as [Hin | Hin].
  { apply (forallb_In _ _ _ Hpre) in Hin. discriminate. }
  destruct Hexit as [(_ & ->) | [(rel & o & Hrel & _ & Ht) | [(uri & e & _ & ->) | (e & _ & _ & ->)]]].
  - in_trace Hin; discriminate.
  - exists rel.
    destruct Ht as [u | e | ro lo Hagree | ro lo e Hagree | ro lo [] u' Hagree | ro lo [] e Hagree].
    + in_trace Hin; try discriminate. injection Hin as <- <- <-.
      exists (pre ++ [E_query_exists (new_for_uri (drive_file_path_of cfg rel)) false]).
      split; [exact Hrel |]. split; [reflexivity |]. split; [reflexivity |].
      split; [rewrite <- app_assoc; reflexivity |].
      rewrite !existsb_app, (prelude_no_copy _ Hpre), (prelude_no_delete _ Hpre).
      split; [reflexivity |]. left. rewrite final_app_r by discriminate. auto.
    + in_trace Hin; try discriminate. injection Hin as <- <- <-.
      exists (pre ++ [E_query_exists (new_for_uri (drive_file_path_of cfg rel)) false]).
      split; [exact Hrel |]. split; [reflexivity |]. split; [reflexivity |].
      split; [rewrite <- app_assoc; reflexivity |].
      rewrite !existsb_app, (prelude_no_copy _ Hpre), (prelude_no_delete _ Hpre).
      split; [reflexivity |]. left. rewrite final_app_r by discriminate. auto.
    + in_trace Hin; discriminate.
    + in_trace Hin; discriminate.
    + destruct Hin as [Hin | Hin]; [discriminate |].
      in_trace Hin; try discriminate; injection Hin as <- <- <-;
        exists (pre ++ E_query_exists (new_for_uri (drive_file_path_of cfg rel)) true
                    :: remote_hash_trace (new_for_uri (drive_file_path_of cfg rel)) ro
                    ++ local_hash_trace file_path lo
                    ++ [E_file_delete (new_for_uri (drive_file_path_of cfg rel)) (Ok tt);
                        E_log INFO ("Deleted existing file: " ++ drive_file_path_of cfg rel)]);
        (split; [exact Hrel |]); (split; [reflexivity |]); (split; [reflexivity |]);
        (split; [rewrite <- !app_assoc; cbn [app]; rewrite <- !app_assoc; reflexivity |]);
        (split; [rewrite existsb_app, (prelude_no_copy _ Hpre);
                 cbn [existsb is_copy orb]; no_such; reflexivity |]);
        right; (split; [rewrite app_comm_cons, !app_assoc, final_app_r by discriminate;
                        reflexivity |]);
        apply in_or_app; right; right; apply in_or_app; right; apply in_or_app; right;
        left; reflexivity.
    + destruct Hin as [Hin | Hin]; [discriminate |].
      in_trace Hin; try discriminate; injection Hin as <- <- <-;
        exists (pre ++ E_query_exists (new_for_uri (drive_file_path_of cfg rel)) true
                    :: remote_hash_trace (new_for_uri (drive_file_path_of cfg rel)) ro
                    ++ local_hash_trace file_path lo
                    ++ [E_file_delete (new_for_uri (drive_file_path_of cfg rel)) (Ok tt);
                        E_log INFO ("Deleted existing file: " ++ drive_file_path_of cfg rel)]);
        (split; [exact Hrel |]); (split; [reflexivity |]); (split; [reflexivity |]);
        (split; [rewrite <- !app_assoc; cbn [app]; rewrite <- !app_assoc; reflexivity |]);
        (split; [rewrite existsb_app, (prelude_no_copy _ Hpre);
                 cbn [existsb is_copy orb]; no_such; reflexivity |]);
        right; (split; [rewrite app_comm_cons, !app_assoc, final_app_r by discriminate;
                        reflexivity |]);
        apply in_or_app; right; right; apply in_or_app; right; apply in_or_app; right;
        left; reflexivity.
  - in_trace Hin; discriminate.
  - destruct Hin.
Qed.

(** The parent directory comes first (lines 157-168).  On any platform, a
    [make_directory_with_parents] in a run of [sync_file] is on the parent
    of the remote target, right after that parent was found missing, and
    before anything was asked of the target.  When it succeeds the transfer
    follows; when it raises, the warning is the last record: the target is
    not queried, and nothing is deleted or copied. *)
Theorem sync_file_creates_parent_before_transfer
        {W : Type} (h : platform W) (cfg : config) (cwd file_path : string) (w : W)
        (c : completion unit) (w1 : W) (t : trace) (f : gfile) (r : result unit) :
  run h (sync_file cfg cwd file_path) w = (c, w1, t) ->
  In (E_make_directory_with_parents f r) t ->
  exists rel_path pre uri after,
    posixpath.relpath cwd file_path (LOCAL_FOLDER cfg) = Ok rel_path
    /\ f = parent_of (new_for_uri (drive_file_path_of cfg rel_path))
    /\ t = pre ++ E_get_parent (new_for_uri (drive_file_path_of cfg rel_path)) true
               :: E_query_exists f false
               :: E_make_directory_with_parents f r
               :: E_get_uri f uri :: after
    /\ forallb is_volume_event pre = true
    /\ match r with
       | Ok _ =>
           exists rest o,
             after = E_log INFO ("Created parent directory: " ++ uri) :: rest
             /\ transfer_trace file_path (drive_file_path_of cfg rel_path) rest o
       | Raise e =>
           after = [E_log WARNING ("Failed to create parent directory " ++ uri ++ ": " ++ e)]
       end.
Proof.
  intros Hrun Hin.
  destruct (sync_file_exits h cfg cwd file_path w)
    as (c' & w1' & pre & t' & Hrun' & Hpre & Hexit).
  rewrite Hrun in Hrun'. injection Hrun' as -> -> ->.
  apply in_app_or in Hin. destruct Hin as [Hin | Hin].
  { apply (forallb_In _ _ _ Hpre) in Hin. discriminate. }
  destruct Hexit as [(_ & -> & _) | [(rel & o & Hrel & _ & Hbody) | (e & _ & _ & ->)]].
  - in_trace Hin; discriminate.
  - exists rel, pre.
    assert (Hno : forall t0 o0,
               transfer_trace file_path (drive_file_path_of cfg rel) t0 o0 ->
               In (E_make_directory_with_parents f r) t0 -> False).
    { intros t0 o0 Ht0 Hin0. destruct Ht0; in_trace Hin0; discriminate. }
    destruct Hbody as [t0 o0 Ht | t0 o0 Ht | [] uri t0 o0 Ht | e uri].
    + destruct Hin as [Hin | Hin]; [discriminate | destruct (Hno _ _ Ht Hin)].
    + destruct Hin as [Hin | [Hin | Hin]]; try discriminate. destruct (Hno _ _ Ht Hin).
    + destruct Hin as [Hin | [Hin | [Hin | [Hin | [Hin | Hin]]]]]; try discriminate.
      * injection Hin as <- <-. exists uri. eexists.
        split; [exact Hrel |]. split; [reflexivity |]. split; [reflexivity |].
        split; [exact Hpre |]. eauto.
      * destruct (Hno _ _ Ht Hin).
    + in_trace Hin; try discriminate. injection Hin as <- <-. exists uri. eexists.
      split; [exact Hrel |]. split; [reflexivity |]. split; [reflexivity |].
      split; [exact Hpre |]. reflexivity.
  - destruct Hin.
Qed.

(** ** Targets of different files *)

Section Targets.
Import Str posixpath.

Lemma join_relative a b :
  startswith b "/" = false -> join a b = (dir_prefix a ++ b)%string.
Proof.
  intros Hb. unfold join, dir_prefix. rewrite Hb.
  destruct (negb (truthy a) || endswith_sep a); [reflexivity |].
  rewrite Walk.append_assoc. reflexivity.
Qed.

Lemma lstrip_sep_app a b :
  startswith b "/" = false -> lstrip_sep (a ++ b) = (lstrip_sep a ++ b)%string.
Proof.
  intros Hb. induction a as [| c a IH].
  - apply lstrip_sep_id, Hb.
  - cbn [append lstrip_sep]. destruct (Ascii.eqb c "/"); [exact IH | reflexivity].
Qed.

(** The target of a relative path is a fixed URI, then the path. *)
Lemma drive_file_path_of_relative cfg rel_path :
  startswith rel_path "/" = false ->
  drive_file_path_of cfg rel_path
  = ((GOOGLE_DRIVE_PREFIX ++ DRIVE_USER cfg ++ "/"
      ++ lstrip_sep (dir_prefix (GOOGLE_DRIVE_FOLDER cfg))) ++ rel_path)%string.
Proof.
  intros Hrel. unfold drive_file_path_of.
  rewrite (join_relative _ _ Hrel), (lstrip_sep_app _ _ Hrel).
  rewrite !Walk.append_assoc. reflexivity.
Qed.

End Targets.

(** Different files never meet on the drive (lines 150-151).  For every
    configuration, two paths whose relative paths from the local folder
    differ have different remote targets: the target is a fixed URI
    followed by the relative path. *)
Theorem different_relative_paths_different_targets
        (cfg : config) (cwd path1 path2 rel1 rel2 : string) :
  posixpath.relpath cwd path1 (LOCAL_FOLDER cfg) = Ok rel1 ->
  posixpath.relpath cwd path2 (LOCAL_FOLDER cfg) = Ok rel2 ->
  rel1 <> rel2 ->
  drive_file_path_of cfg rel1 <> drive_file_path_of cfg rel2.
Proof.
  intros H1 H2 Hdiff Hsame.
  rewrite (drive_file_path_of_relative cfg rel1 (relpath_relative _ _ _ _ H1)) in Hsame.
  rewrite (drive_file_path_of_relative cfg rel2 (relpath_relative _ _ _ _ H2)) in Hsame.
  apply Walk.append_cancel_l in Hsame. contradiction.
Qed.

(** ** The watcher's handlers and the screen saver signal *)

Section Handlers.

Context {W : Type} (h : platform W) (cfg : config) (cwd : string).

(** A sync of a non-empty path returns, shows an outcome, and calls the
    drive on its target and the parent of its target only. *)
Lemma sync_file_on_target (file_path : string) (w : W) :
  file_path <> "" ->
  exists rel_path w1 t o,
    posixpath.relpath cwd file_path (LOCAL_FOLDER cfg) = Ok rel_path
    /\ run h (sync_file cfg cwd file_path) w = (Returned tt, w1, t)
    /\ outcome_of t = Some o
    /\ forall e f, In e t -> remote_file_of e = Some f ->
         f = new_for_uri (drive_file_path_of cfg rel_path)
         \/ f = parent_of (new_for_uri (drive_file_path_of cfg rel_path)).
Proof.
  intros Hpath. destruct (relpath_ok cwd file_path (LOCAL_FOLDER cfg) Hpath) as [rel Hrel].
  destruct (sync_file_exits h cfg cwd file_path w)
    as (c & w1 & pre & t & Hrun & Hpre & Hexit).
  exists rel.
  destruct Hexit as [(-> & -> & _) | [(rel' & o & Hrel' & -> & Hbody) | (e & Hrel' & _)]].
  - exists w1, (pre ++ [E_log WARNING "Mounting failed. Skipping sync."]), skipped_no_drive.
    split; [exact Hrel |]. split; [exact Hrun |].
    split; [unfold outcome_of; rewrite final_app_r by discriminate; reflexivity |].
    intros e f Hin Hf. apply in_app_or in Hin. destruct Hin as [Hin | Hin].
    + rewrite (volume_events_no_remote_file _ _ Hpre Hin) in Hf. discriminate.
    + in_trace Hin; subst e; discriminate.
  - rewrite Hrel in Hrel'. injection Hrel' as <-.
    exists w1, (pre ++ t), o.
    split; [exact Hrel |]. split; [exact Hrun |].
    split; [apply (body_trace_outcome _ _ _ _ _ Hbody), volume_events_no_delete, Hpre |].
    intros e f Hin Hf. apply in_app_or in Hin. destruct Hin as [Hin | Hin].
    + rewrite (volume_events_no_remote_file _ _ Hpre Hin) in Hf. discriminate.
    + destruct Hbody as [t o Ht | t o Ht | u uri t o Ht | e' uri];
        try destruct Ht; in_trace Hin; subst e; cbn in Hf; try discriminate;
        injection Hf as <-; auto.
  - congruence.
Qed.

End Handlers.

(** [SyncHandler.on_moved] (lines 238-241) on any platform.  An event on a
    directory makes no call.  An event on a file makes the calls of
    [sync_file] on the destination path: the handler returns (no exception
    reaches the observer's thread), the run shows one outcome, and every
    call on the drive is on the target of the destination path or on its
    parent; nothing is done about the path the file was moved from. *)
Theorem on_moved_syncs_destination
        {W : Type} (h : platform W) (cfg : config) (cwd : string)
        (event : FileSystemEvent) (w : W) :
  (is_directory event = true ->
   run h (SyncHandler.on_moved cfg cwd event) w = (Returned tt, w, []))
  /\ (is_directory event = false -> dest_path event <> "" ->
      exists rel_path w1 t o,
        posixpath.relpath cwd (dest_path event) (LOCAL_FOLDER cfg) = Ok rel_path
        /\ run h (SyncHandler.on_moved cfg cwd event) w = (Returned tt, w1, t)
        /\ outcome_of t = Some o
        /\ forall e f, In e t -> remote_file_of e = Some f ->
             f = new_for_uri (drive_file_path_of cfg rel_path)
             \/ f = parent_of (new_for_uri (drive_file_path_of cfg rel_path))).
Proof.
  unfold SyncHandler.on_moved. split.
  - intros ->. reflexivity.
  - intros -> Hpath. cbn [negb]. apply sync_file_on_target, Hpath.
Qed.

(** [SyncHandler.on_modified] and [SyncHandler.on_created] (lines 243-251)
    on any platform.  Both make the same calls on the same event: none for
    a directory, and for a file those of [sync_file] on the source path,
    returning with one outcome and calling the drive on the target of that
    path and its parent only. *)
Theorem file_events_sync_source
        {W : Type} (h : platform W) (cfg : config) (cwd : string)
        (event : FileSystemEvent) (w : W) :
  run h (SyncHandler.on_created cfg cwd event) w
  = run h (SyncHandler.on_modified cfg cwd event) w
  /\ (is_directory event = true ->
      run h (SyncHandler.on_modified cfg cwd event) w = (Returned tt, w, []))
  /\ (is_directory event = false -> src_path event <> "" ->
      exists rel_path w1 t o,
        posixpath.relpath cwd (src_path event) (LOCAL_FOLDER cfg) = Ok rel_path
        /\ run h (SyncHandler.on_modified cfg cwd event) w = (Returned tt, w1, t)
        /\ outcome_of t = Some o
        /\ forall e f, In e t -> remote_file_of e = Some f ->
             f = new_for_uri (drive_file_path_of cfg rel_path)
             \/ f = parent_of (new_for_uri (drive_file_path_of cfg rel_path))).
Proof.
  unfold SyncHandler.on_created, SyncHandler.on_modified.
  split; [reflexivity |]. split.
  - intros ->. reflexivity.
  - intros -> Hpath. cbn [negb]. apply sync_file_on_target, Hpath.
Qed.

(** [on_screen_locked] (lines 226-232) on any platform.  A signal that does
    not set [Active] to a true value (an unlock, or a change of another
    property) makes no call.  A lock logs its record and runs the full
    pass: when the availability check of the pass fails, the handler
    returns having walked nothing and called nothing on the drive;
    otherwise the walk follows the check. *)
Theorem on_screen_locked_syncs_on_lock_only
        {W : Type} (h : platform W) (cfg : config) (cwd : string)
        (changed_properties : list (string * bool)) (w : W) :
  (changed "Active" changed_properties <> Some true ->
   run h (on_screen_locked cfg cwd changed_properties) w = (Returned tt, w, []))
  /\ (changed "Active" changed_properties = Some true ->
      exists b w1 t1,
        run h (availability_check cfg)
            (snd (h _ (log INFO "Performing initial sync of all files...")
                    (snd (h _ (log INFO "Screen locked. Performing a full sync...") w))))
        = (Returned b, w1, t1)
        /\ (b = false ->
            exists w2 t,
              run h (on_screen_locked cfg cwd changed_properties) w = (Returned tt, w2, t)
              /\ t = E_log INFO "Screen locked. Performing a full sync..."
                     :: E_log INFO "Performing initial sync of all files..."
                     :: t1 ++ [E_log WARNING "Mounting failed. Skipping initial sync."]
              /\ existsb is_os_walk t = false
              /\ existsb touches_remote t = false)
        /\ (b = true ->
            exists c w2 t2,
              run h (on_screen_locked cfg cwd changed_properties) w
              = (c, w2,
                 E_log INFO "Screen locked. Performing a full sync..."
                 :: E_log INFO "Performing initial sync of all files..."
                 :: t1 ++ E_os_walk (LOCAL_FOLDER cfg)
                                    (fst (h _ (os_walk (LOCAL_FOLDER cfg)) w1)) :: t2))).
Proof.
  unfold on_screen_locked. split.
  - intros Hno. destruct (changed "Active" changed_properties) as [[] |]; try reflexivity.
    contradiction.
  - intros ->. step.
    destruct (h _ (log INFO "Screen locked. Performing a full sync...") w) as [[] w0].
    cbn [snd]. rewrite sync_all_files_run. cbv zeta.
    destruct (availability_check_run h cfg
                (snd (h _ (log INFO "Performing initial sync of all files...") w0)))
      as (b & w1 & t1 & Hcheck & Hvol).
    rewrite Hcheck. exists b, w1, t1. split; [reflexivity |]. split.
    + intros ->. eexists _, _. split; [reflexivity |]. split; [reflexivity |].
      cbn [existsb is_os_walk touches_remote orb]. rewrite !existsb_app.
      rewrite (volume_events_no_walk _ Hvol), (volume_events_off_remote _ Hvol).
      split; reflexivity.
    + intros ->. rewrite sync_all_files_walk_run.
      destruct (h _ (os_walk (LOCAL_FOLDER cfg)) w1) as [triples w2]. cbn [fst].
      destruct (run h (for_each (walk_targets triples) (sync_file cfg cwd)) w2)
        as [[[[] | e] w3] t3].
      * eexists _, _, _. reflexivity.
      * eexists _, _, _. reflexivity.
Qed.

(** ** What a sync leaves alone, on the reference platform *)

Module Frame.
Import Mem MemFacts.

Lemma lookup_remove_other {A : Type} (key key' : string) (l : list (string * A)) :
  key' <> key -> lookup key (remove_key key' l) = lookup key l.
Proof.
  intros Hdiff. induction l as [| [k a] l IH]; [reflexivity |].
  cbn [remove_key lookup]. destruct (String.eqb k key') eqn:Hk'.
  - apply String.eqb_eq in Hk'. subst k.
    destruct (String.eqb key' key) eqn:Hk; [apply String.eqb_eq in Hk; contradiction |].
    exact IH.
  - cbn [lookup]. rewrite IH. reflexivity.
Qed.

(** A call changes the remote files at the URI it writes, if any. *)
Lemma gio_writes {X : Type} (c : call X) (w : world) (uri : string) :
  written_uri (observe c (fst (gio X c w))) <> Some uri ->
  lookup uri (remote_files (snd (gio X c w))) = lookup uri (remote_files w).
Proof.
  destruct c; cbn [gio observe fst snd written_uri]; intros H; try reflexivity.
  - destruct (vol_on_mount (nth v (volumes w) no_volume)); reflexivity.
  - destruct (vol_on_mount (nth r (volumes w) no_volume)); reflexivity.
  - destruct (exists_remote w (uri_of f)); reflexivity.
  - destruct (lookup (uri_of f) (remote_files w)); [| reflexivity].
    destruct (mem (uri_of f) (unreadable w)); reflexivity.
  - destruct (lookup (uri_of f) (remote_files w)) eqn:Hthere; [| reflexivity].
    cbn [fst snd observe written_uri with_remote remote_files] in *.
    apply lookup_remove_other. congruence.
  - destruct src as [path | u | f']; try reflexivity.
    destruct (local_file w path); [| reflexivity].
    destruct (mem (uri_of dest) (remote_dirs w)); [reflexivity |].
    destruct (in_directory w (uri_of dest)); [| reflexivity].
    cbn [fst snd observe written_uri with_remote remote_files lookup] in *.
    destruct (String.eqb (uri_of dest) uri) eqn:Heq.
    + apply String.eqb_eq in Heq. congruence.
    + apply lookup_remove_other. congruence.
  - destruct (local_file w path); reflexivity.
Qed.

Lemma run_writes {A : Type} (p : Prog A) (w : world) c w1 t (uri : string) :
  run gio p w = (c, w1, t) ->
  (forall e, In e t -> written_uri e <> Some uri) ->
  lookup uri (remote_files w1) = lookup uri (remote_files w).
Proof.
  revert w c w1 t. induction p as [a | e | X call k IH]; intros w c w1 t; cbn [run].
  - intros H _. injection H as _ <- _. reflexivity.
  - intros H _. injection H as _ <- _. reflexivity.
  - pose proof (gio_writes call w uri) as Hcall.
    destruct (gio X call w) as [x w0]. cbn [fst snd] in Hcall.
    destruct (run gio (k x) w0) as [[c' w'] t'] eqn:Hrest.
    intros H Hall. injection H as <- <- <-.
    rewrite (IH x _ _ _ _ Hrest) by (intros e He; apply Hall; right; exact He).
    apply Hcall, Hall. left. reflexivity.
Qed.

(** What a run of [sync_file] writes is its target. *)
Lemma sync_file_writes_target {W : Type} (h : platform W) cfg cwd file_path rel_path
      (w : W) c w1 t e uri :
  run h (sync_file cfg cwd file_path) w = (c, w1, t) ->
  posixpath.relpath cwd file_path (LOCAL_FOLDER cfg) = Ok rel_path ->
  In e t -> written_uri e = Some uri -> uri = drive_file_path_of cfg rel_path.
Proof.
  intros Hrun Hrel Hin Hw.
  destruct (sync_file_exits h cfg cwd file_path w)
    as (c' & w1' & pre & t' & Hrun' & Hpre & Hexit).
  rewrite Hrun in Hrun'. injection Hrun' as -> -> ->.
  apply in_app_or in Hin. destruct Hin as [Hin | Hin].
  { apply (forallb_In _ _ _ Hpre) in Hin. destruct e; discriminate. }
  destruct Hexit as [(_ & -> & _) | [(rel' & o & Hrel' & _ & Hbody) | (e' & _ & _ & ->)]].
  - in_trace Hin; subst e; discriminate.
  - rewrite Hrel in Hrel'. injection Hrel' as <-.
    destruct Hbody as [t o Ht | t o Ht | u uri' t o Ht | e' uri'];
      try destruct Ht; in_trace Hin; subst e; cbn in Hw; try discriminate;
      injection Hw as <-; reflexivity.
  - destruct Hin.
Qed.

End Frame.

(** A sync changes no other file of the drive (lines 140-193, on the
    reference platform).  Whatever the state of the drive and however the
    call ends, after [sync_file] every remote file other than the target
    of the synced path is there with the content it had, or absent as it
    was. *)
Theorem sync_file_leaves_other_files
        (cfg : config) (cwd file_path rel_path : string)
        (w : Mem.world) (c : completion unit) (w1 : Mem.world) (t : trace) (uri : string) :
  run Mem.gio (sync_file cfg cwd file_path) w = (c, w1, t) ->
  posixpath.relpath cwd file_path (LOCAL_FOLDER cfg) = Ok rel_path ->
  uri <> drive_file_path_of cfg rel_path ->
  Mem.lookup uri (Mem.remote_files w1) = Mem.lookup uri (Mem.remote_files w).
Proof.
  intros Hrun Hrel Hother.
  apply (Frame.run_writes _ _ _ _ _ _ Hrun).
  intros e Hin Hw. apply Hother.
  exact (Frame.sync_file_writes_target Mem.gio _ _ _ _ _ _ _ _ _ _ Hrun Hrel Hin Hw).
Qed.

(** ** A mount that succeeds, on the reference platform *)

Module Mounting.
Import Mem MemFacts.

Lemma existsb_none {A : Type} (p : A -> bool) (l : list A) :
  existsb p l = false -> forall x, In x l -> p x = false.
Proof.
  intros H x Hin. destruct (p x) eqn:Hp; [| reflexivity].
  assert (existsb p l = true) by (apply existsb_exists; eauto). congruence.
Qed.

(** Identifiers that are not the drive's are read and passed over. *)
Lemma mount_identifiers_skip cfg w v kinds :
  (forall kind, In kind kinds ->
     is_google_drive_uri cfg
       match lookup kind (vol_identifiers (nth v (volumes w) no_volume)) with
       | Some value => value
       | None => ""
       end = false) ->
  exists t,
    run gio (mount_identifiers cfg v kinds) w = (Returned false, w, t)
    /\ filter is_mount_request t = [].
Proof.
  induction kinds as [| kind kinds IH]; intros Hnone.
  - exists []. split; reflexivity.
  - destruct IH as (t & IH & Hs); [intros k Hk; apply Hnone; right; exact Hk |].
    cbn [mount_identifiers]. mem_step.
    rewrite (Hnone kind (or_introl eq_refl)), IH. eexists. split; [reflexivity |].
    cbn [filter is_mount_request]. exact Hs.
Qed.

(** At the first identifier that is the drive's, a volume that mounts as
    told is mounted. *)
Lemma mount_identifiers_hit cfg w v kinds :
  existsb (fun kind =>
             is_google_drive_uri cfg
               match lookup kind (vol_identifiers (nth v (volumes w) no_volume)) with
               | Some value => value
               | None => ""
               end) kinds = true ->
  vol_on_mount (nth v (volumes w) no_volume) = mounts_fine ->
  exists w1 t,
    run gio (mount_identifiers cfg v kinds) w = (Returned true, w1, t)
    /\ volumes w1 = set_mounted v (volumes w)
    /\ same_files w w1
    /\ filter is_mount_request t = [E_volume_mount v (Ok tt)].
Proof.
  intros Hsome Hfine. induction kinds as [| kind kinds IH]; [discriminate |].
  cbn [existsb] in Hsome. cbn [mount_identifiers]. mem_step.
  destruct (is_google_drive_uri cfg
              match lookup kind (vol_identifiers (nth v (volumes w) no_volume)) with
              | Some value => value
              | None => ""
              end) eqn:Hvalue.
  - mem_step. rewrite Hfine. mem_step. cbn [pending with_pending]. rewrite run_bind.
    unfold on_mount_done. mem_step. cbn [volumes with_pending]. rewrite Hfine.
    mem_step. eexists _, _. split; [reflexivity |].
    cbn [volumes with_pending with_volumes with_log remote_files remote_dirs unreadable
         local_top local_tree filter is_mount_request app].
    repeat split.
  - cbn [orb] in Hsome. destruct (IH Hsome) as (w1 & t & -> & Hv & Hf & Hreq).
    eexists _, _. split; [reflexivity |]. cbn [filter is_mount_request]. auto.
Qed.

Lemma mount_volumes_hit cfg w skipped v rest :
  (forall u, In u skipped -> volume_matches cfg (nth u (volumes w) no_volume) = false) ->
  volume_matches cfg (nth v (volumes w) no_volume) = true ->
  vol_on_mount (nth v (volumes w) no_volume) = mounts_fine ->
  exists w1 t,
    run gio (mount_volumes cfg (skipped ++ v :: rest)) w = (Returned true, w1, t)
    /\ volumes w1 = set_mounted v (volumes w)
    /\ same_files w w1
    /\ filter is_mount_request t = [E_volume_mount v (Ok tt)].
Proof.
  intros Hskip Hmatch Hfine. induction skipped as [| u skipped IH].
  - cbn [app mount_volumes]. mem_step. rewrite run_bind.
    destruct (mount_identifiers_hit cfg w v _ Hmatch Hfine) as (w1 & t & -> & Hv & Hf & Hreq).
    cbn [run]. eexists _, _. split; [reflexivity |].
    cbn [filter is_mount_request]. rewrite app_nil_r. auto.
  - destruct IH as (w1 & t & IH & Hv & Hf & Hreq);
      [intros u' Hu'; apply Hskip; right; exact Hu' |].
    cbn [app mount_volumes]. mem_step. rewrite run_bind.
    destruct (mount_identifiers_skip cfg w u
                (map fst (vol_identifiers (nth u (volumes w) no_volume))))
      as (t0 & -> & Hnone).
    { apply existsb_none. exact (Hskip u (or_introl eq_refl)). }
    rewrite IH. eexists _, _. split; [reflexivity |].
    cbn [filter is_mount_request]. rewrite filter_app, Hnone. auto.
Qed.

Lemma set_mounted_length k vs : length (set_mounted k vs) = length vs.
Proof.
  revert k. induction vs as [| v vs IH]; intros [| k]; cbn; auto.
Qed.

Lemma set_mounted_nth k vs :
  k < length vs ->
  vol_mounted (nth k (set_mounted k vs) no_volume) = true
  /\ vol_root_uri (nth k (set_mounted k vs) no_volume) = vol_root_uri (nth k vs no_volume).
Proof.
  revert k. induction vs as [| v vs IH]; intros [| k] Hk; cbn in *; try lia; auto.
  apply IH. lia.
Qed.

Lemma set_mounted_available cfg w k :
  k < length (volumes w) ->
  is_google_drive_uri cfg (vol_root_uri (nth k (volumes w) no_volume)) = true ->
  forall w1, volumes w1 = set_mounted k (volumes w) -> drive_available cfg w1 = true.
Proof.
  intros Hk Huri w1 Hv. unfold drive_available. rewrite Hv.
  destruct (set_mounted_nth k (volumes w) Hk) as [Hm Hr].
  apply existsb_exists. exists k. split.
  - unfold mounted_handles. apply filter_In. split; [| exact Hm].
    apply in_seq. rewrite set_mounted_length. lia.
  - rewrite Hr. exact Huri.
Qed.

End Mounting.

(** The mount attempt followed by the availability check (lines 66-105 and
    50-63, as lines 145-146 and 201-202 call them), on the reference
    platform: when the first volume with an identifier of the drive mounts
    as told and has the drive's root URI, the attempt makes exactly one
    mount request, for that volume; afterwards that volume is mounted, the
    check answers [True], and no file has changed. *)
Theorem mount_if_needed_mounts_known_volume (cfg : config) (w : Mem.world) (k : nat) :
  k < length (Mem.volumes w) ->
  (forall i, i < k -> volume_matches cfg (nth i (Mem.volumes w) Mem.no_volume) = false) ->
  volume_matches cfg (nth k (Mem.volumes w) Mem.no_volume) = true ->
  Mem.vol_on_mount (nth k (Mem.volumes w) Mem.no_volume) = Mem.mounts_fine ->
  is_google_drive_uri cfg (Mem.vol_root_uri (nth k (Mem.volumes w) Mem.no_volume)) = true ->
  exists w1 t,
    run Mem.gio (mount_google_drive cfg ;; is_drive_available cfg) w = (Returned true, w1, t)
    /\ Mem.volumes w1 = Mem.set_mounted k (Mem.volumes w)
    /\ Mem.drive_available cfg w1 = true
    /\ filter is_mount_request t = [E_volume_mount k (Ok tt)]
    /\ Mem.same_files w w1.
Proof.
  intros Hk Hbefore Hmatch Hfine Huri.
  unfold mount_google_drive. rewrite run_bind. MemFacts.mem_step.
  rewrite run_bind.
  set (w0 := Mem.with_log w (Mem.log_file w ++ [(INFO, "Attempting to mount Google Drive...")])).
  assert (Hseq : seq 0 (length (Mem.volumes w0))
                 = seq 0 k ++ k :: seq (S k) (length (Mem.volumes w) - S k)).
  { change (Mem.volumes w0) with (Mem.volumes w).
    replace (length (Mem.volumes w)) with (k + S (length (Mem.volumes w) - S k)) at 1 by lia.
    rewrite seq_app. reflexivity. }
  rewrite Hseq.
  destruct (Mounting.mount_volumes_hit cfg w0 (seq 0 k) k
              (seq (S k) (length (Mem.volumes w) - S k)))
    as (w1 & t & -> & Hv & Hf & Hreq); auto.
  { intros u Hu. apply in_seq in Hu. apply Hbefore. lia. }
  cbn [run app].
  destruct (MemFacts.is_drive_available_on cfg w1) as [ta Ha]. rewrite Ha.
  assert (Hthere : Mem.drive_available cfg w1 = true)
    by exact (Mounting.set_mounted_available cfg w k Hk Huri w1 Hv).
  rewrite Hthere. eexists _, _. split; [reflexivity |].
  split; [exact Hv |]. split; [exact Hthere |]. split.
  - cbn [filter is_mount_request]. rewrite !filter_app, Hreq. cbn [filter app].
    destruct (MemFacts.is_drive_available_on cfg w1) as [ta' Ha'].
    assert (Hq : forallb is_availability_query ta = true).
    { destruct (is_drive_available_run Mem.gio cfg w1) as (w2 & t2 & Hrun2 & Hq).
      rewrite Ha in Hrun2. injection Hrun2 as _ _ <-. exact Hq. }
    clear - Hq. induction ta as [| e ta IH]; [reflexivity |].
    cbn [forallb] in Hq. apply andb_prop in Hq. destruct Hq as [He Hq].
    cbn [filter]. destruct e; try discriminate He; cbn [is_mount_request]; auto.
  - exact Hf.
Qed.

(** ** Loading the configuration *)

Section Configuration.
Import Str posixpath.

Lemma or_root_truthy s : truthy (or_root s) = true.
Proof. unfold or_root. destruct s; reflexivity. Qed.

(** [expanduser] never turns a path into the empty string. *)
Lemma expanduser_truthy env path : truthy path = true -> truthy (expanduser env path) = true.
Proof.
  intros Hpath. unfold expanduser.
  destruct path as [| c rest]; [discriminate |].
  destruct c as [[] [] [] [] [] [] [] []]; try reflexivity.
  destruct (break_at_sep rest) as [name tail].
  destruct (if truthy name then getpwnam env name
            else match HOME env with Some home => Some home | None => pw_dir env end);
    [apply or_root_truthy | reflexivity].
Qed.

(** A path that does not start with a tilde is left as it is. *)
Lemma expanduser_plain env path : startswith path "~" = false -> expanduser env path = path.
Proof.
  intros Hpath. unfold expanduser.
  destruct path as [| c rest]; [reflexivity |].
  destruct c as [[] [] [] [] [] [] [] []]; try reflexivity. discriminate Hpath.
Qed.

End Configuration.

(** [load_config] returns complete configurations only (lines 30-43).  On
    any platform, when [load_config] returns, the file held a JSON object
    whose [source_folder] and [destination_folder] are non-empty strings
    and whose [drive_user] is a true value; the folders returned are their
    expansions by [expanduser], neither of them empty (and the very strings
    of the file when these do not start with a tilde); nothing was
    logged. *)
Theorem load_config_returns_complete
        {W : Type} (h : platform W) (env : posixpath.environment) (source : config_source)
        (w w1 : W) (t : trace) (local_folder drive_folder : string) (drive_user : pyvalue) :
  run h (load_config env source) w = (Returned (local_folder, drive_folder, drive_user), w1, t) ->
  local_folder <> "" /\ drive_folder <> "" /\ py_truth drive_user = true
  /\ w1 = w /\ t = []
  /\ exists members s d,
       source = json_object members
       /\ dict_get "source_folder" members = PyStr s /\ s <> ""
       /\ dict_get "destination_folder" members = PyStr d /\ d <> ""
       /\ dict_get "drive_user" members = drive_user
       /\ local_folder = posixpath.expanduser env s
       /\ drive_folder = posixpath.expanduser env d
       /\ (Str.startswith s "~" = false -> local_folder = s)
       /\ (Str.startswith d "~" = false -> drive_folder = d).
Proof.
  unfold load_config. destruct source as [msg | e | msg | type_name | members].
  - step. destruct (h _ (log ERROR ("Configuration error: " ++ msg)) w). discriminate.
  - discriminate.
  - step. destruct (h _ (log ERROR ("Configuration error: " ++ msg)) w). discriminate.
  - discriminate.
  - cbv zeta.
    destruct (py_truth (dict_get "source_folder" members)) eqn:Hs; cbn [negb orb];
      [| step; match goal with |- context [h _ ?c w] => destruct (h _ c w) end; discriminate].
    destruct (py_truth (dict_get "destination_folder" members)) eqn:Hd; cbn [negb orb];
      [| step; match goal with |- context [h _ ?c w] => destruct (h _ c w) end; discriminate].
    destruct (py_truth (dict_get "drive_user" members)) eqn:Hu; cbn [negb orb];
      [| step; match goal with |- context [h _ ?c w] => destruct (h _ c w) end; discriminate].
    destruct (dict_get "source_folder" members) as [| s | ty b] eqn:Es;
      cbn [expanduser_value]; try discriminate.
    destruct (dict_get "destination_folder" members) as [| d | ty b] eqn:Ed;
      cbn [expanduser_value run]; try discriminate.
    intros H. injection H as <- <- <- <- <-.
    cbn [py_truth] in Hs, Hd.
    assert (Hs' : s <> "") by (destruct s; [discriminate | discriminate]).
    assert (Hd' : d <> "") by (destruct d; [discriminate | discriminate]).
    pose proof (expanduser_truthy env s Hs) as Hls.
    pose proof (expanduser_truthy env d Hd) as Hld.
    split; [intros E; rewrite E in Hls; discriminate |].
    split; [intros E; rewrite E in Hld; discriminate |].
    split; [exact Hu |]. split; [reflexivity |]. split; [reflexivity |].
    exists members, s, d. repeat split; auto; intros Hp; apply expanduser_plain, Hp.
Qed.

(** [load_config] exits on an incomplete configuration (lines 37-43).  On
    any platform, when the file is missing, is no JSON, or holds an object
    in which one of [source_folder], [destination_folder] and [drive_user]
    is absent, [null], or empty, [load_config] logs one error record that
    starts with [Configuration error: ] and raises [SystemExit] with status
    1; nothing is returned. *)
Theorem load_config_exits_on_incomplete
        {W : Type} (h : platform W) (env : posixpath.environment) (source : config_source)
        (w : W) :
  (exists msg, source = no_such_file msg \/ source = not_json msg)
  \/ (exists members key,
         source = json_object members
         /\ In key required_keys
         /\ py_truth (dict_get key members) = false) ->
  exists msg,
    run h (load_config env source) w
    = (Raised (SystemExit "1"),
       snd (h _ (log ERROR ("Configuration error: " ++ msg)) w),
       [E_log ERROR ("Configuration error: " ++ msg)]).
Proof.
  intros [(msg & [-> | ->]) | (members & key & -> & Hkey & Hfalse)].
  - exists msg. unfold load_config. step.
    destruct (h _ (log ERROR ("Configuration error: " ++ msg)) w) as [[] w1]. reflexivity.
  - exists msg. unfold load_config. step.
    destruct (h _ (log ERROR ("Configuration error: " ++ msg)) w) as [[] w1]. reflexivity.
  - exists ("Missing required configuration values: "
            ++ "source_folder, destination_folder, and drive_user")%string.
    unfold load_config. cbv zeta.
    assert (Hany : negb (py_truth (dict_get "source_folder" members))
                   || negb (py_truth (dict_get "destination_folder" members))
                   || negb (py_truth (dict_get "drive_user" members)) = true).
    { destruct Hkey as [<- | [<- | [<- | []]]]; rewrite Hfalse; cbn [negb orb];
        rewrite ?orb_true_r; reflexivity. }
    rewrite Hany. step. cbn [append].
    match goal with |- context [h _ ?c w] => destruct (h _ c w) as [[] w1] end.
    reflexivity.
Qed.

(** ** The relative path of a file below the local folder *)

Module Relative.
Import Str posixpath Walk.

Lemma split_sep_nonempty s : split_sep s <> [].
Proof.
  destruct s as [| c s]; cbn [split_sep]; [discriminate |].
  destruct (Ascii.eqb c "/"); [discriminate |].
  destruct (split_sep s); discriminate.
Qed.

Lemma split_sep_app a b : split_sep (a ++ "/" ++ b) = (split_sep a ++ split_sep b)%list.
Proof.
  induction a as [| c a IH]; [reflexivity |].
  cbn [append split_sep]. cbn [append] in IH. rewrite IH.
  destruct (Ascii.eqb c "/"); [reflexivity |].
  destruct (split_sep a) as [| piece pieces] eqn:Ha; [destruct (split_sep_nonempty _ Ha) |].
  reflexivity.
Qed.

Lemma split_sep_no_sep n : no_sep n -> split_sep n = [n].
Proof.
  induction n as [| c n IH]; intros Hn; [reflexivity |].
  apply no_sep_cons in Hn. destruct Hn as [Hc Hn].
  cbn [split_sep]. apply Ascii.eqb_neq in Hc. rewrite Hc, (IH Hn). reflexivity.
Qed.

Lemma split_sep_pieces_no_sep s p : In p (split_sep s) -> no_sep p.
Proof.
  revert p. induction s as [| c s IH]; intros p; cbn [split_sep].
  - intros [<- | []]. reflexivity.
  - destruct (Ascii.eqb c "/") eqn:Hc.
    + intros [<- | Hin]; [reflexivity | apply IH; exact Hin].
    + apply Ascii.eqb_neq in Hc.
      destruct (split_sep s) as [| piece pieces] eqn:Hs.
      * intros [<- | []]. apply no_sep_cons. split; [exact Hc | reflexivity].
      * intros [<- | Hin].
        -- apply no_sep_cons. split; [exact Hc | apply IH; left; reflexivity].
        -- apply IH. right. exact Hin.
Qed.

(** After a trailing separator comes an empty piece, which a name put
    behind the separator replaces. *)
Lemma split_sep_trailing s n :
  endswith_sep s = true -> no_sep n ->
  exists l, split_sep s = (l ++ [""])%list /\ split_sep (s ++ n) = (l ++ [n])%list.
Proof.
  intros Hs Hn. induction s as [| c s IH]; [discriminate |].
  destruct s as [| c' s'].
  - cbn [endswith_sep] in Hs. exists [""]. cbn [append split_sep]. rewrite Hs.
    rewrite (split_sep_no_sep n Hn). split; reflexivity.
  - destruct (IH Hs) as (l & Hl & Hln).
    cbn [append split_sep] in *. 
    destruct (Ascii.eqb c "/").
    + exists ("" :: l). rewrite Hl, Hln. split; reflexivity.
    + destruct l as [| p ps].
      * exfalso. cbn [app] in Hl. destruct (Ascii.eqb c' "/").
        -- injection Hl as Hl. destruct (split_sep_nonempty _ Hl).
        -- destruct (split_sep s'); discriminate.
      * exists (String c p :: ps). rewrite Hl, Hln. split; reflexivity.
Qed.

Lemma proper_name_facts n :
  proper_name n = true ->
  valid_name n = true /\ String.eqb n "" = false /\ String.eqb n "." = false
  /\ String.eqb n ".." = false /\ no_sep n /\ startswith n "/" = false.
Proof.
  unfold proper_name. intros H. apply andb_prop in H. destruct H as [H H2].
  apply andb_prop in H. destruct H as [Hv H1].
  apply negb_true_iff in H1, H2.
  destruct (valid_name_no_sep _ Hv) as [Hne Hns].
  split; [exact Hv |]. split; [destruct n; [contradiction | reflexivity] |].
  split; [exact H1 |]. split; [exact H2 |]. split; [exact Hns |].
  destruct n as [| c n]; [reflexivity |]. apply no_sep_cons in Hns. destruct Hns as [Hc _].
  cbn [startswith]. rewrite andb_true_r. apply Ascii.eqb_neq. congruence.
Qed.

(** [normpath] keeps a proper name that comes last, after what it keeps
    of the rest. *)
Lemma normpath_comps_snoc k l acc n :
  proper_name n = true ->
  normpath_comps k (l ++ [n]) acc = (normpath_comps k l acc ++ [n])%list.
Proof.
  intros Hn. destruct (proper_name_facts n Hn) as (_ & He & Hd & Hdd & _).
  revert acc. induction l as [| c l IH]; intros acc.
  - cbn [app normpath_comps]. rewrite He, Hd, Hdd. reflexivity.
  - cbn [app normpath_comps].
    destruct (String.eqb c "" || String.eqb c "."); [apply IH |].
    destruct (negb (String.eqb c "..")
              || (Nat.eqb k 0 && match acc with [] => true | _ => false end)
              || match acc with lst :: _ => String.eqb lst ".." | [] => false end);
      [apply IH |].
    destruct acc; apply IH.
Qed.

Lemma normpath_comps_empty_last k l acc :
  normpath_comps k (l ++ [""]) acc = normpath_comps k l acc.
Proof.
  revert acc. induction l as [| c l IH]; intros acc.
  - reflexivity.
  - cbn [app normpath_comps].
    destruct (String.eqb c "" || String.eqb c "."); [apply IH |].
    destruct (negb (String.eqb c "..")
              || (Nat.eqb k 0 && match acc with [] => true | _ => false end)
              || match acc with lst :: _ => String.eqb lst ".." | [] => false end);
      [apply IH |].
    destruct acc; apply IH.
Qed.

(** What [normpath] keeps are pieces of the path, none empty. *)
Lemma normpath_comps_pieces (Q : string -> Prop) k l acc :
  (forall c, In c acc -> Q c) ->
  (forall c, In c l -> String.eqb c "" = false -> Q c) ->
  forall c, In c (normpath_comps k l acc) -> Q c.
Proof.
  revert acc. induction l as [| x l IH]; intros acc Hacc Hl c.
  - cbn [normpath_comps]. intros Hin. apply in_rev in Hin. apply Hacc, Hin.
  - cbn [normpath_comps].
    assert (Hl' : forall c, In c l -> String.eqb c "" = false -> Q c)
      by (intros c' Hc'; apply Hl; right; exact Hc').
    destruct (String.eqb x "") eqn:Hx; cbn [orb]; [apply IH; auto |].
    destruct (String.eqb x "."); [apply IH; auto |].
    destruct (negb (String.eqb x "..")
              || (Nat.eqb k 0 && match acc with [] => true | _ => false end)
              || match acc with lst :: _ => String.eqb lst ".." | [] => false end).
    + apply IH; auto. intros c' [<- | Hc']; [apply Hl; [left; reflexivity | exact Hx] | auto].
    + destruct acc as [| a acc]; apply IH; auto.
      intros c' Hc'. apply Hacc. right. exact Hc'.
Qed.

Lemma filter_split_join comps :
  Forall (fun c => truthy c = true /\ no_sep c) comps ->
  filter truthy (split_sep (sep_join comps)) = comps.
Proof.
  induction comps as [| c comps IH]; intros Hall; [reflexivity |].
  inversion Hall as [| ? ? [Hc Hn] Hrest]; subst.
  destruct comps as [| c' comps'].
  - cbn [sep_join]. rewrite (split_sep_no_sep c Hn). cbn [filter]. rewrite Hc. reflexivity.
  - change (sep_join (c :: c' :: comps')) with (c ++ "/" ++ sep_join (c' :: comps'))%string.
    rewrite split_sep_app, filter_app, (split_sep_no_sep c Hn), (IH Hrest).
    cbn [filter]. rewrite Hc. reflexivity.
Qed.

Lemma normpath_unfold path :
  normpath path
  = if String.eqb path "" then "."
    else or_dot (match initial_slashes path with
                 | 0 => sep_join (normpath_comps (initial_slashes path) (split_sep path) [])
                 | 1 => "/" ++ sep_join (normpath_comps (initial_slashes path)
                                                        (split_sep path) [])
                 | _ => "//" ++ sep_join (normpath_comps (initial_slashes path)
                                                         (split_sep path) [])
                 end).
Proof. reflexivity. Qed.

(** The components of the normalized form of an absolute path are what
    [normpath] keeps of its pieces. *)
Lemma nonempty_comps_normpath s :
  startswith s "/" = true ->
  nonempty_comps (normpath s) = normpath_comps (initial_slashes s) (split_sep s) [].
Proof.
  intros Hs. rewrite normpath_unfold.
  destruct s as [| c s]; [discriminate |]. cbn [String.eqb].
  assert (Hq : Forall (fun c => truthy c = true /\ no_sep c)
                 (normpath_comps (initial_slashes (String c s)) (split_sep (String c s)) [])).
  { apply Forall_forall.
    apply (normpath_comps_pieces (fun c => truthy c = true /\ no_sep c)).
    - intros ? [].
    - intros p Hp Hne. split; [destruct p; [discriminate | reflexivity] |].
      exact (split_sep_pieces_no_sep _ _ Hp). }
  generalize dependent (normpath_comps (initial_slashes (String c s))
                                       (split_sep (String c s)) []).
  intros comps Hq. unfold initial_slashes. rewrite Hs.
  unfold nonempty_comps.
  destruct (startswith (String c s) "//" && negb (startswith (String c s) "///"));
    unfold or_dot; cbn [append truthy split_sep Ascii.eqb Bool.eqb filter];
    apply filter_split_join, Hq.
Qed.

Lemma startswith_String a p b s :
  startswith (String b s) (String a p) = Ascii.eqb a b && startswith s p.
Proof. reflexivity. Qed.

Lemma initial_slashes_extended s n :
  startswith s "/" = true -> startswith n "/" = false ->
  initial_slashes (dir_prefix s ++ n) = initial_slashes s.
Proof.
  intros Hs Hn. destruct s as [| c1 s1]; [discriminate |].
  rewrite startswith_sep_cons in Hs. apply Ascii.eqb_eq in Hs. subst c1.
  unfold initial_slashes, dir_prefix. cbn [truthy negb orb].
  destruct s1 as [| c2 s2].
  - cbn [endswith_sep]. rewrite Ascii.eqb_refl. cbn [append].
    rewrite !startswith_String, Ascii.eqb_refl, Hn. reflexivity.
  - destruct (Ascii.eqb c2 "/") eqn:H2.
    + apply Ascii.eqb_eq in H2. subst c2. destruct s2 as [| c3 s3].
      * cbn [endswith_sep]. rewrite Ascii.eqb_refl. cbn [append].
        rewrite !startswith_String, Ascii.eqb_refl, Hn. reflexivity.
      * destruct (endswith_sep (String "/" (String "/" (String c3 s3))));
          cbn [append]; rewrite !startswith_String; reflexivity.
    + rewrite Ascii.eqb_sym in H2.
      destruct (endswith_sep (String "/" (String c2 s2)));
        cbn [append]; rewrite !startswith_String, H2; reflexivity.
Qed.

Lemma append_empty_r a : (a ++ "")%string = a.
Proof. induction a as [| c a IH]; cbn; [| rewrite IH]; reflexivity. Qed.

Lemma dir_prefix_start a b :
  truthy a = true -> startswith (dir_prefix a ++ b) "/" = startswith a "/".
Proof.
  intros Ha. unfold dir_prefix. destruct a as [| c a]; [discriminate |].
  destruct (negb (truthy (String c a)) || endswith_sep (String c a)); reflexivity.
Qed.

Lemma dir_prefix_app a b : truthy b = true -> dir_prefix (a ++ b) = (a ++ dir_prefix b)%string.
Proof.
  intros Hb. unfold dir_prefix.
  assert (Hb' : b <> "") by (intros ->; discriminate).
  assert (Ht : truthy (a ++ b) = true) by (destruct a; [exact Hb | reflexivity]).
  rewrite Ht, Hb, (endswith_sep_append a b Hb'). cbn [negb orb].
  destruct (endswith_sep b); [reflexivity | apply append_assoc].
Qed.

Lemma dir_prefix_idem a : dir_prefix (dir_prefix a) = dir_prefix a.
Proof.
  unfold dir_prefix. destruct (negb (truthy a) || endswith_sep a) eqn:H.
  - rewrite H. reflexivity.
  - rewrite (endswith_sep_append a "/") by discriminate.
    cbn [endswith_sep]. rewrite Ascii.eqb_refl, orb_true_r. reflexivity.
Qed.

(** What [abspath] normalizes for a name joined to [top] is the name
    joined to what it normalizes for [top]. *)
Lemma anchored_join cwd top n :
  startswith cwd "/" = true -> proper_name n = true ->
  anchored cwd (join top n) = (dir_prefix (anchored cwd top) ++ n)%string
  /\ startswith (anchored cwd top) "/" = true.
Proof.
  intros Hcwd Hn. destruct (proper_name_facts n Hn) as (Hv & _ & _ & _ & Hns & Hstart).
  assert (Hcwd' : truthy cwd = true) by (destruct cwd; [discriminate | reflexivity]).
  unfold anchored, isabs. rewrite (join_relative top n Hstart).
  destruct top as [| c top].
  - change (dir_prefix "") with "". change ("" ++ n)%string with n.
    change (startswith "" "/") with false. cbv iota. rewrite Hstart.
    rewrite (join_relative cwd n Hstart), (join_relative cwd "" eq_refl), append_empty_r.
    rewrite dir_prefix_idem. split; [reflexivity |].
    rewrite <- (append_empty_r (dir_prefix cwd)), (dir_prefix_start cwd "" Hcwd'). exact Hcwd.
  - rewrite (dir_prefix_start (String c top) n eq_refl).
    destruct (startswith (String c top) "/") eqn:Habs.
    + split; [reflexivity | exact Habs].
    + rewrite (join_relative cwd (dir_prefix (String c top) ++ n))
        by (rewrite dir_prefix_start; auto).
      rewrite (join_relative cwd (String c top) Habs). split.
      * rewrite (dir_prefix_app (dir_prefix cwd) (String c top) eq_refl), append_assoc.
        reflexivity.
      * rewrite (dir_prefix_start cwd _ Hcwd'). exact Hcwd.
Qed.

(** The components of the absolute form of [top] with a name joined are
    those of [top], then the name. *)
Lemma abspath_join_comps cwd top n :
  startswith cwd "/" = true -> proper_name n = true ->
  nonempty_comps (abspath cwd (join top n))
  = (nonempty_comps (abspath cwd top) ++ [n])%list.
Proof.
  intros Hcwd Hn. destruct (anchored_join cwd top n Hcwd Hn) as [Hjoin Habs].
  destruct (proper_name_facts n Hn) as (_ & _ & _ & _ & Hns & Hstart).
  change (abspath cwd (join top n)) with (normpath (anchored cwd (join top n))).
  change (abspath cwd top) with (normpath (anchored cwd top)).
  rewrite Hjoin. generalize dependent (anchored cwd top). intros s _ Hs.
  assert (Hs' : startswith (dir_prefix s ++ n) "/" = true).
  { unfold dir_prefix. destruct s; [discriminate |].
    destruct (negb (truthy (String a s)) || endswith_sep (String a s)); exact Hs. }
  rewrite (nonempty_comps_normpath _ Hs'), (nonempty_comps_normpath _ Hs).
  rewrite (initial_slashes_extended s n Hs Hstart).
  unfold dir_prefix. destruct s as [| c s]; [discriminate |]. cbn [truthy negb orb].
  destruct (endswith_sep (String c s)) eqn:Hend.
  - destruct (split_sep_trailing (String c s) n Hend Hns) as (l & -> & ->).
    rewrite (normpath_comps_snoc _ _ _ _ Hn), normpath_comps_empty_last. reflexivity.
  - rewrite append_assoc, split_sep_app, (split_sep_no_sep n Hns).
    apply normpath_comps_snoc, Hn.
Qed.

Lemma abspath_below_comps cwd comps :
  startswith cwd "/" = true -> Forall (fun n => proper_name n = true) comps ->
  forall top,
    nonempty_comps (abspath cwd (fold_left join comps top))
    = (nonempty_comps (abspath cwd top) ++ comps)%list.
Proof.
  intros Hcwd Hall. induction Hall as [| n comps Hn Hrest IH]; intros top.
  - cbn [fold_left]. rewrite app_nil_r. reflexivity.
  - cbn [fold_left]. rewrite IH, (abspath_join_comps cwd top n Hcwd Hn), <- app_assoc.
    reflexivity.
Qed.

Lemma common_len_app l r : common_len l (l ++ r) = length l.
Proof.
  induction l as [| x l IH]; [destruct r; reflexivity |].
  cbn [app common_len length]. rewrite String.eqb_refl, IH. reflexivity.
Qed.

(** Joining proper names puts one separator between them. *)
Lemma join_proper_names comps :
  Forall (fun n => proper_name n = true) comps ->
  forall a, truthy a = true -> endswith_sep a = false ->
            fold_left join comps a = sep_join (a :: comps).
Proof.
  intros Hall. induction Hall as [| n comps Hn Hrest IH]; intros a Ha Hend; [reflexivity |].
  destruct (proper_name_facts n Hn) as (Hv & Hne & _ & _ & Hns & Hstart).
  cbn [fold_left]. rewrite (join_valid a n Hv). unfold dir_prefix. rewrite Ha, Hend.
  cbn [negb orb]. rewrite append_assoc.
  assert (Hn' : n <> "") by (intros ->; discriminate).
  rewrite IH.
  - change (sep_join (a :: n :: comps)) with (a ++ "/" ++ sep_join (n :: comps))%string.
    destruct comps as [| m comps']; [reflexivity |].
    change (sep_join ((a ++ "/" ++ n)%string :: m :: comps'))
      with ((a ++ "/" ++ n) ++ "/" ++ sep_join (m :: comps'))%string.
    change (sep_join (n :: m :: comps')) with (n ++ "/" ++ sep_join (m :: comps'))%string.
    rewrite !append_assoc. reflexivity.
  - destruct a; [discriminate | reflexivity].
  - rewrite <- append_assoc, (endswith_sep_append _ n Hn').
    destruct (endswith_sep n) eqn:E; [| reflexivity].
    apply endswith_sep_contains in E. unfold no_sep in Hns. congruence.
Qed.

(** The relative path of a file below [top] is made of the names that
    lead to it from [top]. *)
Lemma relpath_below cwd top comps :
  startswith cwd "/" = true -> comps <> [] ->
  Forall (fun n => proper_name n = true) comps ->
  relpath cwd (fold_left join comps top) top = Ok (sep_join comps).
Proof.
  intros Hcwd Hne Hall. unfold relpath.
  assert (Hpath : truthy (fold_left join comps top) = true).
  { destruct comps as [| n comps]; [contradiction |].
    inversion Hall as [| ? ? Hn Hrest]; subst. cbn [fold_left].
    destruct (proper_name_facts n Hn) as (Hv & _).
    assert (Hj : truthy (join top n) = true).
    { pose proof (join_longer top n Hv). destruct (join top n); [cbn in H; lia | reflexivity]. }
    clear - Hj Hrest. revert Hj. generalize (join top n). 
    induction Hrest as [| m comps Hm Hrest IH]; intros a Ha; [exact Ha |].
    cbn [fold_left]. apply IH. destruct (proper_name_facts m Hm) as (Hv & _).
    pose proof (join_longer a m Hv). destruct (join a m); [cbn in H; lia | reflexivity]. }
  rewrite Hpath. cbn [negb]. cbv zeta.
  rewrite (abspath_below_comps cwd comps Hcwd Hall top), common_len_app, Nat.sub_diag.
  cbn [repeat app]. rewrite skipn_app, Nat.sub_diag, skipn_all. cbn [skipn app].
  destruct comps as [| n comps]; [contradiction |]. f_equal.
  inversion Hall as [| ? ? Hn Hrest]; subst. unfold join_all.
  destruct (proper_name_facts n Hn) as (Hv & Hnn & _ & _ & Hns & _).
  apply (join_proper_names comps Hrest).
  - destruct n; [discriminate | reflexivity].
  - destruct (endswith_sep n) eqn:E; [| reflexivity].
    apply endswith_sep_contains in E. unfold no_sep in Hns. congruence.
Qed.

End Relative.

Section Below.
Import Str posixpath.

Lemma proper_names_Dir entries :
  proper_names (Dir entries)
  <-> Forall (fun e => proper_name (fst e) = true) entries
      /\ Forall (fun e => proper_names (snd e)) entries.
Proof.
  cbn [proper_names].
  assert (Heach : (fix each (es : list (string * node)) : Prop :=
                     match es with
                     | [] => True
                     | e :: rest => proper_names (snd e) /\ each rest
                     end) entries
                  <-> Forall (fun e => proper_names (snd e)) entries).
  { induction entries as [| e es IH].
    - split; [constructor | trivial].
    - split.
      + intros [He Hes]. constructor; [exact He | apply IH, Hes].
      + intros H. inversion H; subst. split; [assumption | apply IH; assumption]. }
  rewrite Heach. reflexivity.
Qed.

(** A file of the tree is reached from the top by proper names. *)
Lemma files_below_comps tree :
  forall top path content,
    proper_names tree -> In (path, content) (files_below top tree) ->
    exists comps,
      comps <> [] /\ Forall (fun n => proper_name n = true) comps
      /\ path = fold_left join comps top.
Proof.
  induction tree as [c | entries IH] using Walk.node_induction;
    intros top path content Hproper Hin.
  - destruct Hin.
  - apply proper_names_Dir in Hproper. destruct Hproper as [Hnames Hsubs].
    cbn [files_below] in Hin. apply in_flat_map in Hin.
    destruct Hin as ([name sub] & He & Hin).
    rewrite Forall_forall in IH, Hnames, Hsubs.
    specialize (Hnames _ He). specialize (Hsubs _ He). cbn [fst snd] in *.
    destruct sub as [c | sub_entries].
    + destruct Hin as [Hin | []]. injection Hin as <- _.
      exists [name]. split; [discriminate |]. split; [repeat constructor; exact Hnames |].
      reflexivity.
    + destruct (IH _ He (join top name) path content Hsubs Hin) as (comps & Hne & Hall & ->).
      exists (name :: comps). split; [discriminate |]. split; [constructor; assumption |].
      reflexivity.
Qed.

Lemma sep_join_proper_injective comps1 comps2 :
  Forall (fun n => proper_name n = true) comps1 ->
  Forall (fun n => proper_name n = true) comps2 ->
  sep_join comps1 = sep_join comps2 -> comps1 = comps2.
Proof.
  intros H1 H2 Hsame.
  assert (Hq : forall comps, Forall (fun n => proper_name n = true) comps ->
                             Forall (fun c => truthy c = true /\ no_sep c) comps).
  { intros comps Hall. eapply Forall_impl; [| exact Hall].
    intros n Hn. destruct (Relative.proper_name_facts n Hn) as (_ & Hne & _ & _ & Hns & _).
    split; [destruct n; [discriminate | reflexivity] | exact Hns]. }
  rewrite <- (Relative.filter_split_join comps1 (Hq _ H1)),
          <- (Relative.filter_split_join comps2 (Hq _ H2)), Hsame.
  reflexivity.
Qed.

Lemma sep_join_relative comps :
  Forall (fun n => proper_name n = true) comps -> startswith (sep_join comps) "/" = false.
Proof.
  intros Hall. destruct Hall as [| n comps Hn Hrest]; [reflexivity |].
  destruct (Relative.proper_name_facts n Hn) as (_ & Hne & _ & _ & _ & Hstart).
  destruct comps as [| m comps']; [exact Hstart |].
  change (sep_join (n :: m :: comps')) with (n ++ "/" ++ sep_join (m :: comps'))%string.
  rewrite startswith_app_l; [exact Hstart | destruct n; [discriminate | reflexivity]].
Qed.

End Below.

(** The target of a file below the local folder (lines 150-151, with the
    paths that lines 206-208 and the watcher produce).  For a working
    directory that is absolute and a file reached from the local folder by
    the names [c1 ... cn] (none empty, none with a separator, none of [.]
    and [..]), on any platform: [sync_file] returns with one outcome, and
    every call it makes on the drive is on
    [google-drive://<account>/<remote folder, leading separators
    stripped>/c1/.../cn] or on its parent; the local folder may be given
    relative, with a trailing separator, or with [..] in it.  For a remote
    folder that is not empty and neither starts nor ends with a separator
    the target is [google-drive://<account>/<remote folder>/c1/.../cn]. *)
Theorem sync_file_addresses_components
        {W : Type} (h : platform W) (cfg : config) (cwd : string) (comps : list string)
        (w : W) :
  posixpath.isabs cwd = true ->
  comps <> [] ->
  Forall (fun n => proper_name n = true) comps ->
  exists w1 t o,
    run h (sync_file cfg cwd (fold_left posixpath.join comps (LOCAL_FOLDER cfg))) w
    = (Returned tt, w1, t)
    /\ outcome_of t = Some o
    /\ (forall e f, In e t -> remote_file_of e = Some f ->
          f = new_for_uri (remote_base cfg ++ Str.sep_join comps)
          \/ f = parent_of (new_for_uri (remote_base cfg ++ Str.sep_join comps)))
    /\ (Str.truthy (GOOGLE_DRIVE_FOLDER cfg) = true ->
        Str.startswith (GOOGLE_DRIVE_FOLDER cfg) "/" = false ->
        Str.endswith_sep (GOOGLE_DRIVE_FOLDER cfg) = false ->
        (remote_base cfg ++ Str.sep_join comps)%string
        = (GOOGLE_DRIVE_PREFIX ++ DRIVE_USER cfg ++ "/" ++ GOOGLE_DRIVE_FOLDER cfg
           ++ "/" ++ Str.sep_join comps)%string).
Proof.
  intros Hcwd Hne Hall.
  pose proof (Relative.relpath_below cwd (LOCAL_FOLDER cfg) comps Hcwd Hne Hall) as Hrel.
  assert (Hpath : fold_left posixpath.join comps (LOCAL_FOLDER cfg) <> "").
  { intros E. rewrite E in Hrel. discriminate Hrel. }
  destruct (sync_file_on_target h cfg cwd _ w Hpath) as (rel & w1 & t & o & Hrel' & Hrun & Hout & Hon).
  rewrite Hrel in Hrel'. injection Hrel' as <-.
  rewrite (drive_file_path_of_relative cfg _ (sep_join_relative comps Hall)) in Hon.
  exists w1, t, o. split; [exact Hrun |]. split; [exact Hout |]. split; [exact Hon |].
  intros Ht Hs He. unfold remote_base, dir_prefix. rewrite Ht, He. cbn [negb orb].
  rewrite (lstrip_sep_id (GOOGLE_DRIVE_FOLDER cfg ++ "/"))
    by (rewrite startswith_app_l; assumption).
  rewrite !Walk.append_assoc. reflexivity.
Qed.

(** No two files of the local tree meet on the drive (lines 150-151 and
    206-208).  For a working directory that is absolute and a local tree
    with proper names, two different files below the local folder, at any
    depths, have relative paths, and their remote targets differ. *)
Theorem files_of_the_tree_have_different_targets
        (cfg : config) (cwd : string) (tree : node)
        (path1 path2 : string) (content1 content2 : bytes) :
  posixpath.isabs cwd = true ->
  proper_names tree ->
  In (path1, content1) (files_below (LOCAL_FOLDER cfg) tree) ->
  In (path2, content2) (files_below (LOCAL_FOLDER cfg) tree) ->
  path1 <> path2 ->
  exists rel1 rel2,
    posixpath.relpath cwd path1 (LOCAL_FOLDER cfg) = Ok rel1
    /\ posixpath.relpath cwd path2 (LOCAL_FOLDER cfg) = Ok rel2
    /\ drive_file_path_of cfg rel1 <> drive_file_path_of cfg rel2.
Proof.
  intros Hcwd Hproper Hin1 Hin2 Hdiff.
  destruct (files_below_comps tree _ _ _ Hproper Hin1) as (comps1 & Hne1 & Hall1 & ->).
  destruct (files_below_comps tree _ _ _ Hproper Hin2) as (comps2 & Hne2 & Hall2 & ->).
  exists (Str.sep_join comps1), (Str.sep_join comps2).
  split; [apply Relative.relpath_below; assumption |].
  split; [apply Relative.relpath_below; assumption |].
  rewrite (drive_file_path_of_relative cfg _ (sep_join_relative comps1 Hall1)).
  rewrite (drive_file_path_of_relative cfg _ (sep_join_relative comps2 Hall2)).
  intros Hsame. apply Walk.append_cancel_l in Hsame.
  apply (sep_join_proper_injective _ _ Hall1 Hall2) in Hsame. congruence.
Qed.

(** ** Uploads, on the reference platform *)

Module Upload.
Import Str Mem MemFacts Idempotence.

Lemma sep_join_cons_char c p ps : sep_join (String c p :: ps) = String c (sep_join (p :: ps)).
Proof. destruct ps; reflexivity. Qed.

Lemma sep_join_split s : sep_join (split_sep s) = s.
Proof.
  induction s as [| c s IH]; [reflexivity |].
  cbn [split_sep]. destruct (Ascii.eqb c "/") eqn:Hc.
  - apply Ascii.eqb_eq in Hc. subst c.
    destruct (split_sep s) as [| p ps] eqn:Hs; [destruct (Relative.split_sep_nonempty _ Hs) |].
    change (sep_join ("" :: p :: ps)) with ("" ++ "/" ++ sep_join (p :: ps))%string.
    rewrite IH. reflexivity.
  - destruct (split_sep s) as [| p ps] eqn:Hs; [destruct (Relative.split_sep_nonempty _ Hs) |].
    rewrite sep_join_cons_char, IH. reflexivity.
Qed.

Lemma sep_join_removelast l :
  2 <= length l -> String.length (sep_join (removelast l)) < String.length (sep_join l).
Proof.
  induction l as [| x l IH]; cbn [length]; [lia |].
  destruct l as [| y rest]; cbn [length]; [lia |]. intros _.
  destruct rest as [| z rest'].
  - cbn [removelast sep_join]. rewrite !Walk.length_append. cbn. lia.
  - change (removelast (x :: y :: z :: rest')) with (x :: removelast (y :: z :: rest')).
    assert (Hi : String.length (sep_join (removelast (y :: z :: rest')))
                 < String.length (sep_join (y :: z :: rest')))
      by (apply IH; cbn [length]; lia).
    destruct (removelast (y :: z :: rest')) as [| a b] eqn:Hr.
    + cbn [removelast] in Hr. destruct rest'; discriminate.
    + change (sep_join (x :: a :: b)) with (x ++ "/" ++ sep_join (a :: b))%string.
      change (sep_join (x :: y :: z :: rest'))
        with (x ++ "/" ++ sep_join (y :: z :: rest'))%string.
      rewrite !Walk.length_append. lia.
Qed.

(** The parent of a URI is shorter than the URI, and so are the
    ancestors. *)
Lemma uri_parent_shorter uri parent :
  uri_parent uri = Some parent -> String.length parent < String.length uri.
Proof.
  unfold uri_parent. destruct (Nat.ltb 3 (length (split_sep uri))) eqn:Hlen; [| discriminate].
  apply Nat.ltb_lt in Hlen. intros H. injection H as <-.
  rewrite <- (sep_join_split uri) at 2. apply sep_join_removelast. lia.
Qed.

Lemma ancestors_shorter fuel uri a :
  In a (ancestors fuel uri) -> String.length a < String.length uri.
Proof.
  revert uri. induction fuel as [| fuel IH]; intros uri; cbn [ancestors]; [intros [] |].
  destruct (uri_parent uri) as [p |] eqn:Hp; [| intros []].
  pose proof (uri_parent_shorter _ _ Hp). intros [<- | Hin]; [assumption |].
  specialize (IH _ Hin). lia.
Qed.

Lemma mem_false key l : mem key l = false <-> ~ In key l.
Proof.
  unfold mem. split.
  - intros H Hin. assert (existsb (String.eqb key) l = true).
    { apply existsb_exists. exists key. split; [exact Hin | apply String.eqb_refl]. }
    congruence.
  - intros H. destruct (existsb (String.eqb key) l) eqn:E; [| reflexivity].
    apply existsb_exists in E. destruct E as (x & Hx & Heq).
    apply String.eqb_eq in Heq. subst x. contradiction.
Qed.

(** Creating the parent directory does not put a directory where the
    target is to be. *)
Lemma target_not_made uri parent dirs :
  uri_parent uri = Some parent -> mem uri dirs = false ->
  mem uri (parent :: ancestors (String.length parent) parent ++ dirs) = false.
Proof.
  intros Hp Hdirs. apply mem_false. apply mem_false in Hdirs.
  pose proof (uri_parent_shorter _ _ Hp) as Hlen.
  intros [E | Hin].
  - rewrite E in Hlen. lia.
  - apply in_app_or in Hin. destruct Hin as [Hin | Hin]; [| contradiction].
    apply ancestors_shorter in Hin. lia.
Qed.

(** The copy of a local file to where no directory is, into a directory
    that is there. *)
Lemma copy_creates file_path uri content (w : world) :
  local_file w file_path = Some content ->
  mem uri (remote_dirs w) = false ->
  in_directory w uri = true ->
  exists w1,
    run gio (sync_file_copy file_path uri (new_for_path file_path) (new_for_uri uri)) w
    = (Returned tt, w1,
       [E_file_copy (new_for_path file_path) (new_for_uri uri) (Ok tt);
        synced_record file_path uri])
    /\ lookup uri (remote_files w1) = Some content
    /\ in_directory w1 uri = true
    /\ remote_dirs w1 = remote_dirs w
    /\ same_setting w w1.
Proof.
  intros Hlocal Hdir Hin. unfold sync_file_copy. mem_step. cbn [uri_of].
  rewrite Hlocal, Hdir, Hin. mem_step. eexists. split; [reflexivity |].
  cbn [remote_files with_log with_remote]. split; [apply lookup_first |].
  split; [exact Hin |]. split; [reflexivity | repeat split].
Qed.

Lemma transfer_creates file_path uri content (w : world) :
  local_file w file_path = Some content ->
  exists_remote w uri = false ->
  in_directory w uri = true ->
  exists w1 t,
    run gio (sync_file_transfer file_path uri (new_for_path file_path) (new_for_uri uri)) w
    = (Returned tt, w1, t)
    /\ transfer_trace file_path uri t created
    /\ lookup uri (remote_files w1) = Some content
    /\ in_directory w1 uri = true
    /\ remote_dirs w1 = remote_dirs w
    /\ same_setting w w1.
Proof.
  intros Hlocal Hex Hin. unfold sync_file_transfer. mem_step. cbn [uri_of]. rewrite Hex.
  assert (Hdir : mem uri (remote_dirs w) = false).
  { unfold exists_remote in Hex. destruct (lookup uri (remote_files w)); [discriminate | exact Hex]. }
  destruct (copy_creates file_path uri content w Hlocal Hdir Hin) as (w1 & -> & Hl & Hd).
  eexists w1, _. split; [reflexivity |]. split; [apply (transfer_created _ _ tt) |]. auto.
Qed.

Lemma transfer_replaces file_path uri old content (w : world) :
  local_file w file_path = Some content ->
  lookup uri (remote_files w) = Some old ->
  mem uri (unreadable w) = false ->
  hashlib.hexdigest old <> hashlib.hexdigest content ->
  mem uri (remote_dirs w) = false ->
  in_directory w uri = true ->
  exists w1 t,
    run gio (sync_file_transfer file_path uri (new_for_path file_path) (new_for_uri uri)) w
    = (Returned tt, w1, t)
    /\ transfer_trace file_path uri t replaced
    /\ lookup uri (remote_files w1) = Some content.
Proof.
  intros Hlocal Hold Hreadable Hdiff Hdir Hin.
  assert (Hex : exists_remote w uri = true) by (unfold exists_remote; rewrite Hold; reflexivity).
  unfold sync_file_transfer. mem_step. cbn [uri_of]. rewrite Hex, run_bind.
  unfold get_remote_file_hash. mem_step. cbn [uri_of]. rewrite Hold, Hreadable.
  rewrite stream_of_remote_digest. cbn [run]. rewrite run_bind.
  unfold compute_file_hash. mem_step. rewrite Hlocal, stream_of_local_digest. cbn [run].
  rewrite hexdigest_truthy. cbn [andb].
  destruct (String.eqb (hashlib.hexdigest old) (hashlib.hexdigest content)) eqn:Heq;
    [apply String.eqb_eq in Heq; contradiction |].
  mem_step. cbn [uri_of]. rewrite Hold. mem_step.
  match goal with |- context [run gio (sync_file_copy _ _ _ _) ?w5] =>
    destruct (copy_creates file_path uri content w5) as (w6 & -> & Hl & _); auto
  end.
  eexists w6, _. split; [reflexivity |]. split; [| exact Hl].
  assert (Hagree : hashes_agree (Ok (stream_of old)) (Ok (stream_of content)) = false).
  { unfold hashes_agree. rewrite stream_of_remote_digest, stream_of_local_digest.
    cbn [hash_value]. rewrite hexdigest_truthy, Heq. reflexivity. }
  pose proof (transfer_replaced file_path uri _ _ tt tt Hagree) as Ht.
  unfold remote_hash_trace, local_hash_trace in Ht.
  rewrite stream_of_remote_digest, stream_of_local_digest in Ht. exact Ht.
Qed.

(** The body of [sync_file] for a file that is not on the drive yet. *)
Lemma body_creates cfg cwd file_path rel_path content (w : world) :
  posixpath.relpath cwd file_path (LOCAL_FOLDER cfg) = Ok rel_path ->
  local_file w file_path = Some content ->
  exists_remote w (drive_file_path_of cfg rel_path) = false ->
  (forall parent, uri_parent (drive_file_path_of cfg rel_path) = Some parent ->
                  lookup parent (remote_files w) = None) ->
  exists w1 t,
    run gio (sync_file_body cfg cwd file_path) w = (Returned tt, w1, t)
    /\ body_trace file_path (drive_file_path_of cfg rel_path) t created
    /\ lookup (drive_file_path_of cfg rel_path) (remote_files w1) = Some content
    /\ in_directory w1 (drive_file_path_of cfg rel_path) = true
    /\ (remote_dirs w1 = remote_dirs w
        \/ remote_dirs w1
           = (uri_ancestors (drive_file_path_of cfg rel_path) ++ remote_dirs w)%list)
    /\ same_setting w w1.
Proof.
  intros Hrel Hlocal Habsent Hparent.
  unfold sync_file_body. rewrite Hrel. cbv zeta.
  revert Habsent Hparent. generalize (drive_file_path_of cfg rel_path).
  intros uri Habsent Hparent. mem_step. cbn [uri_of].
  destruct (uri_parent uri) as [parent |] eqn:Hp.
  - mem_step. cbn [uri_of]. rewrite Hp.
    specialize (Hparent parent eq_refl).
    destruct (exists_remote w parent) eqn:Hex; cbn [andb negb].
    + assert (Hin : in_directory w uri = true).
      { unfold in_directory. rewrite Hp. unfold exists_remote in Hex.
        rewrite Hparent in Hex. exact Hex. }
      destruct (transfer_creates file_path uri content w Hlocal Habsent Hin)
        as (w1 & t & -> & Ht & Hl & Hd & Hdirs & Hs).
      eexists w1, _. split; [reflexivity |]. split; [apply body_parent_there, Ht |]. auto 6.
    + mem_step. cbn [uri_of]. rewrite Hp, Hex. mem_step.
      cbn [uri_of]. rewrite Hp.
      match goal with |- context [run gio (sync_file_transfer _ _ _ _) ?w2] =>
        destruct (transfer_creates file_path uri content w2)
          as (w1 & t & -> & Ht & Hl & Hd & Hdirs & Hs)
      end.
      * exact Hlocal.
      * unfold exists_remote in *. cbn [remote_files remote_dirs with_log with_remote].
        destruct (lookup uri (remote_files w)); [discriminate |].
        apply target_not_made; assumption.
      * unfold in_directory. rewrite Hp.
        cbn [remote_dirs with_log with_remote mem existsb].
        rewrite String.eqb_refl. reflexivity.
      * eexists w1, _. split; [reflexivity |].
        split; [apply (body_parent_created _ _ tt), Ht |].
        split; [exact Hl |]. split; [exact Hd |]. split.
        -- right. rewrite Hdirs. unfold uri_ancestors. rewrite Hp. reflexivity.
        -- eapply same_setting_trans; [| exact Hs]. repeat split.
  - mem_step. cbn [andb].
    assert (Hin : in_directory w uri = true)
      by (unfold in_directory; rewrite Hp; reflexivity).
    destruct (transfer_creates file_path uri content w Hlocal Habsent Hin)
      as (w1 & t & -> & Ht & Hl & Hd & Hdirs & Hs).
    eexists w1, _. split; [reflexivity |]. split; [apply body_at_root, Ht |]. auto 6.
Qed.

(** [sync_file] for a file that is not on the drive yet, with what it
    leaves as it was. *)
Lemma sync_file_creates cfg cwd file_path rel_path content (w : world) :
  drive_available cfg w = true ->
  posixpath.relpath cwd file_path (LOCAL_FOLDER cfg) = Ok rel_path ->
  local_file w file_path = Some content ->
  exists_remote w (drive_file_path_of cfg rel_path) = false ->
  (forall parent, uri_parent (drive_file_path_of cfg rel_path) = Some parent ->
                  lookup parent (remote_files w) = None) ->
  exists w1 t,
    run gio (sync_file cfg cwd file_path) w = (Returned tt, w1, t)
    /\ outcome_of t = Some created
    /\ existsb is_delete t = false
    /\ lookup (drive_file_path_of cfg rel_path) (remote_files w1) = Some content
    /\ in_directory w1 (drive_file_path_of cfg rel_path) = true
    /\ (forall uri, uri <> drive_file_path_of cfg rel_path ->
                    lookup uri (remote_files w1) = lookup uri (remote_files w))
    /\ (remote_dirs w1 = remote_dirs w
        \/ remote_dirs w1
           = (uri_ancestors (drive_file_path_of cfg rel_path) ++ remote_dirs w)%list)
    /\ same_setting w w1.
Proof.
  intros Hthere Hrel Hlocal Habsent Hparent.
  destruct (body_creates cfg cwd file_path rel_path content w Hrel Hlocal Habsent Hparent)
    as (w1 & t & Hbody & Ht & Hl & Hd & Hdirs & Hs).
  assert (Hrun : exists pre,
             run gio (sync_file cfg cwd file_path) w = (Returned tt, w1, pre ++ t)
             /\ forallb is_volume_event pre = true).
  { rewrite sync_file_run.
    destruct (availability_check_there cfg w Hthere) as (pre & -> & Hpre).
    rewrite Hbody. exists pre. split; [reflexivity | exact Hpre]. }
  destruct Hrun as (pre & Hrun & Hpre).
  exists w1, (pre ++ t). split; [exact Hrun |].
  split; [apply (body_trace_outcome _ _ _ _ _ Ht), volume_events_no_delete, Hpre |].
  split.
  { rewrite existsb_app, (prelude_no_delete _ (volume_events_are_prelude _ Hpre)).
    inversion Ht as [t0 o0 Ht0 | t0 o0 Ht0 | u uri0 t0 o0 Ht0 |]; subst;
      inversion Ht0; subst; reflexivity. }
  split; [exact Hl |]. split; [exact Hd |]. split; [| auto].
  intros uri Hother. apply (Frame.run_writes _ _ _ _ _ _ Hrun).
  intros e Hin Hw. apply Hother.
  exact (Frame.sync_file_writes_target gio _ _ _ _ _ _ _ _ _ _ Hrun Hrel Hin Hw).
Qed.

End Upload.


(** A changed file is replaced (lines 140-193, on the reference platform).
    When the drive is mounted, the local file is there, and its remote
    target is a readable file in a directory, with content of another
    digest, [sync_file] returns with the outcome replaced, and afterwards
    the target holds the content of the local file. *)
Theorem sync_file_replaces_changed_file
        (cfg : config) (cwd file_path rel_path : string) (old content : bytes)
        (w : Mem.world) :
  Mem.drive_available cfg w = true ->
  posixpath.relpath cwd file_path (LOCAL_FOLDER cfg) = Ok rel_path ->
  Mem.local_file w file_path = Some content ->
  Mem.lookup (drive_file_path_of cfg rel_path) (Mem.remote_files w) = Some old ->
  Mem.mem (drive_file_path_of cfg rel_path) (Mem.unreadable w) = false ->
  Mem.mem (drive_file_path_of cfg rel_path) (Mem.remote_dirs w) = false ->
  Mem.in_directory w (drive_file_path_of cfg rel_path) = true ->
  hashlib.hexdigest old <> hashlib.hexdigest content ->
  exists w1 t,
    run Mem.gio (sync_file cfg cwd file_path) w = (Returned tt, w1, t)
    /\ outcome_of t = Some replaced
    /\ In (E_file_delete (new_for_uri (drive_file_path_of cfg rel_path)) (Ok tt)) t
    /\ Mem.lookup (drive_file_path_of cfg rel_path) (Mem.remote_files w1) = Some content.
Proof.
  intros Hthere Hrel Hlocal Hold Hreadable Hdir Hin Hdiff.
  rewrite sync_file_run.
  destruct (Idempotence.availability_check_there cfg w Hthere) as (pre & -> & Hpre).
  assert (Hbody : exists w1 t,
             run Mem.gio (sync_file_body cfg cwd file_path) w = (Returned tt, w1, t)
             /\ body_trace file_path (drive_file_path_of cfg rel_path) t replaced
             /\ In (E_file_delete (new_for_uri (drive_file_path_of cfg rel_path)) (Ok tt)) t
             /\ Mem.lookup (drive_file_path_of cfg rel_path) (Mem.remote_files w1)
                = Some content).
  { unfold sync_file_body. rewrite Hrel. cbv zeta.
    revert Hold Hreadable Hdir Hin. generalize (drive_file_path_of cfg rel_path).
    intros uri Hold Hreadable Hdir Hin. MemFacts.mem_step. cbn [Mem.uri_of].
    destruct (Upload.transfer_replaces file_path uri old content w
                Hlocal Hold Hreadable Hdiff Hdir Hin) as (w1 & t & Hrun & Ht & Hl).
    assert (Hdel : In (E_file_delete (new_for_uri uri) (Ok tt)) t).
    { inversion Ht; subst. right. apply in_or_app. right. apply in_or_app. right.
      left. destruct u. reflexivity. }
    destruct (Mem.uri_parent uri) as [parent |] eqn:Hp.
    - MemFacts.mem_step. cbn [Mem.uri_of]. rewrite Hp.
      assert (Hex : Mem.exists_remote w parent = true).
      { unfold Mem.in_directory in Hin. rewrite Hp in Hin. unfold Mem.exists_remote.
        destruct (Mem.lookup parent (Mem.remote_files w)); [reflexivity | exact Hin]. }
      rewrite Hex. cbn [andb negb]. rewrite Hrun.
      eexists w1, _. split; [reflexivity |]. split; [apply body_parent_there, Ht |].
      split; [right; right; exact Hdel | exact Hl].
    - MemFacts.mem_step. cbn [andb]. rewrite Hrun.
      eexists w1, _. split; [reflexivity |]. split; [apply body_at_root, Ht |].
      split; [right; exact Hdel | exact Hl]. }
  destruct Hbody as (w1 & t & -> & Ht & Hdel & Hl).
  exists w1, (pre ++ t). split; [reflexivity |].
  split; [apply (body_trace_outcome _ _ _ _ _ Ht), volume_events_no_delete, Hpre |].
  split; [apply in_or_app; right; exact Hdel | exact Hl].
Qed.

(** ** The full pass on a drive that has none of the files yet *)

Module Pass.
Import Str posixpath Mem MemFacts Idempotence.

(** *** The files of a tree by their names *)

Lemma files_below_file_comps tree :
  forall top,
    files_below top tree
    = map (fun cc => (fold_left join (fst cc) top, snd cc)) (file_comps tree).
Proof.
  induction tree as [c | entries IH] using Walk.node_induction; intros top; [reflexivity |].
  cbn [files_below file_comps].
  induction entries as [| [name sub] entries IHe]; [reflexivity |].
  inversion IH as [| ? ? IHsub IHrest]; subst.
  cbn [flat_map fst snd]. rewrite map_app, (IHe IHrest). f_equal.
  destruct sub as [c | sub_entries]; [reflexivity |].
  rewrite map_map. cbn [fst snd fold_left]. apply IHsub.
Qed.

Lemma file_comps_proper tree :
  proper_names tree ->
  forall comps content, In (comps, content) (file_comps tree) ->
                        comps <> [] /\ Forall (fun n => proper_name n = true) comps.
Proof.
  induction tree as [c | entries IH] using Walk.node_induction;
    intros Hproper comps content Hin; [destruct Hin |].
  apply proper_names_Dir in Hproper. destruct Hproper as [Hnames Hsubs].
  cbn [file_comps] in Hin. apply in_flat_map in Hin. destruct Hin as ([name sub] & He & Hin).
  rewrite Forall_forall in IH, Hnames, Hsubs.
  specialize (Hnames _ He). specialize (Hsubs _ He). cbn [fst snd] in *.
  destruct sub as [c | sub_entries].
  - destruct Hin as [Hin | []]. injection Hin as <- _.
    split; [discriminate | repeat constructor; exact Hnames].
  - apply in_map_iff in Hin. destruct Hin as ([comps' c'] & Heq & Hin).
    cbn [fst snd] in Heq. injection Heq as <- <-.
    destruct (IH _ He Hsubs comps' c' Hin) as [_ Hall].
    split; [discriminate | constructor; assumption].
Qed.

Lemma same_name_same_entry (entries : list (string * node)) e1 e2 :
  NoDup (map fst entries) -> In e1 entries -> In e2 entries -> fst e1 = fst e2 -> e1 = e2.
Proof.
  induction entries as [| e entries IH]; [intros _ [] |].
  cbn [map]. intros Hnd. apply NoDup_cons_iff in Hnd. destruct Hnd as [Hfresh Hnd].
  intros [<- | H1] [<- | H2] Hsame; auto.
  - exfalso. apply Hfresh. rewrite Hsame. apply in_map, H2.
  - exfalso. apply Hfresh. rewrite <- Hsame. apply in_map, H1.
Qed.

(** No file lies below another file. *)
Lemma file_comps_prefix_free tree :
  well_formed tree ->
  forall comps1 content1 comps2 content2 name more,
    In (comps1, content1) (file_comps tree) ->
    In (comps2, content2) (file_comps tree) ->
    comps2 <> (comps1 ++ name :: more)%list.
Proof.
  induction tree as [c | entries IH] using Walk.node_induction;
    intros Hwf comps1 content1 comps2 content2 name more Hin1 Hin2 Heq; [destruct Hin1 |].
  apply Walk.well_formed_Dir in Hwf. destruct Hwf as (Hnd & _ & Hsubs).
  cbn [file_comps] in Hin1, Hin2.
  apply in_flat_map in Hin1. destruct Hin1 as ([name1 sub1] & He1 & Hin1).
  apply in_flat_map in Hin2. destruct Hin2 as ([name2 sub2] & He2 & Hin2).
  cbn [fst snd] in *.
  assert (Hheads : exists rest1 rest2,
             comps1 = name1 :: rest1 /\ comps2 = name2 :: rest2
             /\ (match sub1 with
                 | File _ => rest1 = []
                 | Dir _ => In (rest1, content1) (file_comps sub1)
                 end)
             /\ (match sub2 with
                 | File _ => rest2 = []
                 | Dir _ => In (rest2, content2) (file_comps sub2)
                 end)).
  { assert (H1 : exists rest1, comps1 = name1 :: rest1
                               /\ match sub1 with
                                  | File _ => rest1 = []
                                  | Dir _ => In (rest1, content1) (file_comps sub1)
                                  end).
    { destruct sub1 as [c | es].
      - destruct Hin1 as [Hin1 | []]. injection Hin1 as <- _. exists []. auto.
      - apply in_map_iff in Hin1. destruct Hin1 as ([r c] & Hr & Hin1).
        cbn [fst snd] in Hr. injection Hr as <- <-. exists r. auto. }
    assert (H2 : exists rest2, comps2 = name2 :: rest2
                               /\ match sub2 with
                                  | File _ => rest2 = []
                                  | Dir _ => In (rest2, content2) (file_comps sub2)
                                  end).
    { destruct sub2 as [c | es].
      - destruct Hin2 as [Hin2 | []]. injection Hin2 as <- _. exists []. auto.
      - apply in_map_iff in Hin2. destruct Hin2 as ([r c] & Hr & Hin2).
        cbn [fst snd] in Hr. injection Hr as <- <-. exists r. auto. }
    destruct H1 as (r1 & ? & ?). destruct H2 as (r2 & ? & ?). exists r1, r2. auto. }
  destruct Hheads as (rest1 & rest2 & -> & -> & H1 & H2).
  cbn [app] in Heq. injection Heq as Hname Hrest. subst name2.
  pose proof (same_name_same_entry entries _ _ Hnd He1 He2 eq_refl) as Hsame.
  injection Hsame as <-.
  destruct sub1 as [c | es].
  - rewrite H1, H2 in Hrest. discriminate Hrest.
  - rewrite Forall_forall in IH, Hsubs.
    exact (IH _ He1 (Hsubs _ He1) _ _ _ _ _ _ H1 H2 Hrest).
Qed.

(** *** Targets and the directories above them *)

Lemma split_join_pieces l :
  l <> [] -> Forall no_sep l -> split_sep (sep_join l) = l.
Proof.
  induction l as [| x l IH]; [contradiction |]. intros _ Hall.
  inversion Hall as [| ? ? Hx Hrest]; subst.
  destruct l as [| y l'].
  - cbn [sep_join]. apply Relative.split_sep_no_sep, Hx.
  - change (sep_join (x :: y :: l')) with (x ++ "/" ++ sep_join (y :: l'))%string.
    rewrite Relative.split_sep_app, (Relative.split_sep_no_sep x Hx), IH;
      [reflexivity | discriminate | exact Hrest].
Qed.

Lemma split_sep_all_no_sep s : Forall no_sep (split_sep s).
Proof. apply Forall_forall. intros p Hp. exact (Relative.split_sep_pieces_no_sep _ _ Hp). Qed.

Lemma firstn_all_no_sep k s : Forall no_sep (firstn k (split_sep s)).
Proof.
  apply Forall_forall. intros p Hp.
  apply (Relative.split_sep_pieces_no_sep s). 
  rewrite <- (firstn_skipn k (split_sep s)). apply in_or_app. left. exact Hp.
Qed.

(** The directories above a URI are what is left of it when pieces are
    taken off its end. *)
Lemma ancestors_prefixes l fuel k d :
  Forall no_sep l -> 0 < k -> k <= length l ->
  In d (ancestors fuel (sep_join (firstn k l))) ->
  exists j, 0 < j /\ j < k /\ d = sep_join (firstn j l).
Proof.
  intros Hl. revert k. induction fuel as [| fuel IH]; intros k Hk Hlen; [intros [] |].
  cbn [ancestors]. unfold uri_parent.
  assert (Hfirst : firstn k l <> []).
  { destruct l; [cbn in Hlen; lia |]. destruct k; [lia | discriminate]. }
  assert (Hsep : Forall no_sep (firstn k l)).
  { apply Forall_forall. intros p Hp. rewrite Forall_forall in Hl. apply Hl.
    rewrite <- (firstn_skipn k l). apply in_or_app. left. exact Hp. }
  rewrite (split_join_pieces _ Hfirst Hsep).
  rewrite length_firstn, (Nat.min_l k (length l) Hlen).
  destruct (Nat.ltb 3 k) eqn:H3; [| intros []].
  apply Nat.ltb_lt in H3.
  assert (Hrm : removelast (firstn k l) = firstn (k - 1) l).
  { replace k with (S (k - 1)) at 1 by lia. apply removelast_firstn. lia. }
  rewrite Hrm. intros [<- | Hin].
  - exists (k - 1). split; [lia |]. split; [lia | reflexivity].
  - destruct (IH (k - 1)) as (j & Hj & Hjk & ->); [lia | lia | exact Hin |].
    exists j. split; [exact Hj |]. split; [lia | reflexivity].
Qed.

Lemma uri_ancestors_prefixes uri d :
  In d (uri_ancestors uri) ->
  exists j, 0 < j /\ j < length (split_sep uri) /\ d = sep_join (firstn j (split_sep uri)).
Proof.
  unfold uri_ancestors, uri_parent.
  destruct (Nat.ltb 3 (length (split_sep uri))) eqn:H3; [| intros []].
  apply Nat.ltb_lt in H3.
  rewrite (removelast_firstn_len (split_sep uri)).
  intros [<- | Hin].
  - exists (pred (length (split_sep uri))). split; [lia |]. split; [lia | reflexivity].
  - destruct (ancestors_prefixes (split_sep uri)
                (String.length (sep_join (firstn (pred (length (split_sep uri)))
                                                 (split_sep uri))))
                (pred (length (split_sep uri))) d
                (split_sep_all_no_sep uri)) as (j & Hj & Hjk & ->); [lia | lia | exact Hin |].
    exists j. split; [exact Hj |]. split; [lia | reflexivity].
Qed.

Lemma endswith_sep_split s : endswith_sep s = true -> exists s0, s = (s0 ++ "/")%string.
Proof.
  induction s as [| c s IH]; [discriminate |].
  destruct s as [| c' s'].
  - cbn [endswith_sep]. intros Hc. apply Ascii.eqb_eq in Hc. subst c. exists "". reflexivity.
  - intros H. destruct (IH H) as [s0 Hs0]. exists (String c s0). cbn [append].
    rewrite <- Hs0. reflexivity.
Qed.

Lemma lstrip_sep_end s :
  endswith_sep s = true -> lstrip_sep s = "" \/ endswith_sep (lstrip_sep s) = true.
Proof.
  induction s as [| c s IH]; [discriminate |].
  intros H. cbn [lstrip_sep]. destruct (Ascii.eqb c "/") eqn:Hc; [| right; exact H].
  destruct s as [| c' s']; [left; reflexivity |]. apply IH. exact H.
Qed.

(** The base of the targets ends with a separator. *)
Lemma remote_base_sep cfg : exists b0, remote_base cfg = (b0 ++ "/")%string.
Proof.
  unfold remote_base.
  assert (H : lstrip_sep (dir_prefix (GOOGLE_DRIVE_FOLDER cfg)) = ""
              \/ endswith_sep (lstrip_sep (dir_prefix (GOOGLE_DRIVE_FOLDER cfg))) = true).
  { unfold dir_prefix. destruct (GOOGLE_DRIVE_FOLDER cfg) as [| c f]; [left; reflexivity |].
    cbn [truthy negb orb]. apply lstrip_sep_end.
    destruct (endswith_sep (String c f)) eqn:E; [exact E |].
    rewrite (Walk.endswith_sep_append (String c f) "/") by discriminate. reflexivity. }
  destruct H as [-> | H].
  - exists (GOOGLE_DRIVE_PREFIX ++ DRIVE_USER cfg)%string.
    rewrite Relative.append_empty_r, Walk.append_assoc. reflexivity.
  - destruct (endswith_sep_split _ H) as [l0 ->].
    exists (GOOGLE_DRIVE_PREFIX ++ DRIVE_USER cfg ++ "/" ++ l0)%string.
    rewrite !Walk.append_assoc. reflexivity.
Qed.

Lemma proper_no_sep comps :
  Forall (fun n => proper_name n = true) comps -> Forall no_sep comps.
Proof.
  intros H. eapply Forall_impl; [| exact H]. intros n Hn.
  destruct (Relative.proper_name_facts n Hn) as (_ & _ & _ & _ & Hns & _). exact Hns.
Qed.

(** The pieces of a target: those of the base, then the names. *)
Lemma target_pieces cfg :
  exists base_pieces,
    base_pieces <> []
    /\ forall comps,
         comps <> [] -> Forall (fun n => proper_name n = true) comps ->
         split_sep (remote_base cfg ++ sep_join comps) = (base_pieces ++ comps)%list.
Proof.
  destruct (remote_base_sep cfg) as [b0 Hb0]. exists (split_sep b0).
  split; [apply Relative.split_sep_nonempty |].
  intros comps Hne Hall. rewrite Hb0, Walk.append_assoc, Relative.split_sep_app.
  rewrite (split_join_pieces comps Hne (proper_no_sep comps Hall)). reflexivity.
Qed.

(** The target of a file is not a directory above the target of a file. *)
Lemma target_not_above cfg tree comps1 content1 comps2 content2 :
  well_formed tree -> proper_names tree ->
  In (comps1, content1) (file_comps tree) ->
  In (comps2, content2) (file_comps tree) ->
  ~ In (remote_base cfg ++ sep_join comps1)%string
       (uri_ancestors (remote_base cfg ++ sep_join comps2)).
Proof.
  intros Hwf Hproper Hin1 Hin2 Habove.
  destruct (file_comps_proper tree Hproper _ _ Hin1) as [Hne1 Hall1].
  destruct (file_comps_proper tree Hproper _ _ Hin2) as [Hne2 Hall2].
  destruct (target_pieces cfg) as (bp & Hbp & Hpieces).
  apply uri_ancestors_prefixes in Habove. destruct Habove as (j & Hj & Hjlen & Heq).
  rewrite (Hpieces comps2 Hne2 Hall2) in Hjlen, Heq.
  apply (f_equal split_sep) in Heq.
  rewrite (Hpieces comps1 Hne1 Hall1) in Heq.
  assert (Hsep2 : Forall no_sep (bp ++ comps2)).
  { rewrite <- (Hpieces comps2 Hne2 Hall2). apply split_sep_all_no_sep. }
  rewrite split_join_pieces in Heq.
  - rewrite firstn_app in Heq.
    destruct (Nat.le_gt_cases (length bp) j) as [Hge | Hlt].
    + rewrite (firstn_all2 bp Hge) in Heq. apply app_inv_head in Heq.
      rewrite length_app in Hjlen.
      assert (Hsplit : comps2 = (firstn (j - length bp) comps2
                                 ++ skipn (j - length bp) comps2)%list)
        by (symmetry; apply firstn_skipn).
      destruct (skipn (j - length bp) comps2) as [| name more] eqn:Hskip.
      * apply (f_equal (@length string)) in Hskip. rewrite length_skipn in Hskip.
        cbn [length] in Hskip. lia.
      * rewrite <- Heq in Hsplit.
        exact (file_comps_prefix_free tree Hwf _ _ _ _ _ _ Hin1 Hin2 Hsplit).
    + apply (f_equal (@length string)) in Heq.
      rewrite !length_app, !length_firstn in Heq.
      destruct comps1; [contradiction | cbn [length] in Heq; lia].
  - destruct bp; [contradiction |]. destruct j; [lia | discriminate].
  - apply Forall_forall. intros p Hp. rewrite Forall_forall in Hsep2. apply Hsep2.
    rewrite <- (firstn_skipn j (bp ++ comps2)). apply in_or_app. left. exact Hp.
Qed.

(** *** One file after the other *)

Lemma lookup_NoDup {A : Type} (l : list (string * A)) key (a : A) :
  NoDup (map fst l) -> In (key, a) l -> lookup key l = Some a.
Proof.
  induction l as [| [k x] l IH]; [intros _ [] |].
  cbn [map fst]. intros Hnd. apply NoDup_cons_iff in Hnd. destruct Hnd as [Hfresh Hnd].
  intros [Heq | Hin]; cbn [lookup].
  - injection Heq as -> ->. rewrite String.eqb_refl. reflexivity.
  - destruct (String.eqb k key) eqn:Hk.
    + apply String.eqb_eq in Hk. subst k. exfalso. apply Hfresh.
      apply (in_map fst _ _ Hin).
    + apply IH; assumption.
Qed.

Section Uploading.

Variable cfg : config.
Variable cwd : string.
Variable w0 : world.

Hypothesis Hcwd : isabs cwd = true.
Hypothesis Htop : local_top w0 = LOCAL_FOLDER cfg.
Hypothesis Hwf : well_formed (local_tree w0).
Hypothesis Hproper : proper_names (local_tree w0).
Hypothesis Hthere : drive_available cfg w0 = true.
Hypothesis Habsent :
  forall path content,
    In (path, content) (files_below (LOCAL_FOLDER cfg) (local_tree w0)) ->
    exists_remote w0 (target_of cfg cwd path) = false
    /\ forall parent, uri_parent (target_of cfg cwd path) = Some parent ->
                      lookup parent (remote_files w0) = None.

(** A file of the tree, its names, its relative path and its target. *)
Lemma file_target path content :
  In (path, content) (files_below (LOCAL_FOLDER cfg) (local_tree w0)) ->
  exists comps,
    In (comps, content) (file_comps (local_tree w0))
    /\ path = fold_left join comps (LOCAL_FOLDER cfg)
    /\ relpath cwd path (LOCAL_FOLDER cfg) = Ok (sep_join comps)
    /\ drive_file_path_of cfg (sep_join comps) = (remote_base cfg ++ sep_join comps)%string
    /\ target_of cfg cwd path = (remote_base cfg ++ sep_join comps)%string.
Proof.
  intros Hin. rewrite files_below_file_comps in Hin. apply in_map_iff in Hin.
  destruct Hin as ([comps c] & Heq & Hin). cbn [fst snd] in Heq. injection Heq as <- <-.
  destruct (file_comps_proper _ Hproper _ _ Hin) as [Hne Hall].
  pose proof (Relative.relpath_below cwd (LOCAL_FOLDER cfg) comps Hcwd Hne Hall) as Hrel.
  pose proof (drive_file_path_of_relative cfg _ (sep_join_relative comps Hall)) as Htarget.
  exists comps. split; [exact Hin |]. split; [reflexivity |]. split; [exact Hrel |].
  split; [exact Htarget |]. unfold target_of. rewrite Hrel. exact Htarget.
Qed.

Lemma targets_differ path1 content1 path2 content2 :
  In (path1, content1) (files_below (LOCAL_FOLDER cfg) (local_tree w0)) ->
  In (path2, content2) (files_below (LOCAL_FOLDER cfg) (local_tree w0)) ->
  target_of cfg cwd path1 = target_of cfg cwd path2 -> path1 = path2.
Proof.
  intros H1 H2 Hsame.
  destruct (file_target _ _ H1) as (comps1 & Hin1 & -> & _ & _ & Ht1).
  destruct (file_target _ _ H2) as (comps2 & Hin2 & -> & _ & _ & Ht2).
  rewrite Ht1, Ht2 in Hsame. apply Walk.append_cancel_l in Hsame.
  destruct (file_comps_proper _ Hproper _ _ Hin1) as [_ Hall1].
  destruct (file_comps_proper _ Hproper _ _ Hin2) as [_ Hall2].
  rewrite (sep_join_proper_injective _ _ Hall1 Hall2 Hsame). reflexivity.
Qed.

Lemma target_below_no_target path1 content1 path2 content2 :
  In (path1, content1) (files_below (LOCAL_FOLDER cfg) (local_tree w0)) ->
  In (path2, content2) (files_below (LOCAL_FOLDER cfg) (local_tree w0)) ->
  ~ In (target_of cfg cwd path1) (uri_ancestors (target_of cfg cwd path2)).
Proof.
  intros H1 H2.
  destruct (file_target _ _ H1) as (comps1 & Hin1 & _ & _ & _ & ->).
  destruct (file_target _ _ H2) as (comps2 & Hin2 & _ & _ & _ & ->).
  exact (target_not_above cfg _ _ _ _ _ Hwf Hproper Hin1 Hin2).
Qed.

Lemma files_below_NoDup top tree : well_formed tree -> NoDup (map fst (files_below top tree)).
Proof.
  intros H. rewrite Walk.files_below_all. apply Walk.NoDup_map_filter, Walk.all_below_NoDup, H.
Qed.

Lemma in_directory_more (w w1 : world) uri more :
  remote_dirs w1 = remote_dirs w \/ remote_dirs w1 = (more ++ remote_dirs w)%list ->
  in_directory w uri = true -> in_directory w1 uri = true.
Proof.
  unfold in_directory. destruct (uri_parent uri) as [parent |]; [| reflexivity].
  intros [-> | ->]; [trivial |]. unfold mem. rewrite existsb_app. intros ->.
  apply orb_true_r.
Qed.

Lemma upload_next (w : world) (done : list string) path content :
  uploaded cfg cwd w0 w done ->
  (forall p, In p done ->
             exists c, In (p, c) (files_below (LOCAL_FOLDER cfg) (local_tree w0))) ->
  In (path, content) (files_below (LOCAL_FOLDER cfg) (local_tree w0)) ->
  ~ In path done ->
  exists w1 t,
    run gio (sync_file cfg cwd path) w = (Returned tt, w1, t)
    /\ existsb is_delete t = false
    /\ uploaded cfg cwd w0 w1 (path :: done).
Proof.
  intros (Hs & Hothers & Hdone & Hdirs & Hparents) Hfiles Hin Hnew.
  destruct (file_target _ _ Hin) as (comps & Hcomps & Hpath & Hrel & Htarget & Htgt).
  destruct (Habsent _ _ Hin) as [Hno Hnoparent].
  destruct Hs as (Hv & Hu & Hlt & Hl).
  assert (Hfresh : forall p, In p done -> target_of cfg cwd path <> target_of cfg cwd p).
  { intros p Hp Hsame. destruct (Hfiles p Hp) as [c Hc].
    apply Hnew. rewrite (targets_differ _ _ _ _ Hin Hc Hsame). exact Hp. }
  assert (Hlookup : lookup (target_of cfg cwd path) (remote_files w) = None).
  { rewrite (Hothers _ Hfresh). unfold exists_remote in Hno.
    destruct (lookup (target_of cfg cwd path) (remote_files w0)); [discriminate | reflexivity]. }
  assert (Hnodir : mem (target_of cfg cwd path) (remote_dirs w) = false).
  { apply Upload.mem_false. intros Hd. destruct (Hdirs _ Hd) as [Hd0 | (q & c & Hq & Hd0)].
    - unfold exists_remote in Hno.
      destruct (lookup (target_of cfg cwd path) (remote_files w0)); [discriminate |].
      apply Upload.mem_false in Hno. contradiction.
    - exact (target_below_no_target _ _ _ _ Hin Hq Hd0). }
  assert (Hex : exists_remote w (drive_file_path_of cfg (sep_join comps)) = false).
  { rewrite Htarget, <- Htgt. unfold exists_remote. rewrite Hlookup. exact Hnodir. }
  assert (Hpar : forall parent,
             uri_parent (drive_file_path_of cfg (sep_join comps)) = Some parent ->
             lookup parent (remote_files w) = None).
  { rewrite Htarget, <- Htgt. intros parent Hp.
    assert (Habove : In parent (uri_ancestors (target_of cfg cwd path)))
      by (unfold uri_ancestors; rewrite Hp; left; reflexivity).
    rewrite Hothers; [exact (Hnoparent parent Hp) |].
    intros p Hpd ->. destruct (Hfiles p Hpd) as [c Hc].
    exact (target_below_no_target _ _ _ _ Hc Hin Habove). }
  assert (Havail : drive_available cfg w = true).
  { unfold drive_available in *. rewrite Hv. exact Hthere. }
  assert (Hlocal : local_file w path = Some content).
  { unfold local_file. rewrite Hlt, Hl, Htop.
    apply lookup_NoDup; [apply files_below_NoDup, Hwf | exact Hin]. }
  destruct (Upload.sync_file_creates cfg cwd path (sep_join comps) content w
              Havail Hrel Hlocal Hex Hpar)
    as (w1 & t & Hrun & _ & Hnodel & Hthere1 & Hind & Hframe & Hdirs1 & Hs1).
  rewrite Htarget, <- Htgt in Hthere1, Hframe, Hdirs1, Hind.
  exists w1, t. split; [exact Hrun |]. split; [exact Hnodel |].
  split; [| split; [| split; [| split]]].
  - eapply same_setting_trans; [| exact Hs1]. repeat split; assumption.
  - intros uri Hall. rewrite Hframe by (apply Hall; left; reflexivity).
    apply Hothers. intros p Hp. apply Hall. right. exact Hp.
  - intros p c [<- | Hp] Hc.
    + rewrite Hthere1. f_equal.
      pose proof (lookup_NoDup _ _ _ (files_below_NoDup _ _ Hwf) Hin) as E1.
      pose proof (lookup_NoDup _ _ _ (files_below_NoDup _ _ Hwf) Hc) as E2.
      congruence.
    + rewrite Hframe; [exact (Hdone p c Hp Hc) |].
      intros Hsame. apply Hnew. rewrite <- (targets_differ _ _ _ _ Hc Hin Hsame). exact Hp.
  - intros d Hd. destruct Hdirs1 as [E | E]; rewrite E in Hd.
    + apply Hdirs, Hd.
    + apply in_app_or in Hd. destruct Hd as [Hd | Hd]; [| apply Hdirs, Hd].
      right. exists path, content. auto.
  - intros p [<- | Hp]; [exact Hind |].
    exact (in_directory_more w w1 _ _ Hdirs1 (Hparents p Hp)).
Qed.

Lemma upload_all (paths : list string) :
  forall (done : list string) (w : world),
    NoDup paths ->
    (forall p, In p paths -> ~ In p done) ->
    (forall p, In p paths ->
               exists c, In (p, c) (files_below (LOCAL_FOLDER cfg) (local_tree w0))) ->
    (forall p, In p done ->
               exists c, In (p, c) (files_below (LOCAL_FOLDER cfg) (local_tree w0))) ->
    uploaded cfg cwd w0 w done ->
    exists w1 t,
      run gio (for_each paths (sync_file cfg cwd)) w = (Returned tt, w1, t)
      /\ existsb is_delete t = false
      /\ uploaded cfg cwd w0 w1 (rev paths ++ done).
Proof.
  induction paths as [| path paths IH]; intros done w Hnd Hnew Hfiles Hdone Hup.
  - exists w, []. split; [reflexivity |]. split; [reflexivity | exact Hup].
  - apply NoDup_cons_iff in Hnd. destruct Hnd as [Hfresh Hnd].
    destruct (Hfiles path (or_introl eq_refl)) as [content Hin].
    destruct (upload_next w done path content Hup Hdone Hin (Hnew path (or_introl eq_refl)))
      as (w1 & t1 & Hrun1 & Hdel1 & Hup1).
    destruct (IH (path :: done) w1 Hnd) as (w2 & t2 & Hrun2 & Hdel2 & Hup2).
    + intros p Hp [<- | Hpd]; [contradiction |]. exact (Hnew p (or_intror Hp) Hpd).
    + intros p Hp. apply Hfiles. right. exact Hp.
    + intros p [<- | Hp]; [eauto | apply Hdone, Hp].
    + exact Hup1.
    + cbn [for_each]. rewrite run_bind, Hrun1, Hrun2.
      exists w2, (t1 ++ t2). split; [reflexivity |].
      split; [rewrite existsb_app, Hdel1, Hdel2; reflexivity |].
      cbn [rev]. rewrite <- app_assoc. exact Hup2.
Qed.

End Uploading.

(** The pass over a drive that has none of the files yet. *)
Lemma full_pass_uploads (cfg : config) (cwd : string) (w : world) :
  drive_available cfg w = true ->
  isabs cwd = true ->
  local_top w = LOCAL_FOLDER cfg ->
  well_formed (local_tree w) ->
  proper_names (local_tree w) ->
  (forall path content,
      In (path, content) (files_below (LOCAL_FOLDER cfg) (local_tree w)) ->
      exists_remote w (target_of cfg cwd path) = false
      /\ forall parent, uri_parent (target_of cfg cwd path) = Some parent ->
                        lookup parent (remote_files w) = None) ->
  exists w1 t,
    run gio (sync_all_files cfg cwd) w = (Returned tt, w1, t)
    /\ existsb is_delete t = false
    /\ same_setting w w1
    /\ (forall path content,
           In (path, content) (files_below (LOCAL_FOLDER cfg) (local_tree w)) ->
           lookup (target_of cfg cwd path) (remote_files w1) = Some content
           /\ in_directory w1 (target_of cfg cwd path) = true)
    /\ (forall uri,
           (forall path content,
               In (path, content) (files_below (LOCAL_FOLDER cfg) (local_tree w)) ->
               uri <> target_of cfg cwd path) ->
           lookup uri (remote_files w1) = lookup uri (remote_files w)).
Proof.
  intros Hthere Hcwd Htop Hwf Hproper Habsent.
  rewrite sync_all_files_run. cbv zeta.
  set (wa := snd (gio _ (log INFO "Performing initial sync of all files...") w)).
  assert (Hta : drive_available cfg wa = true) by exact Hthere.
  destruct (availability_check_there cfg wa Hta) as (t1 & -> & Hvol).
  rewrite sync_all_files_walk_run.
  assert (Hwalk : gio _ (os_walk (LOCAL_FOLDER cfg)) wa
                  = (walk_tree (LOCAL_FOLDER cfg) (local_tree w), wa)).
  { cbn [gio]. change (local_top wa) with (local_top w).
    rewrite Htop, String.eqb_refl. reflexivity. }
  rewrite Hwalk.
  pose proof (Walk.walk_targets_files (LOCAL_FOLDER cfg) (local_tree w)) as Hperm.
  assert (Hnd : NoDup (walk_targets (walk_tree (LOCAL_FOLDER cfg) (local_tree w)))).
  { apply (Permutation_NoDup (Permutation_sym Hperm)), files_below_NoDup, Hwf. }
  assert (Hfiles : forall p,
             In p (walk_targets (walk_tree (LOCAL_FOLDER cfg) (local_tree w))) ->
             exists c, In (p, c) (files_below (LOCAL_FOLDER cfg) (local_tree w))).
  { intros p Hp. apply (Permutation_in _ Hperm) in Hp. apply in_map_iff in Hp.
    destruct Hp as ([q c] & <- & Hq). exists c. exact Hq. }
  destruct (upload_all cfg cwd w Hcwd Htop Hwf Hproper Hthere Habsent
              (walk_targets (walk_tree (LOCAL_FOLDER cfg) (local_tree w))) [] wa Hnd)
    as (w3 & t3 & Hrun & Hdel & Hs & Hothers & Hdone & _ & Hparents).
  - intros p _ [].
  - exact Hfiles.
  - intros p [].
  - split; [repeat split |]. split; [reflexivity |]. split; [intros p c [] |].
    split; [intros d Hd; left; exact Hd | intros p []].
  - rewrite Hrun. eexists _, _. split; [reflexivity |]. rewrite app_nil_r in *.
    split.
    + cbn [existsb is_delete orb]. rewrite !existsb_app.
      rewrite (prelude_no_delete _ (volume_events_are_prelude _ Hvol)).
      cbn [existsb is_delete orb]. rewrite existsb_app, Hdel. reflexivity.
    + split; [destruct Hs as (a & b & c & d); repeat split; assumption |].
      split.
      * intros path content Hin.
        assert (Hp : In path (rev (walk_targets (walk_tree (LOCAL_FOLDER cfg)
                                                           (local_tree w))))).
        { apply -> in_rev. apply (Permutation_in _ (Permutation_sym Hperm)).
          apply (in_map fst _ _ Hin). }
        split; [exact (Hdone path content Hp Hin) | exact (Hparents path Hp)].
      * intros uri Hall. cbn [gio snd remote_files with_log].
        apply Hothers. intros p Hp. apply <- in_rev in Hp.
        destruct (Hfiles p Hp) as [c Hc]. exact (Hall p c Hc).
Qed.

End Pass.


(** ** The full pass on a tree that is in sync *)

Module Again.
Import Mem MemFacts Idempotence.

Lemma synced_state_same w w' path uri :
  same_files w w' -> synced_state w path uri -> synced_state w' path uri.
Proof.
  intros (Hf & Hd & _ & Hlt & Hl) (content & Hlocal & Hremote & Hin).
  exists content. unfold local_file, in_directory in *. rewrite Hf, Hd, Hlt, Hl. auto.
Qed.

(** A sync of a file that is in sync, with everything it leaves as it
    was. *)
Lemma sync_file_in_sync cfg cwd file_path rel_path (w : world) :
  drive_available cfg w = true ->
  posixpath.relpath cwd file_path (LOCAL_FOLDER cfg) = Ok rel_path ->
  synced_state w file_path (drive_file_path_of cfg rel_path) ->
  mem (drive_file_path_of cfg rel_path) (unreadable w) = false ->
  exists w1 t,
    run gio (sync_file cfg cwd file_path) w = (Returned tt, w1, t)
    /\ outcome_of t = Some skipped_no_change
    /\ same_files w w1
    /\ volumes w1 = volumes w
    /\ existsb is_delete t = false
    /\ existsb is_copy t = false.
Proof.
  intros Hthere Hrel Hsynced Hread.
  destruct (availability_check_there cfg w Hthere) as (ta & Hcheck & Hva).
  destruct (sync_file_body_in_sync cfg cwd file_path rel_path w Hrel Hsynced Hread)
    as (w1 & t & Hbody & Htrace & Hf & Hd & Hc).
  destruct (sync_file_body_on cfg cwd file_path rel_path w Hrel)
    as (w1' & t' & o' & Hbody' & _ & (Hv & _) & _).
  rewrite Hbody in Hbody'. injection Hbody' as <- _.
  exists w1, (ta ++ t). split; [rewrite sync_file_run, Hcheck, Hbody; reflexivity |].
  split; [exact (body_trace_outcome _ _ _ _ _ Htrace (volume_events_no_delete _ Hva)) |].
  split; [exact Hf |]. split; [exact Hv |].
  rewrite !existsb_app, Hd, Hc.
  rewrite (prelude_no_delete _ (volume_events_are_prelude _ Hva)).
  rewrite (prelude_no_copy _ (volume_events_are_prelude _ Hva)). auto.
Qed.

Lemma sync_all_in_sync cfg cwd (w0 : world) (paths : list string) :
  drive_available cfg w0 = true ->
  (forall path, In path paths ->
     exists rel_path,
       posixpath.relpath cwd path (LOCAL_FOLDER cfg) = Ok rel_path
       /\ synced_state w0 path (drive_file_path_of cfg rel_path)
       /\ mem (drive_file_path_of cfg rel_path) (unreadable w0) = false) ->
  forall w,
    same_files w0 w -> volumes w = volumes w0 ->
    exists w1 t,
      run gio (for_each paths (sync_file cfg cwd)) w = (Returned tt, w1, t)
      /\ same_files w0 w1
      /\ volumes w1 = volumes w0
      /\ existsb is_delete t = false
      /\ existsb is_copy t = false.
Proof.
  intros Hthere. induction paths as [| path paths IH]; intros Hall w Hf Hv.
  - exists w, []. auto.
  - destruct (Hall path (or_introl eq_refl)) as (rel & Hrel & Hsynced & Hread).
    assert (Hthere' : drive_available cfg w = true)
      by (unfold drive_available in *; rewrite Hv; exact Hthere).
    assert (Hread' : mem (drive_file_path_of cfg rel) (unreadable w) = false)
      by (destruct Hf as (_ & _ & Hu & _); rewrite Hu; exact Hread).
    destruct (sync_file_in_sync cfg cwd path rel w Hthere' Hrel
                (synced_state_same _ _ _ _ Hf Hsynced) Hread')
      as (w1 & t1 & Hrun1 & _ & Hf1 & Hv1 & Hd1 & Hc1).
    destruct (IH (fun p Hp => Hall p (or_intror Hp)) w1
                (same_files_trans _ _ _ Hf Hf1)) as (w2 & t2 & Hrun2 & Hf2 & Hv2 & Hd2 & Hc2).
    { rewrite Hv1. exact Hv. }
    cbn [for_each]. rewrite run_bind, Hrun1, Hrun2.
    exists w2, (t1 ++ t2). split; [reflexivity |]. split; [exact Hf2 |].
    split; [exact Hv2 |]. rewrite !existsb_app, Hd1, Hd2, Hc1, Hc2. auto.
Qed.

(** The pass over a tree that is in sync. *)
Lemma full_pass_in_sync (cfg : config) (cwd : string) (w : world) :
  drive_available cfg w = true ->
  local_top w = LOCAL_FOLDER cfg ->
  (forall path content,
      In (path, content) (files_below (LOCAL_FOLDER cfg) (local_tree w)) ->
      exists rel_path,
        posixpath.relpath cwd path (LOCAL_FOLDER cfg) = Ok rel_path
        /\ synced_state w path (drive_file_path_of cfg rel_path)
        /\ mem (drive_file_path_of cfg rel_path) (unreadable w) = false) ->
  exists w1 t,
    run gio (sync_all_files cfg cwd) w = (Returned tt, w1, t)
    /\ same_files w w1
    /\ existsb is_delete t = false
    /\ existsb is_copy t = false
    /\ final t = Some (E_log INFO "Initial sync complete.").
Proof.
  intros Hthere Htop Hsynced.
  rewrite sync_all_files_run. cbv zeta.
  set (wa := snd (gio _ (log INFO "Performing initial sync of all files...") w)).
  assert (Hta : drive_available cfg wa = true) by exact Hthere.
  destruct (availability_check_there cfg wa Hta) as (t1 & -> & Hvol).
  rewrite sync_all_files_walk_run.
  assert (Hwalk : gio _ (os_walk (LOCAL_FOLDER cfg)) wa
                  = (walk_tree (LOCAL_FOLDER cfg) (local_tree w), wa)).
  { cbn [gio]. change (local_top wa) with (local_top w).
    rewrite Htop, String.eqb_refl. reflexivity. }
  rewrite Hwalk.
  pose proof (Walk.walk_targets_files (LOCAL_FOLDER cfg) (local_tree w)) as Hperm.
  destruct (sync_all_in_sync cfg cwd w
              (walk_targets (walk_tree (LOCAL_FOLDER cfg) (local_tree w))) Hthere)
    with (w := wa) as (w3 & t3 & Hrun & Hf & _ & Hd & Hc).
  - intros p Hp. apply (Permutation_in _ Hperm) in Hp. apply in_map_iff in Hp.
    destruct Hp as ([q c] & <- & Hq). exact (Hsynced q c Hq).
  - repeat split.
  - reflexivity.
  - rewrite Hrun. eexists _, _. split; [reflexivity |].
    split; [destruct Hf as (a & b & c & d & e); repeat split; assumption |].
    cbn [existsb is_delete is_copy orb]. rewrite !existsb_app.
    rewrite (prelude_no_delete _ (volume_events_are_prelude _ Hvol)).
    rewrite (prelude_no_copy _ (volume_events_are_prelude _ Hvol)).
    cbn [existsb is_delete is_copy orb]. rewrite !existsb_app, Hd, Hc.
    split; [reflexivity |]. split; [reflexivity |].
    find_final. reflexivity.
Qed.

End Again.

(** The full pass on a tree that is in sync changes nothing (lines 196-209
    with 140-193, on the reference platform).  When the drive is mounted
    and every file of the local tree has a readable remote copy with its
    content at its target, [sync_all_files] returns having deleted and
    copied nothing, and the remote files and directories are as they
    were. *)
Theorem full_pass_of_synced_tree_changes_nothing
        (cfg : config) (cwd : string) (w : Mem.world) :
  Mem.drive_available cfg w = true ->
  Mem.local_top w = LOCAL_FOLDER cfg ->
  (forall path content,
      In (path, content) (files_below (LOCAL_FOLDER cfg) (Mem.local_tree w)) ->
      exists rel_path,
        posixpath.relpath cwd path (LOCAL_FOLDER cfg) = Ok rel_path
        /\ Mem.synced_state w path (drive_file_path_of cfg rel_path)
        /\ Mem.mem (drive_file_path_of cfg rel_path) (Mem.unreadable w) = false) ->
  exists w1 t,
    run Mem.gio (sync_all_files cfg cwd) w = (Returned tt, w1, t)
    /\ Mem.same_files w w1
    /\ existsb is_delete t = false
    /\ existsb is_copy t = false.
Proof.
  intros Hthere Htop Hsynced.
  destruct (Again.full_pass_in_sync cfg cwd w Hthere Htop Hsynced)
    as (w1 & t & Hrun & Hf & Hd & Hc & _).
  exists w1, t. split; [exact Hrun |]. split; [exact Hf |]. split; [exact Hd | exact Hc].
Qed.


(** ** A mount that fails, on the reference platform *)

Module MountFailure.
Import Mem MemFacts Idempotence Mounting.

(** At the first identifier that is the drive's, a volume that does not
    mount is asked once, and the failure is logged. *)
Lemma mount_identifiers_fails cfg w v kinds :
  existsb (fun kind =>
             is_google_drive_uri cfg
               match lookup kind (vol_identifiers (nth v (volumes w) no_volume)) with
               | Some value => value
               | None => ""
               end) kinds = true ->
  vol_on_mount (nth v (volumes w) no_volume) <> mounts_fine ->
  exists w1 t r,
    run gio (mount_identifiers cfg v kinds) w = (Returned true, w1, t)
    /\ volumes w1 = volumes w
    /\ same_files w w1
    /\ filter is_mount_request t = [E_volume_mount v r]
    /\ existsb is_mount_error t = true.
Proof.
  intros Hsome Hfails. induction kinds as [| kind kinds IH]; [discriminate |].
  cbn [existsb] in Hsome. cbn [mount_identifiers]. mem_step.
  destruct (is_google_drive_uri cfg
              match lookup kind (vol_identifiers (nth v (volumes w) no_volume)) with
              | Some value => value
              | None => ""
              end) eqn:Hvalue.
  - mem_step.
    destruct (vol_on_mount (nth v (volumes w) no_volume)) as [| | e | e] eqn:Hb;
      [contradiction | | |].
    + mem_step. cbn [pending with_pending]. rewrite run_bind.
      unfold on_mount_done. mem_step. cbn [volumes with_pending]. rewrite Hb.
      mem_step. eexists _, _, _. split; [reflexivity |].
      cbn [volumes with_pending with_log filter is_mount_request app].
      split; [reflexivity |]. split; [repeat split |]. split; reflexivity.
    + mem_step. cbn [pending with_pending]. rewrite run_bind.
      unfold on_mount_done. mem_step. cbn [volumes with_pending]. rewrite Hb.
      mem_step. eexists _, _, _. split; [reflexivity |].
      cbn [volumes with_pending with_log filter is_mount_request app].
      split; [reflexivity |]. split; [repeat split |]. split; reflexivity.
    + mem_step. eexists _, _, _. split; [reflexivity |].
      cbn [volumes with_pending with_log filter is_mount_request app].
      split; [reflexivity |]. split; [repeat split |]. split; reflexivity.
  - cbn [orb] in Hsome. destruct (IH Hsome) as (w1 & t & r & -> & Hv & Hf & Hreq & Herr).
    eexists _, _, r. split; [reflexivity |]. cbn [filter is_mount_request existsb is_mount_error].
    auto.
Qed.

Lemma mount_volumes_fails cfg w skipped v rest :
  (forall u, In u skipped -> volume_matches cfg (nth u (volumes w) no_volume) = false) ->
  volume_matches cfg (nth v (volumes w) no_volume) = true ->
  vol_on_mount (nth v (volumes w) no_volume) <> mounts_fine ->
  exists w1 t r,
    run gio (mount_volumes cfg (skipped ++ v :: rest)) w = (Returned true, w1, t)
    /\ volumes w1 = volumes w
    /\ same_files w w1
    /\ filter is_mount_request t = [E_volume_mount v r]
    /\ existsb is_mount_error t = true.
Proof.
  intros Hskip Hmatch Hfails. induction skipped as [| u skipped IH].
  - cbn [app mount_volumes]. mem_step. rewrite run_bind.
    destruct (mount_identifiers_fails cfg w v _ Hmatch Hfails)
      as (w1 & t & r & -> & Hv & Hf & Hreq & Herr).
    cbn [run]. eexists _, _, r. split; [reflexivity |].
    cbn [filter is_mount_request existsb is_mount_error]. rewrite app_nil_r. auto.
  - destruct IH as (w1 & t & r & IH & Hv & Hf & Hreq & Herr);
      [intros u' Hu'; apply Hskip; right; exact Hu' |].
    cbn [app mount_volumes]. mem_step. rewrite run_bind.
    destruct (mount_identifiers_skip cfg w u
                (map fst (vol_identifiers (nth u (volumes w) no_volume))))
      as (t0 & -> & Hnone).
    { apply existsb_none. exact (Hskip u (or_introl eq_refl)). }
    rewrite IH. eexists _, _, r. split; [reflexivity |].
    cbn [filter is_mount_request existsb is_mount_error].
    rewrite filter_app, Hnone, existsb_app, Herr, orb_true_r. auto.
Qed.

Lemma queries_no_request t :
  forallb is_availability_query t = true ->
  filter is_mount_request t = [] /\ existsb touches_remote t = false.
Proof.
  induction t as [| e t IH]; [auto |].
  cbn [forallb]. intros H. apply andb_prop in H. destruct H as [He Ht].
  destruct (IH Ht) as [H1 H2].
  destruct e; try discriminate He; cbn [filter is_mount_request existsb touches_remote orb];
    auto.
Qed.

End MountFailure.

(** A mount that fails leaves the file unsynced (lines 143-148 with 66-105
    and 50-63, on the reference platform).  When the drive is not mounted
    and the first volume with an identifier of the drive does not mount
    ([mount_finish] returns [False] or raises, or [volume.mount] raises),
    [sync_file] asks for that one mount, logs the failure, and returns
    with the outcome skipped-no-drive: it makes no call on the drive, and
    the volumes and the files are as they were. *)
Theorem failed_mount_skips_sync
        (cfg : config) (cwd file_path : string) (w : Mem.world) (k : nat) :
  Mem.drive_available cfg w = false ->
  k < length (Mem.volumes w) ->
  (forall i, i < k -> volume_matches cfg (nth i (Mem.volumes w) Mem.no_volume) = false) ->
  volume_matches cfg (nth k (Mem.volumes w) Mem.no_volume) = true ->
  Mem.vol_on_mount (nth k (Mem.volumes w) Mem.no_volume) <> Mem.mounts_fine ->
  exists w1 t r,
    run Mem.gio (sync_file cfg cwd file_path) w = (Returned tt, w1, t)
    /\ outcome_of t = Some skipped_no_drive
    /\ filter is_mount_request t = [E_volume_mount k r]
    /\ existsb is_mount_error t = true
    /\ existsb touches_remote t = false
    /\ Mem.volumes w1 = Mem.volumes w
    /\ Mem.same_files w w1.
Proof.
  intros Hnot Hk Hbefore Hmatch Hfails.
  rewrite sync_file_run. unfold availability_check. rewrite run_bind.
  destruct (MemFacts.is_drive_available_on cfg w) as [ta Ha].
  assert (Hqa : forallb is_availability_query ta = true).
  { destruct (is_drive_available_run Mem.gio cfg w) as (w2 & t2 & Hrun2 & Hq).
    rewrite Ha in Hrun2. injection Hrun2 as _ _ <-. exact Hq. }
  rewrite Ha, Hnot. cbn [negb]. MemFacts.mem_step. rewrite run_bind.
  unfold mount_google_drive. MemFacts.mem_step. rewrite run_bind.
  match goal with |- context [run Mem.gio (mount_volumes cfg _) ?w0'] => set (w0 := w0') end.
  assert (Hseq : seq 0 (length (Mem.volumes w0))
                 = seq 0 k ++ k :: seq (S k) (length (Mem.volumes w) - S k)).
  { change (Mem.volumes w0) with (Mem.volumes w).
    replace (length (Mem.volumes w)) with (k + S (length (Mem.volumes w) - S k)) at 1 by lia.
    rewrite seq_app. reflexivity. }
  rewrite Hseq.
  destruct (MountFailure.mount_volumes_fails cfg w0 (seq 0 k) k
              (seq (S k) (length (Mem.volumes w) - S k)))
    as (w1 & t & r & Hrun & Hv & Hf & Hreq & Herr); auto.
  { intros u Hu. apply in_seq in Hu. apply Hbefore. lia. }
  assert (Hvol : forallb is_volume_event t = true).
  { destruct (mount_volumes_run Mem.gio cfg
                (seq 0 k ++ k :: seq (S k) (length (Mem.volumes w) - S k)) w0)
      as (b' & w' & t' & Hrun' & _ & _ & _ & Htrue).
    rewrite Hrun in Hrun'. injection Hrun' as <- _ <-.
    apply (scan_with_mount_facts cfg). apply Htrue. reflexivity. }
  rewrite Hrun. cbn [run app].
  destruct (MemFacts.is_drive_available_on cfg w1) as [tb Hb].
  assert (Hqb : forallb is_availability_query tb = true).
  { destruct (is_drive_available_run Mem.gio cfg w1) as (w2 & t2 & Hrun2 & Hq).
    rewrite Hb in Hrun2. injection Hrun2 as _ _ <-. exact Hq. }
  assert (Hstill : Mem.drive_available cfg w1 = false).
  { unfold Mem.drive_available in *. rewrite Hv. exact Hnot. }
  rewrite Hb, Hstill.
  destruct (MountFailure.queries_no_request ta Hqa) as [Hra Hta].
  destruct (MountFailure.queries_no_request tb Hqb) as [Hrb Htb].
  eexists _, _, r. split; [reflexivity |].
  split; [unfold outcome_of; find_final; reflexivity |].
  rewrite !filter_app, !existsb_app. cbn [filter is_mount_request existsb is_mount_error
                                           touches_remote orb app].
  rewrite !filter_app, !existsb_app. cbn [filter is_mount_request existsb is_mount_error
                                           touches_remote orb app].
  rewrite Hra, Hrb, Hreq, Herr, Hta, Htb.
  split; [reflexivity |]. split; [rewrite ?orb_true_r; reflexivity |].
  rewrite (volume_events_off_remote _ Hvol).
  split; [reflexivity |]. cbn [snd]. split; [exact Hv |].
  destruct Hf as (H1 & H2 & H3 & H4 & H5). repeat split; assumption.
Qed.

(** ** The mount coordinator and its caller, on the reference platform *)

Module Coordinator.
Import Mem MemFacts Mounting MountFailure.

Lemma first_match {A : Type} (p : A -> bool) (l : list A) (d : A) :
  existsb p l = true ->
  exists k,
    k < length l /\ (forall i, i < k -> p (nth i l d) = false) /\ p (nth k l d) = true.
Proof.
  induction l as [| x l IH]; [discriminate |]. cbn [existsb]. intros H.
  destruct (p x) eqn:Hx.
  - exists 0. cbn. repeat split; [lia | intros i Hi; lia | exact Hx].
  - cbn [orb] in H. destruct (IH H) as (k & Hk & Hbefore & Hat).
    exists (S k). cbn [length nth]. repeat split; [lia | | exact Hat].
    intros [| i] Hi; [exact Hx | apply Hbefore; lia].
Qed.

Lemma none_matches cfg w :
  some_volume_matches cfg w = false ->
  forall u, In u (seq 0 (length (volumes w))) ->
            volume_matches cfg (nth u (volumes w) no_volume) = false.
Proof.
  intros Hnone u Hu. apply in_seq in Hu.
  apply (existsb_none _ _ Hnone). apply nth_In. lia.
Qed.

(** Volumes without an identifier of the drive are listed and passed
    over. *)
Lemma mount_volumes_pass cfg w vs :
  (forall u, In u vs -> volume_matches cfg (nth u (volumes w) no_volume) = false) ->
  exists t, run gio (mount_volumes cfg vs) w = (Returned false, w, t).
Proof.
  induction vs as [| u vs IH]; intros Hnone.
  - exists []. reflexivity.
  - destruct IH as (t & IH); [intros u' Hu'; apply Hnone; right; exact Hu' |].
    cbn [mount_volumes]. mem_step. rewrite run_bind.
    destruct (mount_identifiers_skip cfg w u
                (map fst (vol_identifiers (nth u (volumes w) no_volume))))
      as (t0 & -> & _).
    { apply existsb_none. exact (Hnone u (or_introl eq_refl)). }
    rewrite IH. eexists. reflexivity.
Qed.

Lemma no_availability_query t :
  forallb (fun e => negb (is_availability_query e)) t = true ->
  existsb is_availability_query t = false.
Proof.
  apply forallb_excludes. intros e He. destruct (is_availability_query e); [discriminate | reflexivity].
Qed.

(** The mount attempt: what it returns, and what it asks of the volumes. *)
Lemma mount_google_drive_on cfg w :
  exists w1 t,
    run gio (mount_google_drive cfg) w = (Returned tt, w1, t)
    /\ existsb is_availability_query t = false
    /\ (some_volume_matches cfg w = false ->
        w1 = with_log w (log_file w
                         ++ [(INFO, "Attempting to mount Google Drive...");
                             (WARNING, "No Google Drive volume found to mount.")])
        /\ existsb is_mount_request t = false
        /\ existsb is_loop_run t = false)
    /\ (some_volume_matches cfg w = true ->
        exists v r, filter is_mount_request t = [E_volume_mount v r]).
Proof.
  destruct (mount_google_drive_run gio cfg w) as (w1 & t & Hrun & _ & Hq).
  exists w1, t. split; [exact Hrun |]. split; [exact (no_availability_query t Hq) |].
  revert Hrun. unfold mount_google_drive. mem_step. rewrite run_bind.
  set (w0 := with_log w (log_file w ++ [(INFO, "Attempting to mount Google Drive...")])).
  intros Hrun. split.
  - intros Hnone.
    destruct (mount_volumes_pass cfg w0 (seq 0 (length (volumes w0)))
                (none_matches cfg w Hnone)) as (ts & Hpass).
    destruct (mount_volumes_run gio cfg (seq 0 (length (volumes w0))) w0)
      as (b & w' & t' & Hrun' & _ & _ & Hfalse & _).
    rewrite Hpass in Hrun'. injection Hrun' as <- _ <-.
    destruct (Hfalse eq_refl) as (Hs & _).
    rewrite Hpass in Hrun. revert Hrun. mem_step. intros Hrun.
    injection Hrun as <- <-. split.
    + unfold w0, with_log. cbn [volumes remote_files remote_dirs unreadable local_top
                                local_tree pending log_file].
      rewrite <- app_assoc. reflexivity.
    + cbn [existsb is_mount_request is_loop_run orb]. rewrite !existsb_app.
      cbn [existsb is_mount_request is_loop_run orb].
      rewrite (forallb_excludes (is_scan_step cfg) is_mount_request),
        (forallb_excludes (is_scan_step cfg) is_loop_run); auto;
        intros []; simpl; congruence.
  - intros Hsome.
    destruct (first_match (volume_matches cfg) (volumes w) no_volume Hsome)
      as (k & Hk & Hbefore & Hat).
    assert (Hseq : seq 0 (length (volumes w0))
                   = seq 0 k ++ k :: seq (S k) (length (volumes w) - S k)).
    { change (volumes w0) with (volumes w).
      replace (length (volumes w)) with (k + S (length (volumes w) - S k)) at 1 by lia.
      rewrite seq_app. reflexivity. }
    rewrite Hseq in Hrun.
    assert (Hskip : forall u, In u (seq 0 k) ->
                      volume_matches cfg (nth u (volumes w0) no_volume) = false).
    { intros u Hu. apply in_seq in Hu. apply Hbefore. lia. }
    destruct (vol_on_mount (nth k (volumes w) no_volume)) eqn:Hbehaves.
    1: destruct (mount_volumes_hit cfg w0 (seq 0 k) k
                   (seq (S k) (length (volumes w) - S k)) Hskip Hat Hbehaves)
         as (w2 & tv & Hv & _ & _ & Hreq).
    2-4: destruct (mount_volumes_fails cfg w0 (seq 0 k) k
                     (seq (S k) (length (volumes w) - S k)) Hskip Hat)
           as (w2 & tv & r & Hv & _ & _ & Hreq & _);
         [change (volumes w0) with (volumes w); rewrite Hbehaves; discriminate |].
    all: rewrite Hv in Hrun; cbn [run] in Hrun; injection Hrun as _ <-;
      eexists _, _; cbn [filter is_mount_request]; rewrite filter_app, Hreq; reflexivity.
Qed.

Lemma final_app (pre t : trace) : t <> [] -> final (pre ++ t) = final t.
Proof.
  intros Ht. induction pre as [| e pre IH]; [reflexivity |].
  cbn [app]. destruct (pre ++ t) eqn:Hrest.
  - destruct pre; [cbn in Hrest; contradiction | discriminate].
  - rewrite <- IH. reflexivity.
Qed.

Lemma outcome_after_query pre t :
  forallb is_availability_query t = true -> t <> [] -> outcome_of (pre ++ t) = None.
Proof.
  intros Hq Ht. unfold outcome_of. rewrite (final_app pre t Ht).
  assert (H : exists e, final t = Some e /\ is_availability_query e = true).
  { induction t as [| e t IH]; [contradiction |].
    cbn [forallb] in Hq. apply andb_prop in Hq. destruct Hq as [He Hq].
    destruct t as [| e' t']; [exists e; auto |].
    destruct (IH Hq) as (e0 & H0 & H1); [discriminate |]. exists e0. auto. }
  destruct H as (e & -> & He). destruct e; try discriminate He; reflexivity.
Qed.

Lemma transfer_not_skipped_no_drive file_path drive_file_path t o :
  transfer_trace file_path drive_file_path t o -> o <> skipped_no_drive.
Proof. intros []; discriminate. Qed.

Lemma body_not_skipped_no_drive file_path drive_file_path t o :
  body_trace file_path drive_file_path t o -> o <> skipped_no_drive.
Proof.
  intros [t' o' Ht | t' o' Ht | u uri t' o' Ht | e uri];
    try exact (transfer_not_skipped_no_drive _ _ _ _ Ht); discriminate.
Qed.

End Coordinator.

(** C7, as the code has it (lines 66-105, with the callers' lines 143-148).
    Called when the drive is not available, as [sync_file] calls it,
    [mount_google_drive] returns [None] on every path and asks nothing
    about the mounts: whether the drive is available after the attempt is
    what the [is_drive_available()] of its caller finds out next, and
    [sync_file] goes on exactly when that answer is [True] (it skips with
    the warning otherwise).  When none of the volumes that the monitor
    lists has an identifier of the drive, the attempt returns at once,
    without a mount request and without running the main loop, having
    written its two log records and changed nothing else, so that the check
    after it answers [False]; when one has, exactly one mount is
    requested. *)
Theorem mount_google_drive_leaves_check_to_caller
        (cfg : config) (cwd file_path : string) (w : Mem.world) :
  Mem.drive_available cfg w = false ->
  let w0 := snd (Mem.gio _ (log INFO "Google Drive not found. Attempting to mount...") w) in
  exists w1 t,
    run Mem.gio (mount_google_drive cfg) w0 = (Returned tt, w1, t)
    /\ existsb is_availability_query t = false
    /\ (exists ta,
          run Mem.gio (is_drive_available cfg) w1
          = (Returned (Mem.drive_available cfg w1), w1, ta))
    /\ (exists c w2 t2,
          run Mem.gio (sync_file cfg cwd file_path) w = (c, w2, t2)
          /\ (outcome_of t2 = Some skipped_no_drive <-> Mem.drive_available cfg w1 = false))
    /\ (some_volume_matches cfg w = false ->
        w1 = Mem.with_log w0 (Mem.log_file w0
                              ++ [(INFO, "Attempting to mount Google Drive...");
                                  (WARNING, "No Google Drive volume found to mount.")])
        /\ existsb is_mount_request t = false
        /\ existsb is_loop_run t = false
        /\ Mem.drive_available cfg w1 = false)
    /\ (some_volume_matches cfg w = true ->
        exists v r, filter is_mount_request t = [E_volume_mount v r]).
Proof.
  intros Hnot w0.
  destruct (Coordinator.mount_google_drive_on cfg w0) as (w1 & t & Hmount & Hq & Hnone & Hsome).
  destruct (mount_google_drive_run Mem.gio cfg w0) as (w1' & t' & Hmount' & Hvol & _).
  rewrite Hmount in Hmount'. injection Hmount' as <- <-.
  exists w1, t. split; [exact Hmount |]. split; [exact Hq |].
  split; [exact (MemFacts.is_drive_available_on cfg w1) |].
  split; [| split].
  - rewrite sync_file_run. unfold availability_check. rewrite run_bind.
    destruct (MemFacts.is_drive_available_on cfg w) as [ta Ha].
    destruct (is_drive_available_run Mem.gio cfg w) as (wa & ta' & Ha' & Hqa).
    rewrite Ha in Ha'. injection Ha' as _ _ <-.
    rewrite Ha, Hnot. cbn [negb]. MemFacts.mem_step. rewrite run_bind.
    change (Mem.with_log w (Mem.log_file w
              ++ [(INFO, "Google Drive not found. Attempting to mount...")])) with w0.
    rewrite Hmount. cbn [run].
    destruct (MemFacts.is_drive_available_on cfg w1) as [tb Hb].
    destruct (is_drive_available_run Mem.gio cfg w1) as (wb & tb' & Hb' & Hqb).
    rewrite Hb in Hb'. injection Hb' as Hsees _ <-.
    rewrite Hb.
    destruct (Mem.drive_available cfg w1) eqn:Hthere.
    + assert (Hpre : forallb is_volume_event
                       (ta ++ E_log INFO "Google Drive not found. Attempting to mount..."
                           :: t ++ tb) = true).
      { rewrite forallb_app. cbn [forallb is_volume_event andb]. rewrite forallb_app.
        rewrite (availability_queries_are_volume_events _ Hqa), Hvol,
          (availability_queries_are_volume_events _ Hqb). reflexivity. }
      destruct (posixpath.relpath cwd file_path (LOCAL_FOLDER cfg)) as [rel | e] eqn:Hrel.
      * destruct (sync_file_body_run Mem.gio cfg cwd file_path rel w1 Hrel)
          as (w3 & t3 & o & -> & Hbody).
        eexists _, _, _. split; [reflexivity |]. split; [| discriminate].
        rewrite (body_trace_outcome _ _ _ _ _ Hbody (volume_events_no_delete _ Hpre)).
        intros Hout. injection Hout as ->.
        exfalso. exact (Coordinator.body_not_skipped_no_drive _ _ _ _ Hbody eq_refl).
      * unfold sync_file_body. rewrite Hrel. cbn [run].
        eexists _, _, _. split; [reflexivity |]. split; [| discriminate].
        rewrite app_nil_r.
        change (ta ++ E_log INFO "Google Drive not found. Attempting to mount..." :: t ++ tb)
          with (ta ++ (E_log INFO "Google Drive not found. Attempting to mount..." :: t) ++ tb).
        rewrite app_assoc, (Coordinator.outcome_after_query _ tb Hqb); [discriminate |].
        intros ->. discriminate Hsees.
    + eexists _, _, _. split; [reflexivity |]. split; [reflexivity |].
      intros _. unfold outcome_of. find_final. reflexivity.
  - intros Hno. destruct (Hnone Hno) as (-> & Hreq & Hloop).
    repeat split; [exact Hreq | exact Hloop | exact Hnot].
  - exact Hsome.
Qed.

(** C7, the wording of the specification against the code.
    [mount_google_drive] returns the same [None] when the drive is
    available after the attempt (the volume mounts) and when it is not
    ([mount_finish] returns [False]), and has asked nothing about the
    mounts in either case: no boolean tells the two apart.  And with the
    volume of the drive mounted already, so that no known-but-unmounted
    volume matches, it requests the mount all the same and waits in the
    main loop. *)
Lemma mount_google_drive_returns_no_boolean :
  (let r := run Mem.gio (mount_google_drive example_config)
                (Samples.unmounted Mem.mounts_fine) in
   fst (fst r) = Returned tt
   /\ Mem.drive_available example_config (snd (fst r)) = true
   /\ existsb is_availability_query (snd r) = false)
  /\ (let r := run Mem.gio (mount_google_drive example_config)
                   (Samples.unmounted Mem.finish_false) in
      fst (fst r) = Returned tt
      /\ Mem.drive_available example_config (snd (fst r)) = false
      /\ existsb is_availability_query (snd r) = false)
  /\ (let r := run Mem.gio (mount_google_drive example_config) Samples.fresh in
      no_unmounted_volume_matches example_config Samples.fresh = true
      /\ fst (fst r) = Returned tt
      /\ existsb is_mount_request (snd r) = true
      /\ existsb is_loop_run (snd r) = true).
Proof. vm_compute. repeat split. Qed.

(** ** The theorems at work *)

Lemma triple_eta {A B C : Type} (x : A * B * C) : x = (fst (fst x), snd (fst x), snd x).
Proof. destruct x as [[a b] c]. reflexivity. Qed.

Ltac in_now := vm_compute; repeat (first [left; reflexivity | right]).

Lemma remote_target_of_sync_witness :
  let r := run Mem.gio (sync_file example_config "/" Samples.b_txt) Samples.fresh in
  let e := E_file_copy (new_for_path Samples.b_txt)
                       (new_for_uri "google-drive://u@example/sync/docs/a/b.txt") (Ok tt) in
  In e (snd r)
  /\ exists rel_path,
       posixpath.relpath "/" Samples.b_txt (LOCAL_FOLDER example_config) = Ok rel_path
       /\ new_for_uri "google-drive://u@example/sync/docs/a/b.txt"
          = new_for_uri (spec_remote_target example_config rel_path).
Proof.
  intros r e.
  assert (Hin : In e (snd r)) by in_now.
  split; [exact Hin |].
  destruct (remote_target_of_sync Mem.gio example_config "/" Samples.b_txt Samples.fresh
              _ _ _ (triple_eta r)) as [Hall _].
  destruct (Hall e _ Hin eq_refl) as (rel & Hrel & _ & Hsync & Hplain).
  exists rel. split; [exact Hrel |]. rewrite (Hsync eq_refl).
  rewrite (Hplain eq_refl eq_refl eq_refl). reflexivity.
Defined.

Lemma equal_digests_skip_witness :
  let r := run Mem.gio (sync_file example_config "/" Samples.b_txt) Samples.in_sync in
  let dest_file := new_for_uri "google-drive://u@example/sync/docs/a/b.txt" in
  (In (E_query_exists dest_file true) (snd r)
   /\ In (E_file_read dest_file (Ok (Mem.stream_of Samples.hello))) (snd r)
   /\ In (E_open_rb Samples.b_txt (Ok (Mem.stream_of Samples.hello))) (snd r)
   /\ remote_digest (Ok (Mem.stream_of Samples.hello))
      = Ok (hashlib.hexdigest Samples.hello)
   /\ local_digest (Ok (Mem.stream_of Samples.hello))
      = Ok (hashlib.hexdigest Samples.hello))
  /\ fst (fst r) = Returned tt
  /\ outcome_of (snd r) = Some skipped_no_change
  /\ existsb is_delete (snd r) = false
  /\ existsb is_copy (snd r) = false.
Proof.
  intros r dest_file.
  assert (H1 : In (E_query_exists dest_file true) (snd r)) by in_now.
  assert (H2 : In (E_file_read dest_file (Ok (Mem.stream_of Samples.hello))) (snd r))
    by in_now.
  assert (H3 : In (E_open_rb Samples.b_txt (Ok (Mem.stream_of Samples.hello))) (snd r))
    by in_now.
  assert (H4 : remote_digest (Ok (Mem.stream_of Samples.hello))
               = Ok (hashlib.hexdigest Samples.hello)) by (vm_compute; reflexivity).
  assert (H5 : local_digest (Ok (Mem.stream_of Samples.hello))
               = Ok (hashlib.hexdigest Samples.hello)) by (vm_compute; reflexivity).
  refine (conj (conj H1 (conj H2 (conj H3 (conj H4 H5)))) _).
  exact (equal_digests_skip Mem.gio example_config "/" Samples.b_txt Samples.in_sync
           _ _ _ dest_file Samples.b_txt _ _ _ (triple_eta r) H1 H2 H3 H4 H5).
Defined.

Lemma unavailable_drive_skips_witness :
  let w := Samples.unmounted Mem.finish_false in
  let r1 := run Mem.gio (is_drive_available example_config) w in
  let r2 := run Mem.gio (mount_google_drive example_config ;; is_drive_available example_config)
                (snd (Mem.gio _ (log INFO "Google Drive not found. Attempting to mount...")
                              (snd (fst r1)))) in
  (fst (fst r1) = Returned false /\ fst (fst r2) = Returned false)
  /\ fst (fst (run Mem.gio (sync_file example_config "/" Samples.b_txt) w)) = Returned tt
  /\ outcome_of (snd (run Mem.gio (sync_file example_config "/" Samples.b_txt) w))
     = Some skipped_no_drive
  /\ existsb touches_remote (snd (run Mem.gio (sync_file example_config "/" Samples.b_txt) w))
     = false.
Proof.
  intros w r1 r2.
  assert (H1 : r1 = (Returned false, snd (fst r1), snd r1)) by (vm_compute; reflexivity).
  assert (H2 : r2 = (Returned false, snd (fst r2), snd r2)) by (vm_compute; reflexivity).
  split; [split; [rewrite H1 | rewrite H2]; reflexivity |].
  destruct (unavailable_drive_skips Mem.gio example_config "/" Samples.b_txt
              w _ _ _ _ H1 H2) as (Hrun & Hout & Hoff & _).
  rewrite Hrun. cbn [fst snd]. auto.
Defined.

Lemma digest_failure_never_skips_witness :
  let r := run Mem.gio (sync_file example_config "/" Samples.b_txt) Samples.unreadable_copy in
  let dest_file := new_for_uri "google-drive://u@example/sync/docs/a/b.txt" in
  (In (E_file_read dest_file (Raise "Operation not supported")) (snd r)
   /\ remote_digest (Raise "Operation not supported") = Raise "Operation not supported")
  /\ fst (fst r) = Returned tt
  /\ outcome_of (snd r) <> Some skipped_no_change
  /\ existsb is_delete (snd r) = true.
Proof.
  intros r dest_file.
  assert (H1 : In (E_file_read dest_file (Raise "Operation not supported")) (snd r))
    by in_now.
  refine (conj (conj H1 eq_refl) _).
  destruct (digest_failure_never_skips Mem.gio example_config "/" Samples.b_txt
              Samples.unreadable_copy (fst (fst r)) (snd (fst r)) (snd r)
              dest_file Samples.b_txt
              (Raise "Operation not supported") "Operation not supported")
    as (_ & _ & Hsync).
  exact (Hsync (triple_eta r) (or_introl (conj H1 eq_refl))).
Defined.

Lemma sync_file_outcome_witness :
  Samples.b_txt <> ""
  /\ exists w1 t,
       run Mem.gio (sync_file example_config "/" Samples.b_txt) Samples.fresh
       = (Returned tt, w1, t)
       /\ outcome_of t = Some created.
Proof.
  assert (Hpath : Samples.b_txt <> "") by discriminate.
  split; [exact Hpath |].
  destruct (sync_file_outcome Mem.gio example_config "/" Samples.b_txt Samples.fresh Hpath)
    as (rel & w1 & t & o & Hrel & Hrun & Hout & Hq & Hcreated & _).
  exists w1, t. split; [exact Hrun |]. rewrite Hout. f_equal.
  assert (Ht : t = snd (run Mem.gio (sync_file example_config "/" Samples.b_txt)
                            Samples.fresh)) by (rewrite Hrun; reflexivity).
  vm_compute in Hrel. injection Hrel as <-.
  apply Hcreated; rewrite Ht; [vm_compute; reflexivity | in_now].
Defined.

Lemma second_sync_skips_witness :
  let r1 := run Mem.gio (sync_file example_config "/" Samples.b_txt) Samples.fresh in
  outcome_of (snd r1) = Some created
  /\ exists w2 t2,
       run Mem.gio (sync_file example_config "/" Samples.b_txt) (snd (fst r1))
       = (Returned tt, w2, t2)
       /\ outcome_of t2 = Some skipped_no_change
       /\ existsb is_delete t2 = false
       /\ existsb is_copy t2 = false
       /\ Mem.same_files (snd (fst r1)) w2.
Proof.
  intros r1.
  assert (H1 : outcome_of (snd r1) = Some created) by (vm_compute; reflexivity).
  refine (conj H1 _).
  destruct (second_sync_skips example_config "/" Samples.b_txt Samples.fresh
              _ _ _ (triple_eta r1) (or_introl H1) (fun _ _ => eq_refl))
    as (rel & w2 & t2 & _ & _ & Hrun & Hout & Hdel & Hcopy & Hsame).
  exists w2, t2. exact (conj Hrun (conj Hout (conj Hdel (conj Hcopy Hsame)))).
Defined.

Lemma sync_all_files_checks_up_front_witness :
  let r := run Mem.gio (availability_check example_config)
               (snd (Mem.gio _ (log INFO "Performing initial sync of all files...")
                             Samples.no_drive)) in
  fst (fst r) = Returned false
  /\ exists w1 t,
       run Mem.gio (sync_all_files example_config "/") Samples.no_drive = (Returned tt, w1, t)
       /\ existsb is_os_walk t = false
       /\ existsb touches_remote t = false.
Proof.
  intros r.
  assert (H : r = (Returned false, snd (fst r), snd r)) by (vm_compute; reflexivity).
  refine (conj _ _); [rewrite H; reflexivity |].
  destruct (sync_all_files_checks_up_front Mem.gio example_config "/" Samples.no_drive
              false _ _ H) as (_ & _ & Hfalse & _).
  destruct (Hfalse eq_refl) as (Hrun & Hwalk & Hoff & _).
  eexists _, _. exact (conj Hrun (conj Hwalk Hoff)).
Defined.

Lemma sync_all_files_syncs_each_file_once_witness :
  well_formed Samples.docs
  /\ exists targets w t,
       run Mem.gio (sync_all_files example_config "/") Samples.fresh = (Returned tt, w, t)
       /\ count_occ string_dec targets Samples.b_txt = 1
       /\ ~ In "/home/u/docs/a" targets.
Proof.
  assert (Hwf : well_formed Samples.docs).
  { cbn. repeat split; repeat constructor; intros []. }
  refine (conj Hwf _).
  pose (r := run Mem.gio (availability_check example_config)
                 (snd (Mem.gio _ (log INFO "Performing initial sync of all files...")
                               Samples.fresh))).
  assert (Hcheck : r = (Returned true, snd (fst r), snd r)) by (vm_compute; reflexivity).
  assert (Hwalk : fst (Mem.gio _ (os_walk (LOCAL_FOLDER example_config)) (snd (fst r)))
                  = walk_tree (LOCAL_FOLDER example_config) Samples.docs)
    by (vm_compute; reflexivity).
  destruct (sync_all_files_syncs_each_file_once Mem.gio example_config "/" Samples.docs
              Samples.fresh _ _ Hwf Hcheck Hwalk)
    as (targets & t2 & w3 & w4 & _ & Hrun & Honce & _ & Hdirs).
  exists targets. eexists _, _. refine (conj Hrun (conj _ _)).
  - apply (Honce Samples.b_txt Samples.hello). vm_compute. left. reflexivity.
  - apply Hdirs. vm_compute. right. left. reflexivity.
Defined.

Lemma hashers_agree_on_equal_content_witness :
  let remote_chunks := [Samples.hello] in
  let local_chunks := [list_byte_of_string "hel"; list_byte_of_string "lo"] in
  concat remote_chunks = concat local_chunks
  /\ hashes_agree (Ok (stream_over remote_chunks)) (Ok (stream_over local_chunks)) = true.
Proof.
  intros remote_chunks local_chunks.
  assert (H1 : Forall (fun chunk : bytes => chunk <> []) remote_chunks)
    by (repeat constructor; discriminate).
  assert (H2 : Forall (fun chunk : bytes => chunk <> []) local_chunks)
    by (repeat constructor; discriminate).
  assert (H3 : concat remote_chunks = concat local_chunks) by reflexivity.
  exact (conj H3 (proj2 (proj2 (hashers_agree_on_equal_content _ _ H1 H2 H3)))).
Defined.

Lemma sync_file_deletes_after_comparison_witness :
  let r := run Mem.gio (sync_file example_config "/" Samples.b_txt) Samples.stale in
  let dest_file := new_for_uri "google-drive://u@example/sync/docs/a/b.txt" in
  In (E_file_delete dest_file (Ok tt)) (snd r)
  /\ exists before after,
       snd r = before ++ E_file_delete dest_file (Ok tt) :: after
       /\ In (E_query_exists dest_file true) before
       /\ existsb is_copy before = false
       /\ existsb is_delete after = false.
Proof.
  intros r dest_file.
  assert (Hin : In (E_file_delete dest_file (Ok tt)) (snd r)) by in_now.
  refine (conj Hin _).
  destruct (sync_file_deletes_after_comparison Mem.gio example_config "/" Samples.b_txt
              Samples.stale _ _ _ _ _ (triple_eta r) Hin)
    as (rel & before & after & ro & lo & _ & _ & Ht & Hq & _ & _ & _ & _ & Hcopy & Hafter).
  exists before, after. exact (conj Ht (conj Hq (conj Hcopy Hafter))).
Defined.

Lemma sync_file_copies_once_into_target_witness :
  let r := run Mem.gio (sync_file example_config "/" Samples.b_txt) Samples.fresh in
  let dest_file := new_for_uri "google-drive://u@example/sync/docs/a/b.txt" in
  In (E_file_copy (new_for_path Samples.b_txt) dest_file (Ok tt)) (snd r)
  /\ exists before record,
       snd r = before ++ [E_file_copy (new_for_path Samples.b_txt) dest_file (Ok tt); record]
       /\ existsb is_copy before = false.
Proof.
  intros r dest_file.
  assert (Hin : In (E_file_copy (new_for_path Samples.b_txt) dest_file (Ok tt)) (snd r))
    by in_now.
  refine (conj Hin _).
  destruct (sync_file_copies_once_into_target Mem.gio example_config "/" Samples.b_txt
              Samples.fresh _ _ _ _ _ _ (triple_eta r) Hin)
    as (rel & before & _ & _ & _ & Ht & Hcopy & _).
  exists before. eexists. exact (conj Ht Hcopy).
Defined.

Lemma sync_file_creates_parent_before_transfer_witness :
  let r := run Mem.gio (sync_file example_config "/" Samples.b_txt) Samples.fresh in
  let parent_dir := parent_of (new_for_uri "google-drive://u@example/sync/docs/a/b.txt") in
  In (E_make_directory_with_parents parent_dir (Ok tt)) (snd r)
  /\ exists pre rest,
       snd r = pre ++ rest
       /\ forallb is_volume_event pre = true
       /\ existsb is_make_directory pre = false.
Proof.
  intros r parent_dir.
  assert (Hin : In (E_make_directory_with_parents parent_dir (Ok tt)) (snd r)) by in_now.
  refine (conj Hin _).
  destruct (sync_file_creates_parent_before_transfer Mem.gio example_config "/" Samples.b_txt
              Samples.fresh _ _ _ _ _ (triple_eta r) Hin)
    as (rel & pre & uri & after & _ & _ & Ht & Hpre & _).
  exists pre. eexists. refine (conj Ht (conj Hpre _)).
  clear - Hpre. induction pre as [| e pre IH]; [reflexivity |].
  cbn [forallb] in Hpre. apply andb_prop in Hpre. destruct Hpre as [He Hpre].
  cbn [existsb]. rewrite (IH Hpre). destruct e; try discriminate He; reflexivity.
Defined.

Lemma different_relative_paths_different_targets_witness :
  posixpath.relpath "/" Samples.b_txt (LOCAL_FOLDER example_config) = Ok "a/b.txt"
  /\ posixpath.relpath "/" "/home/u/docs/c.txt" (LOCAL_FOLDER example_config) = Ok "c.txt"
  /\ drive_file_path_of example_config "a/b.txt" <> drive_file_path_of example_config "c.txt".
Proof.
  assert (H1 : posixpath.relpath "/" Samples.b_txt (LOCAL_FOLDER example_config)
               = Ok "a/b.txt") by (vm_compute; reflexivity).
  assert (H2 : posixpath.relpath "/" "/home/u/docs/c.txt" (LOCAL_FOLDER example_config)
               = Ok "c.txt") by (vm_compute; reflexivity).
  assert (H3 : "a/b.txt" <> "c.txt") by discriminate.
  exact (conj H1 (conj H2 (different_relative_paths_different_targets
                             example_config "/" _ _ _ _ H1 H2 H3))).
Defined.

Lemma on_moved_syncs_destination_witness :
  exists w1 t,
    run Mem.gio (SyncHandler.on_moved example_config "/" Samples.saved) Samples.fresh
    = (Returned tt, w1, t)
    /\ forall e f, In e t -> remote_file_of e = Some f ->
         f = new_for_uri "google-drive://u@example/sync/docs/a/b.txt"
         \/ f = parent_of (new_for_uri "google-drive://u@example/sync/docs/a/b.txt").
Proof.
  assert (Hpath : dest_path Samples.saved <> "") by discriminate.
  destruct (on_moved_syncs_destination Mem.gio example_config "/" Samples.saved Samples.fresh)
    as [_ Hfile].
  destruct (Hfile eq_refl Hpath) as (rel & w1 & t & o & Hrel & Hrun & _ & Hon).
  exists w1, t. refine (conj Hrun _).
  assert (Hrel' : posixpath.relpath "/" (dest_path Samples.saved) (LOCAL_FOLDER example_config)
                  = Ok "a/b.txt") by (vm_compute; reflexivity).
  rewrite Hrel' in Hrel. injection Hrel as <-. exact Hon.
Defined.

Lemma sync_file_leaves_other_files_witness :
  let r := run Mem.gio (sync_file example_config "/" Samples.b_txt) Samples.stale_beside in
  let target := "google-drive://u@example/sync/docs/a/b.txt" in
  let other := "google-drive://u@example/sync/docs/a/c.txt" in
  (outcome_of (snd r) = Some replaced
   /\ Mem.lookup target (Mem.remote_files Samples.stale_beside) = Some Samples.hello_again
   /\ Mem.lookup target (Mem.remote_files (snd (fst r))) = Some Samples.hello
   /\ Mem.lookup other (Mem.remote_files Samples.stale_beside) = Some Samples.hello)
  /\ Mem.lookup other (Mem.remote_files (snd (fst r))) = Some Samples.hello.
Proof.
  intros r target other.
  assert (Hrel : posixpath.relpath "/" Samples.b_txt (LOCAL_FOLDER example_config)
                 = Ok "a/b.txt") by (vm_compute; reflexivity).
  assert (Hother : other <> drive_file_path_of example_config "a/b.txt")
    by (vm_compute; discriminate).
  assert (Hreplaced : outcome_of (snd r) = Some replaced) by (vm_compute; reflexivity).
  assert (Hold : Mem.lookup target (Mem.remote_files Samples.stale_beside)
                 = Some Samples.hello_again) by (vm_compute; reflexivity).
  assert (Hnew : Mem.lookup target (Mem.remote_files (snd (fst r))) = Some Samples.hello)
    by (vm_compute; reflexivity).
  assert (Hthere : Mem.lookup other (Mem.remote_files Samples.stale_beside)
                   = Some Samples.hello) by (vm_compute; reflexivity).
  refine (conj (conj Hreplaced (conj Hold (conj Hnew Hthere))) _).
  rewrite <- Hthere.
  exact (sync_file_leaves_other_files example_config "/" Samples.b_txt "a/b.txt"
           Samples.stale_beside _ _ _ other (triple_eta r) Hrel Hother).
Defined.

Lemma mount_if_needed_mounts_known_volume_witness :
  let w := Samples.unmounted Mem.mounts_fine in
  Mem.drive_available example_config w = false
  /\ exists w1 t,
       run Mem.gio (mount_google_drive example_config ;; is_drive_available example_config) w = (Returned true, w1, t)
       /\ Mem.drive_available example_config w1 = true
       /\ filter is_mount_request t = [E_volume_mount 1 (Ok tt)].
Proof.
  intros w.
  assert (H0 : Mem.drive_available example_config w = false) by (vm_compute; reflexivity).
  assert (H1 : 1 < length (Mem.volumes w)) by (vm_compute; lia).
  assert (H2 : forall i, i < 1 ->
                 volume_matches example_config (nth i (Mem.volumes w) Mem.no_volume) = false).
  { intros i Hi. assert (i = 0) as -> by lia. vm_compute. reflexivity. }
  assert (H3 : volume_matches example_config (nth 1 (Mem.volumes w) Mem.no_volume) = true)
    by (vm_compute; reflexivity).
  assert (H4 : Mem.vol_on_mount (nth 1 (Mem.volumes w) Mem.no_volume) = Mem.mounts_fine)
    by reflexivity.
  assert (H5 : is_google_drive_uri example_config
                 (Mem.vol_root_uri (nth 1 (Mem.volumes w) Mem.no_volume)) = true)
    by (vm_compute; reflexivity).
  refine (conj H0 _).
  destruct (mount_if_needed_mounts_known_volume example_config w 1 H1 H2 H3 H4 H5)
    as (w1 & t & Hrun & _ & Hthere & Hreq & _).
  exists w1, t. exact (conj Hrun (conj Hthere Hreq)).
Defined.

Lemma load_config_returns_complete_witness :
  run Mem.gio (load_config Samples.home_env Samples.complete_file) Samples.fresh
  = (Returned ("/home/u/docs", "sync/docs", PyStr "u@example"), Samples.fresh, [])
  /\ "/home/u/docs" <> "" /\ "sync/docs" <> "".
Proof.
  assert (Hrun : run Mem.gio (load_config Samples.home_env Samples.complete_file)
                     Samples.fresh
                 = (Returned ("/home/u/docs", "sync/docs", PyStr "u@example"),
                    Samples.fresh, [])) by (vm_compute; reflexivity).
  destruct (load_config_returns_complete Mem.gio Samples.home_env Samples.complete_file
              _ _ _ _ _ _ Hrun) as (Hl & Hd & _).
  exact (conj Hrun (conj Hl Hd)).
Defined.

Lemma load_config_exits_on_incomplete_witness :
  py_truth (dict_get "drive_user" [("source_folder", PyStr "~/docs");
                                   ("destination_folder", PyStr "sync/docs");
                                   ("drive_user", PyStr "")]) = false
  /\ exists msg,
       fst (fst (run Mem.gio (load_config Samples.home_env Samples.incomplete_file)
                     Samples.fresh))
       = Raised (SystemExit "1")
       /\ snd (run Mem.gio (load_config Samples.home_env Samples.incomplete_file)
                   Samples.fresh)
          = [E_log ERROR ("Configuration error: " ++ msg)].
Proof.
  assert (H : py_truth (dict_get "drive_user" [("source_folder", PyStr "~/docs");
                                               ("destination_folder", PyStr "sync/docs");
                                               ("drive_user", PyStr "")]) = false)
    by reflexivity.
  refine (conj H _).
  destruct (load_config_exits_on_incomplete Mem.gio Samples.home_env Samples.incomplete_file
              Samples.fresh) as [msg Hrun].
  - right. eexists _, "drive_user". split; [reflexivity |]. split; [| exact H].
    unfold required_keys. right. right. left. reflexivity.
  - exists msg. rewrite Hrun. split; reflexivity.
Defined.

Lemma sync_file_addresses_components_witness :
  exists w1 t o,
    run Mem.gio (sync_file example_config "/"
                   (fold_left posixpath.join ["a"; "b.txt"] (LOCAL_FOLDER example_config)))
        Samples.fresh
    = (Returned tt, w1, t)
    /\ outcome_of t = Some o
    /\ forall e f, In e t -> remote_file_of e = Some f ->
         f = new_for_uri (remote_base example_config ++ Str.sep_join ["a"; "b.txt"])
         \/ f = parent_of (new_for_uri (remote_base example_config
                                         ++ Str.sep_join ["a"; "b.txt"])).
Proof.
  assert (H1 : posixpath.isabs "/" = true) by reflexivity.
  assert (H2 : ["a"; "b.txt"] <> []) by discriminate.
  assert (H3 : Forall (fun n => proper_name n = true) ["a"; "b.txt"])
    by (repeat constructor).
  destruct (sync_file_addresses_components Mem.gio example_config "/" ["a"; "b.txt"]
              Samples.fresh H1 H2 H3) as (w1 & t & o & Hrun & Hout & Hon & _).
  exists w1, t, o. exact (conj Hrun (conj Hout Hon)).
Defined.

Lemma files_of_the_tree_have_different_targets_witness :
  proper_names Samples.two_files
  /\ exists rel1 rel2,
       posixpath.relpath "/" "/home/u/docs/a/b.txt" (LOCAL_FOLDER example_config) = Ok rel1
       /\ posixpath.relpath "/" "/home/u/docs/c.txt" (LOCAL_FOLDER example_config) = Ok rel2
       /\ drive_file_path_of example_config rel1 <> drive_file_path_of example_config rel2.
Proof.
  assert (H1 : posixpath.isabs "/" = true) by reflexivity.
  assert (H2 : proper_names Samples.two_files).
  { cbn. repeat split; repeat constructor. }
  assert (H3 : In ("/home/u/docs/a/b.txt", Samples.hello)
                  (files_below (LOCAL_FOLDER example_config) Samples.two_files))
    by (vm_compute; left; reflexivity).
  assert (H4 : In ("/home/u/docs/c.txt", Samples.hello_again)
                  (files_below (LOCAL_FOLDER example_config) Samples.two_files))
    by (vm_compute; right; left; reflexivity).
  assert (H5 : "/home/u/docs/a/b.txt" <> "/home/u/docs/c.txt") by discriminate.
  exact (conj H2 (files_of_the_tree_have_different_targets example_config "/"
                    Samples.two_files _ _ _ _ H1 H2 H3 H4 H5)).
Defined.


Lemma sync_file_replaces_changed_file_witness :
  Mem.lookup (drive_file_path_of example_config "a/b.txt") (Mem.remote_files Samples.stale)
  = Some Samples.hello_again
  /\ exists w1 t,
       run Mem.gio (sync_file example_config "/" Samples.b_txt) Samples.stale
       = (Returned tt, w1, t)
       /\ outcome_of t = Some replaced
       /\ Mem.lookup (drive_file_path_of example_config "a/b.txt") (Mem.remote_files w1)
          = Some Samples.hello.
Proof.
  assert (H1 : Mem.drive_available example_config Samples.stale = true)
    by (vm_compute; reflexivity).
  assert (H2 : posixpath.relpath "/" Samples.b_txt (LOCAL_FOLDER example_config)
               = Ok "a/b.txt") by (vm_compute; reflexivity).
  assert (H3 : Mem.local_file Samples.stale Samples.b_txt = Some Samples.hello)
    by (vm_compute; reflexivity).
  assert (H4 : Mem.lookup (drive_file_path_of example_config "a/b.txt")
                          (Mem.remote_files Samples.stale) = Some Samples.hello_again)
    by (vm_compute; reflexivity).
  assert (H5 : Mem.mem (drive_file_path_of example_config "a/b.txt")
                       (Mem.unreadable Samples.stale) = false) by (vm_compute; reflexivity).
  assert (H6 : Mem.mem (drive_file_path_of example_config "a/b.txt")
                       (Mem.remote_dirs Samples.stale) = false) by (vm_compute; reflexivity).
  assert (H7 : Mem.in_directory Samples.stale (drive_file_path_of example_config "a/b.txt")
               = true) by (vm_compute; reflexivity).
  assert (H8 : hashlib.hexdigest Samples.hello_again <> hashlib.hexdigest Samples.hello)
    by (vm_compute; discriminate).
  refine (conj H4 _).
  destruct (sync_file_replaces_changed_file example_config "/" Samples.b_txt "a/b.txt"
              Samples.hello_again Samples.hello Samples.stale H1 H2 H3 H4 H5 H6 H7 H8)
    as (w1 & t & Hrun & Hout & _ & Hl).
  exists w1, t. exact (conj Hrun (conj Hout Hl)).
Defined.


Lemma full_pass_of_synced_tree_changes_nothing_witness :
  exists w1 t,
    run Mem.gio (sync_all_files example_config "/") Samples.in_sync = (Returned tt, w1, t)
    /\ Mem.same_files Samples.in_sync w1
    /\ existsb is_copy t = false.
Proof.
  assert (H1 : Mem.drive_available example_config Samples.in_sync = true)
    by (vm_compute; reflexivity).
  assert (H2 : Mem.local_top Samples.in_sync = LOCAL_FOLDER example_config) by reflexivity.
  assert (H3 : forall path content,
             In (path, content)
                (files_below (LOCAL_FOLDER example_config) (Mem.local_tree Samples.in_sync)) ->
             exists rel_path,
               posixpath.relpath "/" path (LOCAL_FOLDER example_config) = Ok rel_path
               /\ Mem.synced_state Samples.in_sync path
                                   (drive_file_path_of example_config rel_path)
               /\ Mem.mem (drive_file_path_of example_config rel_path)
                          (Mem.unreadable Samples.in_sync) = false).
  { intros path content Hin. vm_compute in Hin.
    destruct Hin as [Hin | []]. injection Hin as <- _.
    exists "a/b.txt". split; [vm_compute; reflexivity |].
    split; [exists Samples.hello; repeat split; vm_compute; reflexivity | reflexivity]. }
  destruct (full_pass_of_synced_tree_changes_nothing example_config "/" Samples.in_sync
              H1 H2 H3) as (w1 & t & Hrun & Hf & _ & Hc).
  exists w1, t. exact (conj Hrun (conj Hf Hc)).
Defined.


Lemma failed_mount_skips_sync_witness :
  let w := Samples.unmounted Mem.finish_false in
  Mem.drive_available example_config w = false
  /\ exists w1 t r,
       run Mem.gio (sync_file example_config "/" Samples.b_txt) w = (Returned tt, w1, t)
       /\ outcome_of t = Some skipped_no_drive
       /\ filter is_mount_request t = [E_volume_mount 1 r]
       /\ existsb touches_remote t = false.
Proof.
  intros w.
  assert (H0 : Mem.drive_available example_config w = false) by (vm_compute; reflexivity).
  assert (H1 : 1 < length (Mem.volumes w)) by (vm_compute; lia).
  assert (H2 : forall i, i < 1 ->
                 volume_matches example_config (nth i (Mem.volumes w) Mem.no_volume) = false).
  { intros i Hi. assert (i = 0) as -> by lia. vm_compute. reflexivity. }
  assert (H3 : volume_matches example_config (nth 1 (Mem.volumes w) Mem.no_volume) = true)
    by (vm_compute; reflexivity).
  assert (H4 : Mem.vol_on_mount (nth 1 (Mem.volumes w) Mem.no_volume) <> Mem.mounts_fine)
    by (cbn; discriminate).
  refine (conj H0 _).
  destruct (failed_mount_skips_sync example_config "/" Samples.b_txt w 1 H0 H1 H2 H3 H4)
    as (w1 & t & r & Hrun & Hout & Hreq & _ & Hoff & _).
  exists w1, t, r. exact (conj Hrun (conj Hout (conj Hreq Hoff))).
Defined.

Lemma mount_google_drive_leaves_check_to_caller_witness :
  (let w := Samples.no_drive in
   (Mem.drive_available example_config w = false
    /\ some_volume_matches example_config w = false)
   /\ exists w1 t c w2 t2,
        run Mem.gio (mount_google_drive example_config)
            (snd (Mem.gio _ (log INFO "Google Drive not found. Attempting to mount...") w))
        = (Returned tt, w1, t)
        /\ existsb is_mount_request t = false
        /\ existsb is_loop_run t = false
        /\ Mem.drive_available example_config w1 = false
        /\ run Mem.gio (sync_file example_config "/" Samples.b_txt) w = (c, w2, t2)
        /\ outcome_of t2 = Some skipped_no_drive)
  /\ (let w := Samples.unmounted Mem.mounts_fine in
      (Mem.drive_available example_config w = false
       /\ some_volume_matches example_config w = true)
      /\ exists w1 t v r c w2 t2,
           run Mem.gio (mount_google_drive example_config)
               (snd (Mem.gio _ (log INFO "Google Drive not found. Attempting to mount...") w))
           = (Returned tt, w1, t)
           /\ filter is_mount_request t = [E_volume_mount v r]
           /\ Mem.drive_available example_config w1 = true
           /\ run Mem.gio (sync_file example_config "/" Samples.b_txt) w = (c, w2, t2)
           /\ outcome_of t2 <> Some skipped_no_drive).
Proof.
  split.
  - intros w.
    assert (H0 : Mem.drive_available example_config w = false) by (vm_compute; reflexivity).
    assert (H1 : some_volume_matches example_config w = false) by (vm_compute; reflexivity).
    refine (conj (conj H0 H1) _).
    destruct (mount_google_drive_leaves_check_to_caller example_config "/" Samples.b_txt w H0)
      as (w1 & t & Hmount & _ & _ & (c & w2 & t2 & Hsync & Hskip) & Hnone & _).
    destruct (Hnone H1) as (_ & Hreq & Hloop & Hstill).
    exists w1, t, c, w2, t2.
    exact (conj Hmount (conj Hreq (conj Hloop (conj Hstill
             (conj Hsync (proj2 Hskip Hstill)))))).
  - intros w.
    assert (H0 : Mem.drive_available example_config w = false) by (vm_compute; reflexivity).
    assert (H1 : some_volume_matches example_config w = true) by (vm_compute; reflexivity).
    refine (conj (conj H0 H1) _).
    destruct (mount_google_drive_leaves_check_to_caller example_config "/" Samples.b_txt w H0)
      as (w1 & t & Hmount & _ & _ & (c & w2 & t2 & Hsync & Hskip) & _ & Hsome).
    destruct (Hsome H1) as (v & r & Hreq).
    assert (Hthere : Mem.drive_available example_config w1 = true).
    { assert (Hw : w1 = snd (fst (run Mem.gio (mount_google_drive example_config)
                (snd (Mem.gio _ (log INFO "Google Drive not found. Attempting to mount...")
                              w))))) by (rewrite Hmount; reflexivity).
      rewrite Hw. vm_compute. reflexivity. }
    exists w1, t, v, r, c, w2, t2.
    refine (conj Hmount (conj Hreq (conj Hthere (conj Hsync _)))).
    intros Hout. apply Hskip in Hout. rewrite Hthere in Hout. discriminate Hout.
Defined.
